(** * Fabrik: printer registry store, state derivation and upstream proxies

    A shallow embedding of
    - [src/lib/server/printerStore.ts] (the snapshot store),
    - the state and progress derivation of the dashboard page,
    - the fetch skeleton of the [routes/api/printer-*] proxies,
    and the properties of the specification that concern them.

    JavaScript values are modelled as the code sees them: a parsed JSON
    document is a tree of [JSON] values, a property read that finds nothing
    is [None] (JavaScript's [undefined]), numbers are IEEE 754 binary64
    floats, strings are sequences of bytes: the UTF-8 encoding of the
    JavaScript string. *)

From Stdlib Require Import Floats Ascii String ZArith Uint63.
From stdpp Require Import gmap strings list fin_maps pretty.

Local Open Scope string_scope.
Local Set Warnings "-register-all,-clear-no-such-hyp".

(** ** JavaScript values *)

Module Js.

(** What [JSON.parse] can return.  The fields of an object are kept in
    document order; a parsed object has pairwise distinct keys. *)
Inductive JSON : Type :=
  | JNull
  | JBool (b : bool)
  | JNum (n : float)
  | JStr (s : string)
  | JArr (items : list JSON)
  | JObj (fields : list (string * JSON)).

(** [assoc k fields]: the value bound to [k], if any. *)
Fixpoint assoc (k : string) (fields : list (string * JSON)) : option JSON :=
  match fields with
  | [] => None
  | (k', v) :: rest => if String.eqb k k' then Some v else assoc k rest
  end.

(** [value.key] for the property names the program reads ([id], [name],
    [nodes], [label], ...): an own property of an object, [undefined]
    ([None]) on anything else.  Arrays and strings only carry [length] and
    index properties, which the modelled code never reads this way. *)
Definition prop (v : JSON) (key : string) : option JSON :=
  match v with
  | JObj fields => assoc key fields
  | _ => None
  end.

(** [typeof v === 'object' && v] : objects and arrays, not [null]. *)
Definition is_object (v : JSON) : bool :=
  match v with
  | JObj _ | JArr _ => true
  | _ => false
  end.

(** [typeof x === 'string'], returning the string. *)
Definition as_string (x : option JSON) : option string :=
  match x with
  | Some (JStr s) => Some s
  | _ => None
  end.

(** [typeof x === 'number'], returning the number. *)
Definition as_number (x : option JSON) : option float :=
  match x with
  | Some (JNum n) => Some n
  | _ => None
  end.

Definition is_string (x : option JSON) : bool := bool_decide (is_Some (as_string x)).
Definition is_number (x : option JSON) : bool := bool_decide (is_Some (as_number x)).

(** [x === null || typeof x === 'string'] and the like; a missing property
    ([undefined]) is neither. *)
Definition is_null_or_string (x : option JSON) : bool :=
  match x with
  | Some JNull | Some (JStr _) => true
  | _ => false
  end.

Definition is_null_or_number (x : option JSON) : bool :=
  match x with
  | Some JNull | Some (JNum _) => true
  | _ => false
  end.

(** [Number.isFinite] and [Number.isNaN]. *)
Definition isFinite (n : float) : bool := PrimFloat.is_finite n.
Definition isNaN (n : float) : bool := PrimFloat.is_nan n.

(** JavaScript truthiness of a value. *)
Definition truthy (v : JSON) : bool :=
  match v with
  | JNull => false
  | JBool b => b
  | JNum n => negb (PrimFloat.is_zero n || PrimFloat.is_nan n)
  | JStr s => negb (String.eqb s "")
  | JArr _ | JObj _ => true
  end.

(** [Object.entries] of an object or an array (whose keys are its indices
    in decimal). *)
Definition indexed (items : list JSON) : list (string * JSON) :=
  imap (fun i v => (pretty i, v)) items.

Definition entries (v : JSON) : list (string * JSON) :=
  match v with
  | JObj fields => fields
  | JArr items => indexed items
  | _ => []
  end.

(** [Object.fromEntries]: later entries overwrite earlier ones. *)
Definition setEntry (m : gmap string JSON) (kv : string * JSON) : gmap string JSON :=
  <[kv.1 := kv.2]> m.

Definition fromEntries (es : list (string * JSON)) : gmap string JSON :=
  foldl setEntry ∅ es.

(** [object[key] = value] on a plain object.  [__proto__] names the
    prototype accessor unless the object has an own property of that name:
    the assignment then changes the prototype and adds no property. *)
Definition assign (key : string) (value : JSON) (m : gmap string JSON)
  : gmap string JSON :=
  if String.eqb key "__proto__" && negb (bool_decide (is_Some (m !! key))) then m
  else <[key := value]> m.

(** *** Strings *)

(** A string stands for its UTF-8 encoding.  [utf8 bytes] is the string made
    of the given bytes. *)
Definition utf8 (bytes : list nat) : string :=
  string_of_list_ascii (List.map ascii_of_nat bytes).

(** The white space [String.prototype.trim] removes, each character in
    UTF-8: the WhiteSpace and LineTerminator code points of ECMAScript, that
    is U+0009 to U+000D, U+0020, U+00A0, U+1680, U+2000 to U+200A, U+2028,
    U+2029, U+202F, U+205F, U+3000 and U+FEFF. *)
Definition whiteSpace : list string :=
  List.map utf8
    [[9]; [10]; [11]; [12]; [13]; [32]; [194; 160]; [225; 154; 128];
     [226; 128; 128]; [226; 128; 129]; [226; 128; 130]; [226; 128; 131];
     [226; 128; 132]; [226; 128; 133]; [226; 128; 134]; [226; 128; 135];
     [226; 128; 136]; [226; 128; 137]; [226; 128; 138];
     [226; 128; 168]; [226; 128; 169]; [226; 128; 175]; [226; 129; 159];
     [227; 128; 128]; [239; 187; 191]].

(** [s] without the prefix [p], when it starts with it. *)
Fixpoint afterPrefix (p s : string) : option string :=
  match p, s with
  | EmptyString, _ => Some s
  | String a p', String b s' => if Ascii.eqb a b then afterPrefix p' s' else None
  | String _ _, EmptyString => None
  end.

(** [s] without the character of [spaces] it starts with, if it starts with
    one. *)
Fixpoint afterSpace (spaces : list string) (s : string) : option string :=
  match spaces with
  | [] => None
  | space :: others =>
      match afterPrefix space s with
      | Some rest => Some rest
      | None => afterSpace others s
      end
  end.

(** [s] without the characters of [spaces] it starts with; [fuel] bounds
    their number. *)
Fixpoint dropSpaces (spaces : list string) (fuel : nat) (s : string) : string :=
  match fuel with
  | 0 => s
  | S fuel' =>
      match afterSpace spaces s with
      | Some rest => dropSpaces spaces fuel' rest
      | None => s
      end
  end.

Definition reversed (s : string) : string :=
  string_of_list_ascii (rev (list_ascii_of_string s)).

Definition trimStart (s : string) : string :=
  dropSpaces whiteSpace (String.length s) s.

(** Trailing white space is leading white space of the reversed string. *)
Definition trimEnd (s : string) : string :=
  reversed (dropSpaces (List.map reversed whiteSpace) (String.length s) (reversed s)).

Definition trim (s : string) : string := trimEnd (trimStart s).

(** [toLowerCase] on the letters A-Z; every other byte is kept.  The
    substrings the program looks for are ASCII letters without "k", and no
    character outside ASCII lowers to such a letter next to another one, so
    for those searches this agrees with the Unicode mapping. *)
Definition lower (c : ascii) : ascii :=
  let n := nat_of_ascii c in
  if (65 <=? n)%nat && (n <=? 90)%nat then ascii_of_nat (n + 32) else c.

Fixpoint toLowerCase (s : string) : string :=
  match s with
  | EmptyString => EmptyString
  | String c rest => String (lower c) (toLowerCase rest)
  end.

(** [hay.includes(needle)]. *)
Fixpoint includes (hay needle : string) : bool :=
  String.prefix needle hay ||
  match hay with
  | EmptyString => false
  | String _ rest => includes rest needle
  end.

(** *** Numbers *)

(** [Math.min(a, b)] and [Math.max(a, b)]: NaN if an argument is NaN, and
    negative zero counts as smaller than positive zero. *)
Definition Math_min (a b : float) : float :=
  if PrimFloat.is_nan a || PrimFloat.is_nan b then PrimFloat.nan
  else if (a <? b)%float then a
  else if (b <? a)%float then b
  else if PrimFloat.is_zero a && PrimFloat.get_sign a then a else b.

Definition Math_max (a b : float) : float :=
  if PrimFloat.is_nan a || PrimFloat.is_nan b then PrimFloat.nan
  else if (b <? a)%float then a
  else if (a <? b)%float then b
  else if PrimFloat.is_zero a && negb (PrimFloat.get_sign a) then a else b.

(** [a ?? b]: the left operand unless it is [null] or [undefined]. *)
Definition nullish (x : option JSON) : bool :=
  match x with
  | None | Some JNull => true
  | Some _ => false
  end.

Definition coalesce (x : option JSON) (fallback : JSON) : JSON :=
  match x with
  | None | Some JNull => fallback
  | Some v => v
  end.

End Js.

Import Js.

(** ** The snapshot store ([src/lib/server/printerStore.ts]) *)

Module Store.

(** [PrinterSnapshot].  Nodes, printers and states are the JavaScript objects
    themselves: sanitisation filters the parsed entries and keeps the ones it
    accepts as they are.  [states] is [None] for [undefined]. *)
Record PrinterSnapshot : Type := {
  nodes : list JSON;
  printers : list JSON;
  states : option (gmap string JSON);
  updatedAt : float
}.

Definition CACHE_TTL_MS : float := 5000%float.

Record SnapshotCache : Type := {
  snapshot : PrinterSnapshot;
  expiresAt : float
}.

(** What [fs.readFile] followed by [JSON.parse] meets on disk: a read that
    fails with an error carrying [code] (a missing file has code ENOENT),
    text that [JSON.parse] rejects, or a document. *)
Inductive FileStatus : Type :=
  | ReadError (code : option string)
  | Unparsable
  | Document (doc : JSON).

(** What a call can throw: [new Error(message)], or the failure of
    [fs.mkdir] / [fs.writeFile]. *)
Inductive Exn : Type :=
  | Error (message : string)
  | WriteFailure.

Inductive Outcome (A : Type) : Type :=
  | Ok (value : A)
  | Throw (e : Exn).
Arguments Ok {A} value.
Arguments Throw {A} e.

(** Everything the module reads or changes: the store file, whether it
    can be written and what a write that fails leaves of it ([fs.writeFile]
    truncates the file when it opens it: [torn] is the file after a write
    that failed midway, [None] when the failure comes before the file is
    opened), the module-level [cache], the clock behind [Date.now()]
    (constant during one call), the identifiers [randomUUID] is going to
    return and how many were drawn, and the warnings printed. *)
Record World : Type := {
  file : FileStatus;
  writable : bool;
  torn : option FileStatus;
  cache : option SnapshotCache;
  clock : float;
  uuids : nat -> string;
  drawn : nat;
  warnings : list string
}.

Definition M (A : Type) : Type := World -> Outcome A * World.

#[export] Instance M_ret : MRet M := fun A (a : A) w => (Ok a, w).
#[export] Instance M_bind : MBind M := fun A B (k : A -> M B) (c : M A) w =>
  match c w with
  | (Ok a, w') => k a w'
  | (Throw e, w') => (Throw e, w')
  end.

Definition throw {A : Type} (message : string) : M A :=
  fun w => (Throw (Error message), w).

Definition now : M float := fun w => (Ok (clock w), w).

Definition createId : M string := fun w =>
  (Ok (uuids w (drawn w)),
   {| file := file w; writable := writable w; torn := torn w;
      cache := cache w; clock := clock w;
      uuids := uuids w; drawn := S (drawn w); warnings := warnings w |}).

Definition warn (message : string) : M unit := fun w =>
  (Ok tt,
   {| file := file w; writable := writable w; torn := torn w;
      cache := cache w; clock := clock w;
      uuids := uuids w; drawn := drawn w; warnings := message :: warnings w |}).

Definition setCache (c : option SnapshotCache) : M unit := fun w =>
  (Ok tt,
   {| file := file w; writable := writable w; torn := torn w; cache := c; clock := clock w;
      uuids := uuids w; drawn := drawn w; warnings := warnings w |}).

(** [string.length > 0] on a property that must be a string. *)
Definition is_nonempty_string (x : option JSON) : bool :=
  match as_string x with
  | Some s => (0 <? String.length s)%nat
  | None => false
  end.

Definition isValidNode (entry : JSON) : bool :=
  is_object entry &&
  is_nonempty_string (prop entry "id") &&
  is_nonempty_string (prop entry "name") &&
  is_number (prop entry "createdAt").

Definition has (ids : gset string) (x : option JSON) : bool :=
  match as_string x with
  | Some s => bool_decide (s ∈ ids)
  | None => false
  end.

Definition isValidPrinter (entry : JSON) (nodeIds : gset string) : bool :=
  is_object entry &&
  is_nonempty_string (prop entry "id") &&
  is_nonempty_string (prop entry "name") &&
  is_nonempty_string (prop entry "baseUrl") &&
  has nodeIds (prop entry "nodeId") &&
  is_number (prop entry "createdAt").

Definition isValidState (entry : JSON) : bool :=
  is_object entry &&
  (let isValidLabel := is_nonempty_string (prop entry "label") in
   let isValidVariant := is_string (prop entry "variant") in
   let isValidProgress := is_null_or_number (prop entry "progress") in
   let isValidError := is_null_or_string (prop entry "error") in
   let isValidUpdatedAt := is_null_or_number (prop entry "updatedAt") in
   let isValidMessage := is_null_or_string (prop entry "message") in
   isValidLabel && isValidVariant && isValidProgress && isValidError &&
   isValidUpdatedAt && isValidMessage).

(** [new Set(items.map((item) => item.id))], as far as strings go. *)
Definition idSet (items : list JSON) : gset string :=
  list_to_set (omap (fun item => as_string (prop item "id")) items).

Definition arrayOrEmpty (x : option JSON) : list JSON :=
  match x with
  | Some (JArr items) => items
  | _ => []
  end.

Definition sanitizeSnapshot (snapshot : JSON) (nowTs : float) : PrinterSnapshot :=
  let nodesSource := arrayOrEmpty (prop snapshot "nodes") in
  let nodes := List.filter isValidNode nodesSource in
  let nodeIds := idSet nodes in
  let printersSource := arrayOrEmpty (prop snapshot "printers") in
  let printers := List.filter (fun entry => isValidPrinter entry nodeIds) printersSource in
  let statesSource :=
    match prop snapshot "states" with
    | Some v => if is_object v then Some v else None
    | None => None
    end in
  let statesEntries := from_option entries [] statesSource in
  let printerIds := idSet printers in
  let validStates :=
    List.filter (fun '(printerId, state) =>
                   bool_decide (printerId ∈ printerIds) && isValidState state)
                statesEntries in
  let states :=
    if (0 <? length validStates)%nat then Some (fromEntries validStates) else None in
  {| nodes := nodes;
     printers := printers;
     states := states;
     updatedAt := from_option id nowTs (as_number (prop snapshot "updatedAt")) |}.

(** A snapshot in memory, read back as the object graph it is. *)
Definition to_json (s : PrinterSnapshot) : JSON :=
  JObj ([("nodes", JArr (nodes s)); ("printers", JArr (printers s))] ++
        from_option (fun m => [("states", JObj (map_to_list m))]) [] (states s) ++
        [("updatedAt", JNum (updatedAt s))]).

(** [JSON.parse(JSON.stringify(v))]: a number that is not finite is written
    as [null], negative zero as [0]. *)
Fixpoint stored (v : JSON) : JSON :=
  match v with
  | JNum n =>
      if isFinite n then (if PrimFloat.is_zero n then JNum 0%float else JNum n) else JNull
  | JArr items => JArr (List.map stored items)
  | JObj fields => JObj (List.map (fun '(k, x) => (k, stored x)) fields)
  | _ => v
  end.

Definition emptySnapshot (nowTs : float) : PrinterSnapshot :=
  {| nodes := []; printers := []; states := None; updatedAt := nowTs |}.

Definition READ_WARNING : string :=
  "[PrinterStore] No se pudo leer el archivo, se usará snapshot vacío".

Definition readSnapshotFromDisk : M PrinterSnapshot := fun w =>
  match file w with
  | Document parsed => (Ok (sanitizeSnapshot parsed (clock w)), w)
  | ReadError code =>
      if bool_decide (code = Some "ENOENT") then (Ok (emptySnapshot (clock w)), w)
      else (_ ← warn READ_WARNING; mret (emptySnapshot (clock w))) w
  | Unparsable => (_ ← warn READ_WARNING; mret (emptySnapshot (clock w))) w
  end.

(** The world after [fs.mkdir] or [fs.writeFile] failed. *)
Definition failedWrite (w : World) : World :=
  {| file := default (file w) (torn w); writable := writable w; torn := torn w;
     cache := cache w; clock := clock w; uuids := uuids w; drawn := drawn w;
     warnings := warnings w |}.

Definition writeSnapshotToDisk (s : PrinterSnapshot) : M unit := fun w =>
  if writable w then
    (Ok tt,
     {| file := Document (stored (to_json s)); writable := true; torn := torn w;
        cache := Some {| snapshot := s; expiresAt := (clock w + CACHE_TTL_MS)%float |};
        clock := clock w; uuids := uuids w; drawn := drawn w; warnings := warnings w |})
  else (Throw WriteFailure, failedWrite w).

Definition setUpdatedAt (s : PrinterSnapshot) (t : float) : PrinterSnapshot :=
  {| nodes := nodes s; printers := printers s; states := states s; updatedAt := t |}.

Definition updateSnapshot (mutator : PrinterSnapshot -> M PrinterSnapshot)
  : M PrinterSnapshot :=
  current ← readSnapshotFromDisk;
  mutated ← mutator current;
  t0 ← now;
  let next := sanitizeSnapshot (to_json mutated) t0 in
  t ← now;
  let next := setUpdatedAt next t in
  _ ← writeSnapshotToDisk next;
  mret next.

Record Defaults : Type := {
  baseUrl : option string;
  printerName : option string
}.

Definition mkNode (id name : string) (createdAt : float) : JSON :=
  JObj [("id", JStr id); ("name", JStr name); ("createdAt", JNum createdAt)].

Definition mkPrinter (id name baseUrl nodeId : string) (createdAt : float) : JSON :=
  JObj [("id", JStr id); ("name", JStr name); ("baseUrl", JStr baseUrl);
        ("nodeId", JStr nodeId); ("createdAt", JNum createdAt)].

(** [a || b] on strings: the empty string is falsy. *)
Definition or_else (a b : string) : string := if String.eqb a "" then b else a.

Definition maybeSeedDefaults (s : PrinterSnapshot) (defaults : option Defaults)
  : M PrinterSnapshot :=
  if (0 <? length (nodes s))%nat && (0 <? length (printers s))%nat then mret s
  else
    let baseUrl := defaults ≫= baseUrl in
    let printerName :=
      or_else (trim (default "" (defaults ≫= printerName))) "Impresora principal" in
    nowTs ← now;
    match baseUrl with
    | None => mret s
    | Some url =>
        if String.eqb url "" then mret s
        else
          nodeId ← createId;
          let principalNode := mkNode nodeId "Nodo principal" nowTs in
          printerId ← createId;
          let principalPrinter := mkPrinter printerId printerName url nodeId nowTs in
          let seeded :=
            {| nodes := [principalNode]; printers := [principalPrinter];
               states := states s; updatedAt := nowTs |} in
          _ ← writeSnapshotToDisk seeded;
          mret seeded
    end.

(** [getSnapshot] when the cache is absent or stale. *)
Definition getSnapshotFromDisk (defaults : option Defaults) : M PrinterSnapshot :=
  s ← readSnapshotFromDisk;
  s ← maybeSeedDefaults s defaults;
  t ← now;
  _ ← setCache (Some {| snapshot := s; expiresAt := (t + CACHE_TTL_MS)%float |});
  mret s.

Definition getSnapshot (defaults : option Defaults) : M PrinterSnapshot := fun w =>
  match cache w with
  | Some c =>
      if (clock w <? expiresAt c)%float then (Ok (snapshot c), w)
      else getSnapshotFromDisk defaults w
  | None => getSnapshotFromDisk defaults w
  end.

Record RegisterInput : Type := {
  name : string;
  inputBaseUrl : string;
  nodeId : option string;
  nodeName : option string
}.

(** [items.some((item) => item.id === id)]. *)
Definition someHasId (items : list JSON) (id : string) : bool :=
  existsb (fun item => bool_decide (as_string (prop item "id") = Some id)) items.

(** [if (states && states[key]) delete states[key]]. *)
Definition deleteIfTruthy (key : string) (m : gmap string JSON) : gmap string JSON :=
  match m !! key with
  | Some v => if truthy v then delete key m else m
  | None => m
  end.

Definition registerMutator (input : RegisterInput) (name baseUrl : string)
    (current : PrinterSnapshot) : M PrinterSnapshot :=
  let nodes0 := nodes current in
  let printers0 := printers current in
  let states0 := states current in
  let nodeExists :=
    match nodeId input with
    | Some target => negb (String.eqb target "") && someHasId nodes0 target
    | None => false
    end in
  '(nodes1, targetNodeId) ←
    (if nodeExists then mret (nodes0, default "" (nodeId input))
     else
       match trim <$> nodeName input with
       | Some nodeName =>
           if String.eqb nodeName "" then throw "El nodo de destino no es válido."
           else
             newId ← createId;
             t ← now;
             mret ((nodes0 ++ [mkNode newId nodeName t])%list, newId)
       | None => throw "El nodo de destino no es válido."
       end);
  printerId ← createId;
  t ← now;
  let printer := mkPrinter printerId name baseUrl targetNodeId t in
  mret {| nodes := nodes1;
          printers := (printers0 ++ [printer])%list;
          states := deleteIfTruthy printerId <$> states0;
          updatedAt := updatedAt current |}.

Definition registerPrinter (input : RegisterInput) : M PrinterSnapshot :=
  let name := trim (name input) in
  let baseUrl := trim (inputBaseUrl input) in
  if String.eqb name "" then throw "El nombre de la impresora es obligatorio."
  else if String.eqb baseUrl "" then throw "La URL base es obligatoria."
  else updateSnapshot (registerMutator input name baseUrl).

Definition idIs (key : string) (id : string) (item : JSON) : bool :=
  bool_decide (as_string (prop item key) = Some id).

Definition removePrinterMutator (printerId : string) (current : PrinterSnapshot)
  : M PrinterSnapshot :=
  let printers1 := List.filter (fun p => negb (idIs "id" printerId p)) (printers current) in
  if (length printers1 =? length (printers current))%nat
  then throw "La impresora indicada no existe."
  else
    mret {| nodes := nodes current;
            printers := printers1;
            states := delete printerId <$> states current;
            updatedAt := updatedAt current |}.

Definition removePrinter (printerId : string) : M PrinterSnapshot :=
  if String.eqb printerId "" then throw "Se requiere el identificador de la impresora."
  else updateSnapshot (removePrinterMutator printerId).

(** The loop of [removeNode] over [Object.keys(states)]: a key stays when
    some remaining printer has it as its id. *)
Definition pruneStates (remaining : list JSON) (m : gmap string JSON) : gmap string JSON :=
  foldl (fun acc key => if someHasId remaining key then acc else delete key acc)
        m (map_to_list m).*1.

Definition removeNodeMutator (nodeId : string) (current : PrinterSnapshot)
  : M PrinterSnapshot :=
  let nodes1 := List.filter (fun n => negb (idIs "id" nodeId n)) (nodes current) in
  if (length nodes1 =? length (nodes current))%nat
  then throw "El nodo indicado no existe."
  else
    let printers1 :=
      List.filter (fun p => negb (idIs "nodeId" nodeId p)) (printers current) in
    let states1 :=
      match states current with
      | Some m =>
          let pruned := pruneStates printers1 m in
          if (length (map_to_list pruned) =? 0)%nat then None else Some pruned
      | None => None
      end in
    mret {| nodes := nodes1;
            printers := printers1;
            states := states1;
            updatedAt := updatedAt current |}.

Definition removeNode (nodeId : string) : M PrinterSnapshot :=
  if String.eqb nodeId "" then throw "Se requiere el identificador del nodo."
  else updateSnapshot (removeNodeMutator nodeId).

(** The loop of [upsertPrinterStates] over [Object.entries(entries)]. *)
Definition upsertLoop (activePrinterIds : gset string) (entries : gmap string JSON)
    (states0 : gmap string JSON) : gmap string JSON :=
  foldl (fun acc '(printerId, summary) =>
           if negb (bool_decide (printerId ∈ activePrinterIds)) || negb (isValidState summary)
           then acc
           else assign printerId summary acc)
        states0 (map_to_list entries).

Definition upsertMutator (entries : gmap string JSON) (current : PrinterSnapshot)
  : M PrinterSnapshot :=
  let activePrinterIds := idSet (printers current) in
  let states0 := default ∅ (states current) in
  let states1 := upsertLoop activePrinterIds entries states0 in
  mret {| nodes := nodes current;
          printers := printers current;
          states := if (0 <? length (map_to_list states1))%nat then Some states1 else None;
          updatedAt := updatedAt current |}.

Definition upsertPrinterStates (entries : gmap string JSON) : M PrinterSnapshot :=
  updateSnapshot (upsertMutator entries).

Definition clearCache : M unit := setCache None.

End Store.

Module Store_calls.
Import Store.

(** The exported operations that return a snapshot. *)
Inductive Call : Type :=
  | CallGetSnapshot (defaults : option Defaults)
  | CallRegisterPrinter (input : RegisterInput)
  | CallRemovePrinter (printerId : string)
  | CallRemoveNode (nodeId : string)
  | CallUpsertPrinterStates (entries : gmap string JSON).

Definition run (c : Call) : M PrinterSnapshot :=
  match c with
  | CallGetSnapshot defaults => getSnapshot defaults
  | CallRegisterPrinter input => registerPrinter input
  | CallRemovePrinter printerId => removePrinter printerId
  | CallRemoveNode nodeId => removeNode nodeId
  | CallUpsertPrinterStates entries => upsertPrinterStates entries
  end.

(** The worlds the module can be in: it is loaded with [cache = null]; its
    operations and [clearCache] run; between calls the environment may change
    everything but the module's own cache (time passes, the file is edited,
    removed or restored, identifiers are drawn elsewhere). *)
Inductive reachable : World -> Prop :=
  | reach_load w : cache w = None -> reachable w
  | reach_call w c : reachable w -> reachable (run c w).2
  | reach_clearCache w : reachable w -> reachable (clearCache w).2
  | reach_environment w w' : reachable w -> cache w' = cache w -> reachable w'.

(** The string property [key] of an entry. *)
Definition field (key : string) (entry : JSON) : option string :=
  as_string (prop entry key).

(** The ids of a list of entries, in order. *)
Definition ids (items : list JSON) : list string := omap (field "id") items.

(** Every printer's [nodeId] is the id of a node of the snapshot. *)
Definition printers_resolve (s : PrinterSnapshot) : Prop :=
  ∀ p, p ∈ printers s →
    ∃ n nodeId, n ∈ nodes s ∧ field "nodeId" p = Some nodeId ∧ field "id" n = Some nodeId.

(** Every key of the states map is the id of a printer of the snapshot. *)
Definition states_resolve (s : PrinterSnapshot) : Prop :=
  ∀ m key, states s = Some m → is_Some (m !! key) →
    ∃ p, p ∈ printers s ∧ field "id" p = Some key.

Definition distinct_ids (s : PrinterSnapshot) : Prop :=
  NoDup (ids (nodes s)) ∧ NoDup (ids (printers s)).

(** The referential invariants of a snapshot. *)
Definition consistent (s : PrinterSnapshot) : Prop :=
  printers_resolve s ∧ states_resolve s.

(** The cached snapshot, if there is one, satisfies them. *)
Definition cache_consistent (w : World) : Prop :=
  ∀ c, cache w = Some c → consistent (snapshot c).

(** The snapshot [readSnapshotFromDisk] returns in world [w]: what every
    operation that misses the cache starts from. *)
Definition current (w : World) : PrinterSnapshot :=
  match file w with
  | Document doc => sanitizeSnapshot doc (clock w)
  | _ => emptySnapshot (clock w)
  end.

(** What [updateSnapshot] makes of the mutator's result at time [t]. *)
Definition commit (mutated : PrinterSnapshot) (t : float) : PrinterSnapshot :=
  setUpdatedAt (sanitizeSnapshot (to_json mutated) t) t.

(** The world after [readSnapshotFromDisk]: [w], with a warning more when
    the file could not be read. *)
Definition warned (w : World) : World := (readSnapshotFromDisk w).2.

(** The world after [writeSnapshotToDisk s] succeeded. *)
Definition written (s : PrinterSnapshot) (w : World) : World :=
  {| file := Document (stored (to_json s)); writable := true; torn := torn w;
     cache := Some {| snapshot := s; expiresAt := (clock w + CACHE_TTL_MS)%float |};
     clock := clock w; uuids := uuids w; drawn := drawn w; warnings := warnings w |}.

(** The stored state of printer [key], if any. *)
Definition stateOf (s : PrinterSnapshot) (key : string) : option JSON :=
  states s ≫= fun m => m !! key.

(** Whether [states[key] = value] stores the value in the states of [s]. *)
Definition assignable (s : PrinterSnapshot) (key : string) : bool :=
  negb (String.eqb key "__proto__") || bool_decide (is_Some (stateOf s key)).

(** The test [sanitizeSnapshot] applies to a state entry. *)
Definition keepsState (printers : list JSON) (key : string) (v : JSON) : bool :=
  bool_decide (key ∈ idSet printers) && isValidState v.

(** What a snapshot read from storage satisfies: every entry passed the
    validation of [sanitizeSnapshot]. *)
Definition sanitized (s : PrinterSnapshot) : Prop :=
  (∀ n, n ∈ nodes s → isValidNode n = true) ∧
  (∀ p, p ∈ printers s → isValidPrinter p (idSet (nodes s)) = true) ∧
  (∀ key v, stateOf s key = Some v → keepsState (printers s) key v = true).

(** Some entry of [items] has the string [id] as its property [key]. *)
Definition hasField (key id : string) (items : list JSON) : Prop :=
  ∃ item, item ∈ items ∧ field key item = Some id.

(** The world after [n] more identifiers were drawn. *)
Definition drew (n : nat) (w : World) : World :=
  {| file := file w; writable := writable w; torn := torn w;
     cache := cache w; clock := clock w;
     uuids := uuids w; drawn := n + drawn w; warnings := warnings w |}.

(** The snapshot [registerPrinter] hands to [updateSnapshot] when it creates
    the node [nodeName]. *)
Definition registeredInNewNode (name baseUrl nodeName : string) (cur : PrinterSnapshot)
    (w : World) : PrinterSnapshot :=
  let nodeId := uuids w (drawn w) in
  let printerId := uuids w (S (drawn w)) in
  {| nodes := nodes cur ++ [mkNode nodeId nodeName (clock w)];
     printers := printers cur ++ [mkPrinter printerId name baseUrl nodeId (clock w)];
     states := deleteIfTruthy printerId <$> states cur;
     updatedAt := updatedAt cur |}.

(** The validation of a stored state as the data model of the specification
    words it: label a non-empty string, variant one of the six names, progress
    a number between 0 and 100 or null, error a string or null, updatedAt a
    number or null, message a string or null. *)
Definition variantNames : list string :=
  ["printing"; "idle"; "paused"; "complete"; "error"; "unknown"].

Definition specValidState (entry : JSON) : bool :=
  is_object entry &&
  is_nonempty_string (prop entry "label") &&
  match as_string (prop entry "variant") with
  | Some variant => bool_decide (variant ∈ variantNames)
  | None => false
  end &&
  match prop entry "progress" with
  | Some JNull => true
  | Some (JNum n) => (0 <=? n)%float && (n <=? 100)%float
  | _ => false
  end &&
  is_null_or_string (prop entry "error") &&
  is_null_or_number (prop entry "updatedAt") &&
  is_null_or_string (prop entry "message").

(** [w] with another store file. *)
Definition withFile (status : FileStatus) (w : World) : World :=
  {| file := status; writable := writable w; torn := torn w;
     cache := cache w; clock := clock w;
     uuids := uuids w; drawn := drawn w; warnings := warnings w |}.


(** The world after [getSnapshot] cached [s]. *)
Definition cached (s : PrinterSnapshot) (w : World) : World :=
  {| file := file w; writable := writable w; torn := torn w;
     cache := Some {| snapshot := s; expiresAt := (clock w + CACHE_TTL_MS)%float |};
     clock := clock w; uuids := uuids w; drawn := drawn w; warnings := warnings w |}.

(** The printer name [maybeSeedDefaults] uses. *)
Definition seedName (defaults : option Defaults) : string :=
  or_else (trim (default "" (defaults ≫= printerName))) "Impresora principal".

(** The snapshot [maybeSeedDefaults] builds over [s] for the origin [url]. *)
Definition seeded (s : PrinterSnapshot) (defaults : option Defaults) (url : string)
    (w : World) : PrinterSnapshot :=
  {| nodes := [mkNode (uuids w (drawn w)) "Nodo principal" (clock w)];
     printers := [mkPrinter (uuids w (S (drawn w))) (seedName defaults) url
                            (uuids w (drawn w)) (clock w)];
     states := states s;
     updatedAt := clock w |}.

(** Whether [maybeSeedDefaults] seeds: a node or a printer is missing and a
    non-empty [baseUrl] was given. *)
Definition seedUrl (s : PrinterSnapshot) (defaults : option Defaults) : option string :=
  if (0 <? length (nodes s))%nat && (0 <? length (printers s))%nat then None
  else match defaults ≫= baseUrl with
       | Some url => if String.eqb url "" then None else Some url
       | None => None
       end.


(** What [getSnapshot] returns once [readSnapshotFromDisk] produced [cur]
    and left the world [w]. *)
Definition fromStorage (cur : PrinterSnapshot) (defaults : option Defaults) (w : World)
  : Outcome PrinterSnapshot * World :=
  match seedUrl cur defaults with
  | None => (Ok cur, cached cur w)
  | Some url =>
      if writable w
      then (Ok (seeded cur defaults url w),
            cached (seeded cur defaults url w)
                   (written (seeded cur defaults url w) (drew 2 w)))
      else (Throw WriteFailure, failedWrite (drew 2 w))
  end.

(** The identifiers still to be drawn are not in use in the stored snapshot. *)
Definition fresh_ids (w : World) : Prop :=
  ∀ n, (drawn w ≤ n)%nat →
    (uuids w n ∉ ids (nodes (current w))) ∧ (uuids w n ∉ ids (printers (current w))).

(** Partial correctness of a computation: from a world satisfying [P], a
    returned value and its world satisfy [Q], a thrown exception leaves a
    world satisfying [E]. *)
Definition hoare {A : Type} (P : World -> Prop) (c : M A)
    (Q : A -> World -> Prop) (E : World -> Prop) : Prop :=
  ∀ w, P w →
    match c w with
    | (Ok a, w') => Q a w'
    | (Throw _, w') => E w'
    end.

End Store_calls.

(** ** The dashboard page: state and progress of a polled printer *)

Module Dashboard.

Inductive StateVariant : Type :=
  | printing | idle | paused | complete | error | unknown.

Record StateDisplay : Type := {
  label : string;
  variant : StateVariant
}.

(** [resolveStateDisplay(raw)]; [None] is [null]. *)
Definition resolveStateDisplay (raw : option string) : StateDisplay :=
  match raw with
  | None => {| label := "Desconocido"; variant := unknown |}
  | Some raw =>
      if String.eqb raw "" then {| label := "Desconocido"; variant := unknown |}
      else
        let normalized := toLowerCase raw in
        if includes normalized "print"
        then {| label := "Imprimiendo"; variant := printing |}
        else if includes normalized "complete" || includes normalized "done" ||
                includes normalized "finish"
        then {| label := "Completado"; variant := complete |}
        else if includes normalized "pause"
        then {| label := "Pausado"; variant := paused |}
        else if includes normalized "standby" || includes normalized "idle" ||
                includes normalized "ready"
        then {| label := "Standby"; variant := idle |}
        else if includes normalized "error" || includes normalized "fault" ||
                includes normalized "halt"
        then {| label := "Error"; variant := error |}
        else {| label := raw; variant := unknown |}
  end.

(** [resolveProgress(value)]; [None] is [null] or [undefined]. *)
Definition resolveProgress (value : option float) : option float :=
  match value with
  | None => None
  | Some value =>
      if isNaN value then None
      else
        let progress := if (value <=? 1)%float then (value * 100)%float else value in
        Some (Math_max 0 (Math_min 100 progress))
  end.

(** [needle] occurs in [hay] when the case of letters is ignored. *)
Definition containsIgnoringCase (needle hay : string) : Prop :=
  ∃ before middle after,
    hay = before ++ middle ++ after ∧ toLowerCase middle = toLowerCase needle.

(** The words the page looks for are in lower case. *)
Definition lowercase (words : list string) : Prop :=
  Forall (fun word => toLowerCase word = word) words.

(** Some word of [words] occurs in [raw], case ignored. *)
Definition mentions (words : list string) (raw : string) : Prop :=
  ∃ word, word ∈ words ∧ containsIgnoringCase word raw.

(** Progress normalisation as the specification words it: a value of at most
    1 is a fraction and is multiplied by 100, a larger one is kept, and the
    result is clamped into the interval from 0 to 100. *)
Definition clamp (x : float) : float :=
  if (x <? 0)%float then 0%float else if (100 <? x)%float then 100%float else x.

Definition normalizeProgress (value : float) : float :=
  clamp (if (value <=? 1)%float then (value * 100)%float else value).

End Dashboard.

(** ** The upstream proxies ([src/routes/api/printer-*]) *)

Module Proxy.

Definition DEFAULT_BASE_URL : string := "http://192.168.1.17".

(** The body of a response: JSON text and its value, or text that
    [JSON.parse] rejects with the message [why] (the empty text included). *)
Inductive Body : Type :=
  | Parsed (doc : JSON)
  | Malformed (text why : string).

Record Response : Type := {
  status : nat;
  body : Body
}.

(** [response.ok]. *)
Definition ok (r : Response) : bool := (200 <=? status r)%nat && (status r <=? 299)%nat.

Record Request : Type := {
  method : string;
  url : string;
  payload : option JSON
}.

(** What the controller does with a request: it answers after some
    milliseconds, the connection fails after some milliseconds with a
    message, or nothing ever comes back. *)
Inductive Upstream : Type :=
  | Responds (afterMs : N) (r : Response)
  | Refuses (afterMs : N) (message : string)
  | Silent.

Inductive Settled : Type :=
  | Resolved (r : Response)
  | Rejected (message : string).

(** What a handler sends back: [json(body, { status })]. *)
Record Reply : Type := {
  code : nat;
  envelope : JSON
}.

Definition failure (message : string) : JSON :=
  JObj [("ok", JBool false); ("error", JStr message)].

Definition numberOrNull (x : option float) : JSON := from_option JNum JNull x.
Definition stringOrNull (x : option string) : JSON := from_option JStr JNull x.

(** A status code as a JavaScript number. *)
Definition numberOfNat (n : nat) : float :=
  PrimFloat.of_uint63 (Uint63.of_Z (Z.of_nat n)).

(** The statuses a [Response] with a body takes: from 200 to 599, and none
    of 204, 205 and 304.  With another one [json(body, { status })] throws. *)
Definition takesBody (status : nat) : bool :=
  (200 <=? status)%nat && (status <=? 599)%nat &&
  negb (bool_decide (status ∈ [204; 205; 304])).

(** [value?.key]. *)
Definition chain (value : option JSON) (key : string) : option JSON :=
  value ≫= fun v => prop v key.

(** [a ?? b] on values that may be [null]. *)
Definition orElse {A : Type} (a b : option A) : option A :=
  match a with
  | Some _ => a
  | None => b
  end.

Section Platform.

(** What the platform provides: [new URL(raw)] giving the protocol and the
    origin, or throwing a [TypeError] with [invalidUrlMessage]; the message
    of the error a fetch aborted by its signal rejects with; [Number(text)],
    [Number.parseInt(text, 10)] and the decimal form of a number in a
    template literal; [Array.prototype.sort] with the Spanish [localeCompare];
    the message of the [TypeError] for calling [flatMap] on a value that has
    none; the message of the error [json(body, { status })] throws for a
    status that takes no body. *)
Variable newURL : string -> option (string * string).
Variable invalidUrlMessage : string.
Variable abortMessage : string.
Variable Number : string -> float.
Variable parseInt10 : string -> float.
Variable numberToString : float -> string.
Variable sortEs : list string -> list string.
Variable flatMapMessage : string.
Variable statusMessage : nat -> string.

(** [fetch(target, { signal })] when [controller.abort()] is scheduled after
    [abortAfter] milliseconds, [fetch(target)] without a signal when it is
    [None]; [None] as a result is a promise that never settles.  The answer
    of the controller is taken as final: a redirect that [fetch] would
    follow is not modelled, nor is the limit the platform itself puts on a
    connection that stays silent. *)
Definition fetch (abortAfter : option N) (upstream : Upstream) : option Settled :=
  match upstream, abortAfter with
  | Responds t r, Some limit =>
      Some (if (t <? limit)%N then Resolved r else Rejected abortMessage)
  | Responds t r, None => Some (Resolved r)
  | Refuses t message, Some limit =>
      Some (Rejected (if (t <? limit)%N then message else abortMessage))
  | Refuses t message, None => Some (Rejected message)
  | Silent, Some limit => Some (Rejected abortMessage)
  | Silent, None => None
  end.

(** [resolveBaseUrl(raw)]: the origin, or the message of the error thrown.
    [unsupported] is the text for a protocol other than http and https. *)
Definition resolveBaseUrl (unsupported : string) (raw : option string) : string + string :=
  match raw with
  | None => inl DEFAULT_BASE_URL
  | Some raw =>
      if String.eqb raw "" then inl DEFAULT_BASE_URL
      else
        match newURL raw with
        | Some (protocol, origin) =>
            if String.eqb protocol "http:" || String.eqb protocol "https:"
            then inl origin
            else inr ("Invalid baseUrl provided: " ++ unsupported)
        | None => inr ("Invalid baseUrl provided: " ++ invalidUrlMessage)
        end
  end.

(** *** printer-overview *)

Definition QUERY : string :=
  "/printer/objects/query?heater_bed=temperature,target&heater_extruder=temperature,target&extruder=temperature,target&toolhead=velocity&motion_report=live_velocity&display_status=state,message,progress&print_stats=state,message,progress,print_duration,total_duration,print_speed".

Definition buildNumber (value : option JSON) : option float :=
  match value with
  | None | Some JNull => None
  | Some (JNum n) => if isFinite n then Some n else None
  | Some (JStr text) =>
      let trimmed := trim text in
      if String.eqb trimmed "" then None
      else
        let parsed := Number trimmed in
        if isFinite parsed then Some parsed else None
  | Some _ => None
  end.

Definition buildProgress (value : option JSON) : option float :=
  match buildNumber value with
  | None => None
  | Some num =>
      let normalized := if (num <=? 1)%float then (num * 100)%float else num in
      Some (Math_max 0 (Math_min 100 normalized))
  end.

Definition overviewData (base : string) (payload : JSON) : JSON :=
  let status := coalesce (chain (prop payload "result") "status") (JObj []) in
  let heaterBed := coalesce (prop status "heater_bed") (JObj []) in
  let heaterExtruder :=
    coalesce (prop status "extruder") (coalesce (prop status "heater_extruder") (JObj [])) in
  let toolhead := coalesce (prop status "toolhead") (JObj []) in
  let motionReport := coalesce (prop status "motion_report") (JObj []) in
  let displayStatus := coalesce (prop status "display_status") (JObj []) in
  let printStats := coalesce (prop status "print_stats") (JObj []) in
  let motionSpeed :=
    orElse (buildNumber (prop motionReport "live_velocity"))
      (orElse (buildNumber (prop printStats "print_speed"))
              (buildNumber (prop toolhead "velocity"))) in
  let rawState :=
    default "desconocido"
      (orElse (as_string (prop displayStatus "state")) (as_string (prop printStats "state"))) in
  let rawMessage :=
    orElse (as_string (prop displayStatus "message")) (as_string (prop printStats "message")) in
  let rawProgress :=
    orElse (buildProgress (prop displayStatus "progress"))
           (buildProgress (prop printStats "progress")) in
  JObj [("ok", JBool true);
        ("baseUrl", JStr base);
        ("data",
         JObj [("bed",
                JObj [("temperature", numberOrNull (buildNumber (prop heaterBed "temperature")));
                      ("target", numberOrNull (buildNumber (prop heaterBed "target")))]);
               ("hotend",
                JObj [("temperature",
                       numberOrNull (buildNumber (prop heaterExtruder "temperature")));
                      ("target", numberOrNull (buildNumber (prop heaterExtruder "target")))]);
               ("motion", JObj [("speed", numberOrNull motionSpeed)]);
               ("print",
                JObj [("state", JStr rawState);
                      ("message", stringOrNull rawMessage);
                      ("progress", numberOrNull rawProgress);
                      ("elapsedSeconds",
                       numberOrNull (buildNumber (prop printStats "print_duration")));
                      ("totalSeconds",
                       numberOrNull (buildNumber (prop printStats "total_duration")))])])].

(** [GET] of printer-overview; [net] is the controller. *)
Definition overviewGET (baseUrlParam : option string) (net : Request -> Upstream)
  : option Reply :=
  match resolveBaseUrl "Protocolo no soportado" baseUrlParam with
  | inr message => Some {| code := 400; envelope := failure message |}
  | inl base =>
      let target := base ++ QUERY in
      match fetch None (net {| method := "GET"; url := target; payload := None |}) with
      | None => None
      | Some (Rejected message) =>
          Some {| code := 502; envelope := failure ("Moonraker request failed: " ++ message) |}
      | Some (Resolved response) =>
          if negb (ok response)
          then
            if takesBody (status response)
            then Some {| code := status response;
                         envelope := failure ("Moonraker responded with status " ++
                                              pretty (status response)) |}
            else Some {| code := 502;
                         envelope := failure ("Moonraker request failed: " ++
                                              statusMessage (status response)) |}
          else
            match body response with
            | Malformed _ why =>
                Some {| code := 502;
                        envelope := failure ("Moonraker request failed: " ++ why) |}
            | Parsed payload => Some {| code := 200; envelope := overviewData base payload |}
            end
      end
  end.

(** *** printer-console *)

Definition MAX_COUNT : float := 500%float.
Definition DEFAULT_COUNT : float := 200%float.

Definition resolveCount (raw : option string) : float :=
  match raw with
  | None => DEFAULT_COUNT
  | Some raw =>
      if String.eqb raw "" then DEFAULT_COUNT
      else
        let parsed := parseInt10 raw in
        if negb (isFinite parsed) then DEFAULT_COUNT
        else Math_min (Math_max parsed 1) MAX_COUNT
  end.

Definition consoleEntries (payload : JSON) : JSON :=
  match prop payload "gcode_store" with
  | Some (JArr items) => JArr items
  | _ =>
      match chain (prop payload "result") "gcode_store" with
      | Some (JArr items) => JArr items
      | _ => JArr []
      end
  end.

(** The status of a failed upstream call: 504 when the message says the
    request was aborted. *)
Definition failureStatus (message : string) : nat :=
  if includes message "aborted" then 504 else 502.

Definition consoleGET (baseUrlParam countParam : option string) (net : Request -> Upstream)
  : option Reply :=
  match resolveBaseUrl "Unsupported protocol" baseUrlParam with
  | inr message => Some {| code := 400; envelope := failure message |}
  | inl resolvedBase =>
      let count := resolveCount countParam in
      let target := resolvedBase ++ "/server/gcode_store?count=" ++ numberToString count in
      match fetch (Some 8000%N) (net {| method := "GET"; url := target; payload := None |}) with
      | None => None
      | Some (Rejected message) =>
          Some {| code := failureStatus message;
                  envelope := failure ("Moonraker request failed: " ++ message) |}
      | Some (Resolved response) =>
          if negb (ok response)
          then
            if takesBody (status response)
            then Some {| code := status response;
                         envelope := failure ("Moonraker responded with status " ++
                                              pretty (status response)) |}
            else Some {| code := failureStatus (statusMessage (status response));
                         envelope := failure ("Moonraker request failed: " ++
                                              statusMessage (status response)) |}
          else
            match body response with
            | Malformed _ why =>
                Some {| code := failureStatus why;
                        envelope := failure ("Moonraker request failed: " ++ why) |}
            | Parsed payload =>
                Some {| code := 200;
                        envelope := JObj [("ok", JBool true);
                                          ("entries", consoleEntries payload);
                                          ("baseUrl", JStr resolvedBase)] |}
            end
      end
  end.

(** *** printer-macros *)

Definition macroPrefix : string := "gcode_macro ".

(** [raw.slice(n)]. *)
Fixpoint slice (n : nat) (raw : string) : string :=
  match n, raw with
  | S n', String _ rest => slice n' rest
  | _, _ => raw
  end.

Definition normalizeMacroName (raw : string) : string :=
  if String.eqb raw "" then raw
  else if String.prefix macroPrefix raw then slice (String.length macroPrefix) raw else raw.

Definition macroOf (entry : JSON) : list string :=
  match entry with
  | JStr text => if String.prefix macroPrefix text then [normalizeMacroName text] else []
  | JObj fields =>
      match assoc "name" fields with
      | Some (JStr name) =>
          if String.prefix macroPrefix name then [normalizeMacroName name] else []
      | _ => []
      end
  | _ => []
  end.

(** [names.filter((name, index, array) => array.findIndex(...) === index)]:
    the first occurrence of each name. *)
Fixpoint firstOccurrences (seen names : list string) : list string :=
  match names with
  | [] => []
  | name :: rest =>
      if bool_decide (name ∈ seen) then firstOccurrences seen rest
      else name :: firstOccurrences (name :: seen) rest
  end.

Definition macrosGET (baseUrlParam : option string) (net : Request -> Upstream)
  : option Reply :=
  match resolveBaseUrl "Unsupported protocol" baseUrlParam with
  | inr message => Some {| code := 400; envelope := failure message |}
  | inl base =>
      let target := base ++ "/printer/objects/list" in
      match fetch None (net {| method := "GET"; url := target; payload := None |}) with
      | None => None
      | Some (Rejected message) =>
          Some {| code := 502; envelope := failure ("Moonraker request failed: " ++ message) |}
      | Some (Resolved response) =>
          if negb (ok response)
          then
            if takesBody (status response)
            then Some {| code := status response;
                         envelope := failure ("Moonraker responded with status " ++
                                              pretty (status response)) |}
            else Some {| code := 502;
                         envelope := failure ("Moonraker request failed: " ++
                                              statusMessage (status response)) |}
          else
            let payload := match body response with Parsed doc => doc | Malformed _ _ => JNull end in
            let objects :=
              coalesce (chain (prop payload "result") "objects")
                       (coalesce (prop payload "result") (JArr [])) in
            match objects with
            | JArr items =>
                let macros := sortEs (firstOccurrences [] (flat_map macroOf items)) in
                Some {| code := 200;
                        envelope :=
                          JObj [("ok", JBool true);
                                ("baseUrl", JStr base);
                                ("macros",
                                 JArr (List.map (fun name => JObj [("name", JStr name)])
                                                macros))] |}
            | _ =>
                Some {| code := 502;
                        envelope := failure ("Moonraker request failed: " ++ flatMapMessage) |}
            end
      end
  end.

(** *** printer-control *)

Record ActionConfig : Type := {
  path : string;
  actionBody : option JSON
}.

(** [POST] of printer-control from the point where the action was resolved
    to [actionConfig] and the origin to [base]: the upstream call and what
    is made of its result. *)
Definition sendCommand (actionConfig : ActionConfig) (base : string)
    (net : Request -> Upstream) : option Reply :=
  let target := base ++ path actionConfig in
  match fetch None (net {| method := "POST"; url := target;
                           payload := actionBody actionConfig |}) with
  | None => None
  | Some (Rejected message) =>
      Some {| code := 502; envelope := failure ("Fallo al contactar Moonraker: " ++ message) |}
  | Some (Resolved response) =>
      if negb (ok response)
      then
        if takesBody (status response)
        then Some {| code := status response;
                     envelope := failure ("Moonraker respondió con estado " ++
                                          pretty (status response)) |}
        else Some {| code := 502;
                     envelope := failure ("Fallo al contactar Moonraker: " ++
                                          statusMessage (status response)) |}
      else
        let moonrakerPayload :=
          match body response with
          | Parsed doc => doc
          | Malformed text _ => if String.eqb text "" then JNull else JStr text
          end in
        Some {| code := 200;
                envelope := JObj [("ok", JBool true);
                                  ("message", JStr "Comando enviado correctamente");
                                  ("status", JNum (numberOfNat (status response)));
                                  ("moonraker", moonrakerPayload)] |}
  end.

(** The four proxies of the specification, each called with the default
    origin and, for printer-control, with the home-all action. *)
Inductive Endpoint : Type :=
  | PrinterOverview | PrinterControl | PrinterConsole | PrinterMacros.

Definition home_xyz : ActionConfig :=
  {| path := "/printer/gcode/script"; actionBody := Some (JObj [("script", JStr "G28")]) |}.

Definition call (e : Endpoint) (net : Request -> Upstream) : option Reply :=
  match e with
  | PrinterOverview => overviewGET None net
  | PrinterControl => sendCommand home_xyz DEFAULT_BASE_URL net
  | PrinterConsole => consoleGET None None net
  | PrinterMacros => macrosGET None net
  end.

End Platform.

(** The handler has no deadline of its own: it never replies to a silent
    controller, and the delay of an answer or of a connection failure does
    not change the reply. *)
Definition waits_for_upstream (handler : (Request -> Upstream) -> option Reply) : Prop :=
  handler (fun _ => Silent) = None ∧
  (∀ t r, handler (fun _ => Responds t r) = handler (fun _ => Responds 0%N r)) ∧
  (∀ t message,
     handler (fun _ => Refuses t message) = handler (fun _ => Refuses 0%N message)).

(** The handler gives up after [limit] milliseconds with [reply]. *)
Definition gives_up_after (limit : N) (reply : Reply)
    (handler : (Request -> Upstream) -> option Reply) : Prop :=
  handler (fun _ => Silent) = Some reply ∧
  (∀ t r, handler (fun _ => Responds (limit + t) r) = Some reply) ∧
  (∀ t message, handler (fun _ => Refuses (limit + t) message) = Some reply).

End Proxy.

(** ** Binary64 constants as IEEE 754 data *)

Module Binary64.

Definition SF100 : spec_float := Eval vm_compute in Prim2SF 100%float.
Definition SF0 : spec_float := Eval vm_compute in Prim2SF 0%float.

End Binary64.

(** ** Sample worlds *)

Module Samples.
Import Store Store_calls.

Definition uuid (n : nat) : string := "uuid-" ++ pretty n.

(** U+00A0, the no-break space. *)
Definition nbsp : string := utf8 [194; 160].

(** A freshly loaded module next to a store file holding [doc]. *)
Definition world (status : FileStatus) : World :=
  {| file := status; writable := true; torn := None; cache := None;
     clock := 1000%float;
     uuids := uuid; drawn := 0; warnings := [] |}.

Definition state (label variant : string) (progress : JSON) : JSON :=
  JObj [("label", JStr label); ("variant", JStr variant); ("progress", progress);
        ("error", JNull); ("updatedAt", JNull); ("message", JNull)].

(** One node with one printer that has a stored state. *)
Definition workshop : JSON :=
  JObj [("nodes", JArr [mkNode "n1" "Taller" 1%float]);
        ("printers", JArr [mkPrinter "p1" "Voron" "http://10.0.0.5" "n1" 2%float]);
        ("states", JObj [("p1", state "Standby" "idle" JNull)]);
        ("updatedAt", JNum 3%float)].

(** Two nodes, and two printers that share the id [p1], one under each
    node; [p1] has a stored state. *)
Definition twins : JSON :=
  JObj [("nodes", JArr [mkNode "n1" "Taller" 1%float; mkNode "n2" "Garaje" 1%float]);
        ("printers", JArr [mkPrinter "p1" "Voron" "http://10.0.0.5" "n1" 2%float;
                           mkPrinter "p1" "Ender" "http://10.0.0.6" "n2" 2%float]);
        ("states", JObj [("p1", state "Imprimiendo" "printing" (JNum 42%float))]);
        ("updatedAt", JNum 3%float)].

(** Two nodes with the same id. *)
Definition clones : JSON :=
  JObj [("nodes", JArr [mkNode "n1" "Taller" 1%float; mkNode "n1" "Garaje" 2%float]);
        ("printers", JArr []);
        ("updatedAt", JNum 3%float)].

(** A state no printer reports: unknown variant, progress out of range. *)
Definition melting : JSON := state "Derretido" "melting" (JNum 500%float).

(** One node and no printer. *)
Definition emptyWorkshop : JSON :=
  JObj [("nodes", JArr [mkNode "n1" "Taller" 1%float]);
        ("printers", JArr []);
        ("updatedAt", JNum 3%float)].

Definition voron : option Defaults :=
  Some {| baseUrl := Some "http://10.0.0.5"; printerName := Some "Voron" |}.

Definition newPrinter : RegisterInput :=
  {| name := " Ender 3 "; inputBaseUrl := "http://10.0.0.7";
     nodeId := None; nodeName := Some "Garaje" |}.

End Samples.

(** ** The store, seen from its callers *)

Module StoreSpec.
Import Store Store_calls.

(** The calls that go through [updateSnapshot]. *)
Definition isMutation (c : Call) : bool :=
  match c with
  | CallGetSnapshot _ => false
  | _ => true
  end.

(** The messages of the errors the store throws itself. *)
Definition storeMessages : list string :=
  ["El nombre de la impresora es obligatorio.";
   "La URL base es obligatoria.";
   "El nodo de destino no es válido.";
   "Se requiere el identificador de la impresora.";
   "La impresora indicada no existe.";
   "Se requiere el identificador del nodo.";
   "El nodo indicado no existe."].

(** [JSON.stringify] followed by [JSON.parse] gives the snapshot back as it
    is: its numbers are finite and none is a negative zero. *)
Definition survivesStorage (s : PrinterSnapshot) : Prop :=
  stored (to_json s) = to_json s.

(** The local [nodeExists] of [registerPrinter]. *)
Definition nodeExists (input : RegisterInput) (current : PrinterSnapshot) : bool :=
  match nodeId input with
  | Some target => negb (String.eqb target "") && someHasId (nodes current) target
  | None => false
  end.

End StoreSpec.

(** ** The registry route ([routes/api/printer-registry]) *)

Module Registry.
Import Store Proxy.

(** [parseStates(value)]: the entries whose value is an object. *)
Definition parseStates (value : option JSON) : gmap string JSON :=
  match value with
  | Some v =>
      if is_object v
      then fromEntries (List.filter (fun '(_, summary) => is_object summary) (entries v))
      else ∅
  | None => ∅
  end.

(** [typeof x === 'string' ? x : fallback]. *)
Definition stringOr (x : option JSON) (fallback : string) : string :=
  default fallback (as_string x).

(** [json({ ok: true, snapshot })] and [json({ ok: false, error }, { status: 400 })]. *)
Definition success (s : PrinterSnapshot) : Reply :=
  {| code := 200; envelope := JObj [("ok", JBool true); ("snapshot", to_json s)] |}.

Definition rejected (message : string) : Reply :=
  {| code := 400; envelope := failure message |}.

Section Handlers.

(** The message of the error [fs.mkdir] or [fs.writeFile] fails with. *)
Variable writeFailureMessage : string.

Definition messageOf (e : Exn) : string :=
  match e with
  | Error message => message
  | WriteFailure => writeFailureMessage
  end.

(** The [try] block of [POST] around a store call. *)
Definition respond (c : M PrinterSnapshot) : M Reply := fun w =>
  match c w with
  | (Ok s, w') => (Ok (success s), w')
  | (Throw e, w') => (Ok (rejected (messageOf e)), w')
  end.

Definition addPrinterInput (payload : JSON) : RegisterInput :=
  {| name := stringOr (prop payload "name") "";
     inputBaseUrl := stringOr (prop payload "baseUrl") "";
     nodeId := as_string (prop payload "nodeId");
     nodeName := as_string (prop payload "nodeName") |}.

Definition POST (body : Body) : M Reply :=
  match body with
  | Malformed _ _ => mret (rejected "Cuerpo inválido, se esperaba JSON.")
  | Parsed payload =>
      match (if is_object payload then as_string (prop payload "action") else None) with
      | None => mret (rejected "Acción no especificada.")
      | Some action =>
          if String.eqb action "add-printer"
          then respond (registerPrinter (addPrinterInput payload))
          else if String.eqb action "remove-printer"
          then respond (removePrinter (stringOr (prop payload "printerId") ""))
          else if String.eqb action "remove-node"
          then respond (removeNode (stringOr (prop payload "nodeId") ""))
          else if String.eqb action "sync-states"
          then respond (upsertPrinterStates (parseStates (prop payload "states")))
          else mret (rejected "Acción no soportada.")
      end
  end.

End Handlers.

(** The store call a POST body leads to, if any. *)
Definition callOf (payload : JSON) : option Store_calls.Call :=
  match (if is_object payload then as_string (prop payload "action") else None) with
  | None => None
  | Some action =>
      if String.eqb action "add-printer"
      then Some (Store_calls.CallRegisterPrinter (addPrinterInput payload))
      else if String.eqb action "remove-printer"
      then Some (Store_calls.CallRemovePrinter (stringOr (prop payload "printerId") ""))
      else if String.eqb action "remove-node"
      then Some (Store_calls.CallRemoveNode (stringOr (prop payload "nodeId") ""))
      else if String.eqb action "sync-states"
      then Some (Store_calls.CallUpsertPrinterStates (parseStates (prop payload "states")))
      else None
  end.

End Registry.

(** ** What the proxies read and send *)

Module ProxySpec.
Import Proxy.

(** [value.a.b.c] for a path of property names. *)
Fixpoint at_path (path : list string) (v : JSON) : option JSON :=
  match path with
  | [] => Some v
  | key :: rest => prop v key ≫= at_path rest
  end.

(** The numeric readings of the overview reply, and its progress. *)
Definition overviewReadings : list (list string) :=
  [["data"; "bed"; "temperature"]; ["data"; "bed"; "target"];
   ["data"; "hotend"; "temperature"]; ["data"; "hotend"; "target"];
   ["data"; "motion"; "speed"];
   ["data"; "print"; "elapsedSeconds"]; ["data"; "print"; "totalSeconds"]].

Definition overviewProgress : list string := ["data"; "print"; "progress"].

(** [x] is [null] or a finite number. *)
Definition nullOrFinite (x : JSON) : Prop :=
  x = JNull ∨ ∃ n, x = JNum n ∧ isFinite n = true.

(** [x] is [null] or a number from 0 to 100. *)
Definition nullOrPercent (x : JSON) : Prop :=
  x = JNull ∨ ∃ r, x = JNum r ∧ (0 <=? r)%float = true ∧ (r <=? 100)%float = true.

(** The names the macros reply lists, before sorting. *)
Definition macroNames (items : list JSON) : list string :=
  firstOccurrences [] (flat_map macroOf items).

(** An entry of the object list that declares the macro [name]. *)
Definition declaresMacro (name : string) (entry : JSON) : Prop :=
  entry = JStr (macroPrefix ++ name) ∨
  ∃ fields, entry = JObj fields ∧ assoc "name" fields = Some (JStr (macroPrefix ++ name)).

(** The one request a GET proxy sends. *)
Definition get (target : string) : Request :=
  {| method := "GET"; url := target; payload := None |}.

(** [raw] is not accepted as a base URL: it does not parse, or its protocol is
    neither http nor https. *)
Definition badBaseUrl (newURL : string -> option (string * string)) (raw : string) : Prop :=
  raw ≠ "" ∧
  (newURL raw = None ∨
   ∃ protocol origin, newURL raw = Some (protocol, origin) ∧
                      protocol ≠ "http:" ∧ protocol ≠ "https:").

(** The message of the 400 reply for such a [raw]: the error of [new URL],
    or the proxy's own text for the protocol. *)
Definition rejection (newURL : string -> option (string * string))
    (invalidUrlMessage unsupported raw : string) : string :=
  "Invalid baseUrl provided: " ++
  match newURL raw with
  | Some _ => unsupported
  | None => invalidUrlMessage
  end.


(** The statuses at which [fetch] follows the [Location] of an answer
    instead of returning it. *)
Definition redirects : list nat := [301; 302; 303; 307; 308].


End ProxySpec.

(** ** The printer-info proxy *)

Module InfoProxy.
Import Proxy.

Section Platform.
Variable newURL : string -> option (string * string).
Variables invalidUrlMessage abortMessage : string.
Variable statusMessage : nat -> string.

Definition GET (baseUrlParam : option string) (net : Request -> Upstream) : option Reply :=
  match resolveBaseUrl newURL invalidUrlMessage "Unsupported protocol" baseUrlParam with
  | inr message => Some {| code := 400; envelope := failure message |}
  | inl resolvedBase =>
      let target := resolvedBase ++ "/printer/info" in
      match fetch abortMessage (Some 8000%N)
                  (net {| method := "GET"; url := target; payload := None |}) with
      | None => None
      | Some (Rejected message) =>
          Some {| code := failureStatus message;
                  envelope := failure ("Moonraker request failed: " ++ message) |}
      | Some (Resolved response) =>
          if negb (ok response)
          then
            if takesBody (status response)
            then Some {| code := status response;
                         envelope := failure ("Moonraker responded with status " ++
                                              pretty (status response)) |}
            else Some {| code := failureStatus (statusMessage (status response));
                         envelope := failure ("Moonraker request failed: " ++
                                              statusMessage (status response)) |}
          else
            match body response with
            | Malformed _ why =>
                Some {| code := failureStatus why;
                        envelope := failure ("Moonraker request failed: " ++ why) |}
            | Parsed payload =>
                Some {| code := 200;
                        envelope := JObj [("ok", JBool true);
                                          ("data", coalesce (prop payload "result") payload);
                                          ("baseUrl", JStr resolvedBase)] |}
            end
      end
  end.

End Platform.
End InfoProxy.

(** ** The printer-control proxy, from the request body on *)

Module ControlProxy.
Import Proxy.

Definition gcode (script : string) : ActionConfig :=
  {| path := "/printer/gcode/script"; actionBody := Some (JObj [("script", JStr script)]) |}.

Definition STATIC_ACTIONS : list (string * ActionConfig) :=
  [("pause", {| path := "/printer/print/pause"; actionBody := None |});
   ("home_xy", gcode "G28 X Y");
   ("home_xyz", gcode "G28");
   ("bed_mesh_calibrate", gcode "BED_MESH_CALIBRATE");
   ("screws_tilt_calculate", gcode "SCREWS_TILT_CALCULATE")].

(** The members [STATIC_ACTIONS] inherits from [Object.prototype]: the [in]
    operator finds them, and none has a [path], a [method], a [body] or an
    [error]. *)
Definition inheritedNames : list string :=
  ["constructor"; "hasOwnProperty"; "isPrototypeOf"; "propertyIsEnumerable";
   "toLocaleString"; "toString"; "valueOf"; "__proto__"; "__defineGetter__";
   "__defineSetter__"; "__lookupGetter__"; "__lookupSetter__"].

Definition ownAction (key : string) : option ActionConfig :=
  snd <$> List.find (fun entry => String.eqb key entry.1) STATIC_ACTIONS.

(** What [buildActionConfig] does: it returns a configuration, an inherited
    member of [STATIC_ACTIONS] or [{ error }], or the conversion of a value
    to a number or to a property key throws a [TypeError]. *)
Inductive Built : Type :=
  | Config (config : ActionConfig)
  | Inherited
  | Invalid (error : string)
  | Unconvertible.

(** What comes of a request to the handler: a reply, an exception the
    handler does not catch, or nothing as long as the upstream call has not
    settled. *)
Inductive Handled : Type :=
  | Replies (reply : Reply)
  | Throws
  | Pending.


Section Platform.

(** [new URL], the message of its [TypeError], [Number(value)] for a value
    that is not a number, the decimal form of a number in a template
    literal, the property key a value that is not a string converts to
    ([Number] and the conversion to a key throw for an object that has no
    primitive form: [None]), and the message of the error
    [json(body, { status })] throws for a status that takes no body. *)
Variable newURL : string -> option (string * string).
Variable invalidUrlMessage : string.
Variable NumberOf : option JSON -> option float.
Variable numberToString : float -> string.
Variable keyOf : JSON -> option string.
Variable statusMessage : nat -> string.

Definition resolveBaseUrl (raw : option JSON) : string + string :=
  match raw with
  | Some (JStr text) =>
      if String.eqb (trim text) "" then inl DEFAULT_BASE_URL
      else Proxy.resolveBaseUrl newURL invalidUrlMessage "Protocolo no soportado" (Some text)
  | _ => inl DEFAULT_BASE_URL
  end.

(** [action === name]. *)
Definition is_action (action : JSON) (name : string) : bool :=
  match action with
  | JStr text => String.eqb text name
  | _ => false
  end.

Definition buildActionConfig (action : JSON) (value : option JSON) : Built :=
  if is_action action "gcode_script" then
    match value with
    | Some (JStr text) =>
        if String.eqb (trim text) "" then Invalid "Comando GCode inválido"
        else Config (gcode (trim text))
    | _ => Invalid "Comando GCode inválido"
    end
  else if is_action action "set_bed_temperature" || is_action action "set_hotend_temperature"
  then
    match (match value with Some (JNum n) => Some n | _ => NumberOf value end) with
    | None => Unconvertible
    | Some numeric =>
        if negb (isFinite numeric) then Invalid "Valor de temperatura inválido"
        else
          let heater := if is_action action "set_bed_temperature" then "heater_bed"
                        else "extruder" in
          Config (gcode ("SET_HEATER_TEMPERATURE HEATER=" ++ heater ++ " TARGET=" ++
                         numberToString numeric))
    end
  else
    match (match action with JStr text => Some text | _ => keyOf action end) with
    | None => Unconvertible
    | Some key =>
        match ownAction key with
        | Some config => Config config
        | None =>
            if bool_decide (key ∈ inheritedNames) then Inherited
            else Invalid "Acción no soportada"
        end
    end.

(** The upstream call and what is made of its result. *)
Definition send (abortMessage : string) (verb target : string) (sent : option JSON)
    (net : Request -> Upstream) : option Reply :=
  match fetch abortMessage None
              (net {| method := verb; url := target; payload := sent |}) with
  | None => None
  | Some (Rejected message) =>
      Some {| code := 502; envelope := failure ("Fallo al contactar Moonraker: " ++ message) |}
  | Some (Resolved response) =>
      if negb (ok response)
      then
        if takesBody (status response)
        then Some {| code := status response;
                     envelope := failure ("Moonraker respondió con estado " ++
                                          pretty (status response)) |}
        else Some {| code := 502;
                     envelope := failure ("Fallo al contactar Moonraker: " ++
                                          statusMessage (status response)) |}
      else
        let moonrakerPayload :=
          match body response with
          | Parsed doc => doc
          | Malformed text _ => if String.eqb text "" then JNull else JStr text
          end in
        Some {| code := 200;
                envelope := JObj [("ok", JBool true);
                                  ("message", JStr "Comando enviado correctamente");
                                  ("status", JNum (numberOfNat (status response)));
                                  ("moonraker", moonrakerPayload)] |}
  end.

Definition answered (outcome : option Reply) : Handled :=
  match outcome with
  | Some reply => Replies reply
  | None => Pending
  end.

(** [POST]; an inherited member has no [path], no [method] and no [body]:
    the request is a GET of [/undefined]. *)
Definition POST (abortMessage : string) (body : Body) (net : Request -> Upstream)
  : Handled :=
  match body with
  | Malformed _ why =>
      Replies {| code := 400;
                 envelope := failure ("No se pudo parsear la solicitud: " ++ why) |}
  | Parsed payload =>
      match prop payload "action" with
      | None => Replies {| code := 400; envelope := failure "Acción no soportada" |}
      | Some action =>
          if negb (truthy action)
          then Replies {| code := 400; envelope := failure "Acción no soportada" |}
          else
            match resolveBaseUrl (prop payload "baseUrl") with
            | inr message => Replies {| code := 400; envelope := failure message |}
            | inl base =>
                match buildActionConfig action (prop payload "value") with
                | Unconvertible => Throws
                | Invalid error => Replies {| code := 400; envelope := failure error |}
                | Config config =>
                    answered (send abortMessage "POST" (base ++ path config)
                                   (actionBody config) net)
                | Inherited =>
                    answered (send abortMessage "GET" (base ++ "/undefined") None net)
                end
            end
      end
  end.

End Platform.
End ControlProxy.

(** ** The pages: what they load and how they name a printer *)

Module Page.
Import Proxy.

(** [x ?? null], with [None] for [null]. *)
Definition orNull (x : option JSON) : option JSON :=
  match x with
  | Some JNull => None
  | _ => x
  end.

(** The loop of [extractDeviceName] over its candidates. *)
Fixpoint firstName (candidates : list (option JSON)) : option string :=
  match candidates with
  | [] => None
  | Some (JStr candidate) :: rest =>
      let trimmed := trim candidate in
      if (0 <? String.length trimmed)%nat then Some trimmed else firstName rest
  | _ :: rest => firstName rest
  end.

(** The candidates of [extractDeviceName(info)], in order. *)
Definition nameCandidates (info : JSON) : list (option JSON) :=
  let printerMeta := orNull (prop info "printer") in
  let stateMeta := orNull (prop info "state") in
  let printerRecord := default (JObj []) printerMeta in
  [prop info "display_name";
   prop printerRecord "name";
   prop printerRecord "hostname";
   prop printerRecord "machine_name";
   prop printerRecord "printer_name";
   chain stateMeta "text";
   prop info "hostname";
   chain printerMeta "model"].

Definition extractDeviceName (info : JSON) : option string :=
  if negb (truthy info) then None else firstName (nameCandidates info).

(** What the page's [fetch] of one of the site's own routes gives:
    a response, or a rejection. *)
Inductive Fetched : Type :=
  | Answered (status : nat) (body : Body)
  | Failed (message : string).

(** [payload && typeof payload === 'object' && 'ok' in payload]. *)
Definition hasOk (payload : JSON) : bool :=
  is_object payload && bool_decide (is_Some (prop payload "ok")).

Definition loadEndpoint (fetched : Fetched) : JSON :=
  match fetched with
  | Failed message => failure ("No se pudo obtener datos: " ++ message)
  | Answered status body =>
      let payload := match body with Parsed doc => doc | Malformed _ _ => JNull end in
      if negb ((200 <=? status)%nat && (status <=? 299)%nat)
      then
        if hasOk payload then payload
        else failure ("Solicitud falló con estado " ++ pretty status)
      else
        if hasOk payload then payload
        else failure "Respuesta inesperada del servidor"
  end.

(** The response of a route that replied with [reply]: [json(body, { status })]
    writes the body with [JSON.stringify], and throws for a status that takes
    no body. *)
Definition responseOf (reply : Reply) : option Fetched :=
  if takesBody (code reply)
  then Some (Answered (code reply) (Parsed (Store.stored (envelope reply))))
  else None.

(** The defaults [load] of the dashboard page hands to [getSnapshot], given
    what [loadEndpoint] returned for printer-info. *)
Definition loadDefaults (status : JSON) : Store.Defaults :=
  let inferredPrinterName :=
    match prop status "ok" with
    | Some flag =>
        if truthy flag then extractDeviceName (default JNull (orNull (prop status "data")))
        else None
    | None => None
    end in
  {| Store.baseUrl := Some DEFAULT_BASE_URL; Store.printerName := inferredPrinterName |}.

(** [value.replace(new RegExp('/+$'), '')]: the trailing slashes go. *)
Fixpoint normalizeBaseUrl (value : string) : string :=
  match value with
  | EmptyString => EmptyString
  | String c rest =>
      match normalizeBaseUrl rest with
      | EmptyString => if Ascii.eqb c "/" then EmptyString else String c EmptyString
      | kept => String c kept
      end
  end.

(** [n] slashes. *)
Fixpoint slashes (n : nat) : string :=
  match n with
  | 0 => EmptyString
  | S n' => String "/" (slashes n')
  end.

End Page.

(** ** Sample requests *)

Module Cases.
Import Store Store_calls Proxy.

(** The message of the error [Response] throws for a status it does not
    take. *)
Definition statusError (status : nat) : string :=
  "Invalid response status code " ++ pretty status.

(** A URL parser that knows two addresses. *)
Definition parseUrl (raw : string) : option (string * string) :=
  if String.eqb raw "http://10.0.0.5:7125/status"
  then Some ("http:", "http://10.0.0.5:7125")
  else if String.eqb raw "ftp://10.0.0.5" then Some ("ftp:", "ftp://10.0.0.5")
  else None.

(** The workshop of [Samples], freshly loaded. *)
Definition loaded : World := Samples.world (Document Samples.workshop).

(** The same, on a disk that fills up: a write fails and leaves a file cut
    short. *)
Definition diskFull : World :=
  {| file := Document Samples.workshop; writable := false; torn := Some Unparsable;
     cache := None; clock := 1000%float; uuids := Samples.uuid; drawn := 0;
     warnings := [] |}.

(** A printer for the existing node [n1], for an unknown node whose name is
    a no-break space before a space, and for an unknown node with a name. *)
Definition intoTaller : RegisterInput :=
  {| name := " Ender 3 "; inputBaseUrl := "http://10.0.0.7";
     nodeId := Some "n1"; nodeName := Some "Garaje" |}.

Definition intoNowhere : RegisterInput :=
  {| name := "Ender 3"; inputBaseUrl := "http://10.0.0.7";
     nodeId := Some "n9"; nodeName := Some (Samples.nbsp ++ " ") |}.

Definition intoGaraje : RegisterInput :=
  {| name := "Ender 3"; inputBaseUrl := "http://10.0.0.7";
     nodeId := Some "n9"; nodeName := Some " Garaje " |}.

(** Bodies of requests to the registry route. *)
Definition removeP1 : JSON :=
  JObj [("action", JStr "remove-printer"); ("printerId", JStr "p1")].

Definition addWithoutName : JSON :=
  JObj [("action", JStr "add-printer"); ("name", JNum 5%float);
        ("baseUrl", JStr "http://10.0.0.7")].

(** States as a page sends them, one of them not an object. *)
Definition polled : JSON :=
  JObj [("p1", Samples.state "Imprimiendo" "printing" (JNum 42%float));
        ("p2", JStr "idle")].


(** An answer of Moonraker to the object list query. *)
Definition objectList : JSON :=
  JObj [("result",
         JObj [("objects",
                JArr [JStr "gcode_macro PARK"; JStr "toolhead";
                      JObj [("name", JStr "gcode_macro PARK")];
                      JStr "gcode_macro LOAD"])])].

(** A controller that answers every request at once with [doc]. *)
Definition answering (doc : JSON) : Request -> Upstream :=
  fun _ => Responds 0%N {| status := 200; body := Parsed doc |}.

(** What printer-info reports about a device. *)
Definition deviceInfo : JSON :=
  JObj [("display_name", JStr (" " ++ Samples.nbsp));
        ("printer", JObj [("hostname", JStr " voron-24 ")]);
        ("hostname", JStr "pi")].

End Cases.

(** * Properties *)

Section Store_facts.
Import Store Store_calls.

(** ** The monad *)

Lemma bind_Ok {A B : Type} (c : M A) (k : A -> M B) w b w' :
  (c ≫= k) w = (Ok b, w') ->
  ∃ a w1, c w = (Ok a, w1) ∧ k a w1 = (Ok b, w').
Proof.
  unfold mbind, M_bind. destruct (c w) as [[a|e] w1]; intros H.
  - eauto.
  - discriminate.
Qed.

Lemma bind_run {A B : Type} (c : M A) (k : A -> M B) w a w1 :
  c w = (Ok a, w1) -> (c ≫= k) w = k a w1.
Proof. unfold mbind, M_bind. intros ->. reflexivity. Qed.

Lemma bind_Throw {A B : Type} (c : M A) (k : A -> M B) w e w1 :
  c w = (Throw e, w1) -> (c ≫= k) w = (Throw e, w1).
Proof. unfold mbind, M_bind. intros ->. reflexivity. Qed.

(** ** Entries and maps *)

Lemma foldl_insert_is_Some (es : list (string * JSON)) (m : gmap string JSON) key :
  is_Some (foldl setEntry m es !! key) ->
  is_Some (m !! key) ∨ ∃ v, (key, v) ∈ es.
Proof.
  revert m. induction es as [|[k v] es IH]; intros m; simpl.
  - auto.
  - intros H. destruct (IH _ H) as [Hm | [v' Hin]]; unfold setEntry in *; simpl in *.
    + destruct (decide (k = key)) as [->|Hne].
      * right. exists v. left.
      * rewrite lookup_insert_ne in Hm by done. auto.
    + right. exists v'. by right.
Qed.

Lemma fromEntries_is_Some es key :
  is_Some (fromEntries es !! key) -> ∃ v, (key, v) ∈ es.
Proof.
  intros H. apply foldl_insert_is_Some in H as [H | H]; [|done].
  rewrite lookup_empty in H. by destruct H.
Qed.

Lemma elem_of_idSet items id :
  id ∈ idSet items ↔ ∃ item, item ∈ items ∧ field "id" item = Some id.
Proof.
  unfold idSet. rewrite elem_of_list_to_set, list_elem_of_omap. reflexivity.
Qed.

Lemma elem_of_List_filter {A : Type} (f : A -> bool) (l : list A) x :
  x ∈ List.filter f l ↔ x ∈ l ∧ f x = true.
Proof. rewrite !list_elem_of_In. apply filter_In. Qed.

Lemma has_true ids x :
  has ids x = true -> ∃ s, as_string x = Some s ∧ s ∈ ids.
Proof.
  unfold has. destruct (as_string x) as [s|]; [|done].
  intros H%bool_decide_eq_true. eauto.
Qed.

(** ** Sanitisation establishes the referential invariants *)

Lemma isValidPrinter_nodeId entry nodeIds :
  isValidPrinter entry nodeIds = true ->
  ∃ id, field "nodeId" entry = Some id ∧ id ∈ nodeIds.
Proof.
  unfold isValidPrinter. rewrite !andb_true_iff.
  intros [[_ H] _]. by apply has_true.
Qed.

Lemma sanitize_consistent doc t : consistent (sanitizeSnapshot doc t).
Proof.
  split.
  - intros p Hp. cbn in Hp.
    apply elem_of_List_filter in Hp as [_ Hvalid].
    apply isValidPrinter_nodeId in Hvalid as (id & Hid & Hin).
    apply elem_of_idSet in Hin as (n & Hn & Hnid).
    exists n, id. cbn. auto.
  - intros m key Hm Hkey. unfold sanitizeSnapshot in Hm. simpl in Hm.
    case_match; [|done].
    injection Hm as <-.
    apply fromEntries_is_Some in Hkey as [v Hin].
    apply elem_of_List_filter in Hin as [_ Hok].
    apply andb_true_iff in Hok as [Hk%bool_decide_eq_true _].
    apply elem_of_idSet in Hk as (p & Hp & Hpid).
    exists p. cbn. auto.
Qed.

Lemma setUpdatedAt_consistent s t : consistent s -> consistent (setUpdatedAt s t).
Proof. intros [H1 H2]. split; [exact H1 | exact H2]. Qed.

Lemma emptySnapshot_consistent t : consistent (emptySnapshot t).
Proof.
  split.
  - intros p Hp. cbn in Hp. by apply elem_of_nil in Hp.
  - intros m key Hm. discriminate.
Qed.

(** ** Hoare rules *)

Lemma hoare_ret {A : Type} (P : World -> Prop) (a : A) (Q : A -> World -> Prop) E :
  (∀ w, P w -> Q a w) -> hoare P (mret a) Q E.
Proof. intros H w Hw. cbn. auto. Qed.

Lemma hoare_throw {A : Type} (P : World -> Prop) message (Q : A -> World -> Prop)
    (E : World -> Prop) :
  (∀ w, P w -> E w) -> hoare P (throw message) Q E.
Proof. intros H w Hw. cbn. auto. Qed.

Lemma hoare_bind {A B : Type} (P : World -> Prop) (c : M A) (R : A -> World -> Prop)
    (k : A -> M B) (Q : B -> World -> Prop) (E : World -> Prop) :
  hoare P c R E -> (∀ a, hoare (R a) (k a) Q E) -> hoare P (c ≫= k) Q E.
Proof.
  intros Hc Hk w Hw. specialize (Hc w Hw).
  unfold mbind, M_bind. destruct (c w) as [[a|e] w1]; [|exact Hc].
  apply (Hk a w1 Hc).
Qed.

Lemma hoare_weaken {A : Type} (P P' : World -> Prop) (c : M A)
    (Q Q' : A -> World -> Prop) (E : World -> Prop) :
  hoare P' c Q' E -> (∀ w, P w -> P' w) -> (∀ a w, Q' a w -> Q a w) -> hoare P c Q E.
Proof.
  intros H HP HQ w Hw. specialize (H w (HP w Hw)).
  destruct (c w) as [[a|e] w1]; auto.
Qed.

(** The primitive effects leave the cache alone, except the two that set it. *)

Lemma hoare_now (P : World -> Prop) : hoare P now (fun _ => P) P.
Proof. intros w Hw. exact Hw. Qed.

Lemma hoare_createId_cache :
  hoare cache_consistent createId (fun _ => cache_consistent) cache_consistent.
Proof. intros w Hw. exact Hw. Qed.

Lemma hoare_warn_cache message :
  hoare cache_consistent (warn message) (fun _ => cache_consistent) cache_consistent.
Proof. intros w Hw. exact Hw. Qed.

Lemma hoare_setCache c :
  (∀ c', c = Some c' -> consistent (snapshot c')) ->
  hoare cache_consistent (setCache c) (fun _ => cache_consistent) cache_consistent.
Proof. intros H w Hw c' Hc'. cbn in Hc'. auto. Qed.

Lemma hoare_write s :
  consistent s ->
  hoare cache_consistent (writeSnapshotToDisk s) (fun _ => cache_consistent)
        cache_consistent.
Proof.
  intros Hs w Hw. unfold writeSnapshotToDisk. destruct (writable w); [|exact Hw].
  intros c Hc. cbn in Hc. injection Hc as <-. exact Hs.
Qed.

Lemma hoare_read :
  hoare cache_consistent readSnapshotFromDisk
        (fun s w => s = current w ∧ cache_consistent w) cache_consistent.
Proof.
  intros w Hw. unfold readSnapshotFromDisk, current.
  destruct (file w) as [code| |doc] eqn:Hfile.
  - case_bool_decide; unfold mbind, M_bind, warn; cbn; rewrite ?Hfile; auto.
  - unfold mbind, M_bind, warn; cbn. rewrite ?Hfile. auto.
  - split; [by rewrite Hfile | exact Hw].
Qed.

Lemma current_consistent w : consistent (current w).
Proof.
  unfold current. destruct (file w);
    auto using emptySnapshot_consistent, sanitize_consistent.
Qed.

Lemma hoare_seq_cache {A B : Type} (c : M A) (k : A -> M B) (Q : B -> World -> Prop) :
  hoare cache_consistent c (fun _ => cache_consistent) cache_consistent ->
  (∀ a, hoare cache_consistent (k a) Q cache_consistent) ->
  hoare cache_consistent (c ≫= k) Q cache_consistent.
Proof. intros Hc Hk. eapply hoare_bind; [exact Hc | exact Hk]. Qed.

Lemma hoare_updateSnapshot mutator :
  (∀ cur, hoare cache_consistent (mutator cur) (fun _ => cache_consistent)
                cache_consistent) ->
  hoare cache_consistent (updateSnapshot mutator)
        (fun s w => consistent s ∧ cache_consistent w) cache_consistent.
Proof.
  intros Hmut. unfold updateSnapshot.
  eapply hoare_bind; [apply hoare_read|]. intros cur.
  eapply hoare_bind.
  { eapply hoare_weaken; [apply (Hmut cur) | | intros ? ? H; exact H].
    by intros w [_ Hw]. }
  intros mutated. cbv beta.
  apply hoare_seq_cache; [apply hoare_now|]. intros t0.
  apply hoare_seq_cache; [apply hoare_now|]. intros t.
  assert (consistent (setUpdatedAt (sanitizeSnapshot (to_json mutated) t0) t)) as Hnext
    by apply setUpdatedAt_consistent, sanitize_consistent.
  apply hoare_seq_cache; [by apply hoare_write|]. intros _.
  apply hoare_ret. auto.
Qed.

Lemma seeded_consistent s nodeId printerId printerName url t :
  consistent s ->
  ((0 <? length (nodes s))%nat && (0 <? length (printers s))%nat) = false ->
  consistent {| nodes := [mkNode nodeId "Nodo principal" t];
                printers := [mkPrinter printerId printerName url nodeId t];
                states := states s; updatedAt := t |}.
Proof.
  intros [Hp Hs] Hempty.
  assert (printers s = []) as Hnone.
  { destruct (printers s) as [|p ps] eqn:Hps; [done|].
    destruct (Hp p) as (n & ? & Hn & _); [rewrite Hps; left|].
    destruct (nodes s); [by apply elem_of_nil in Hn | done]. }
  split.
  - intros p Hin. cbn in Hin. apply list_elem_of_singleton in Hin as ->.
    exists (mkNode nodeId "Nodo principal" t), nodeId.
    split; [left | done].
  - intros m key Hm Hkey. cbn in Hm.
    destruct (Hs m key Hm Hkey) as (p & Hin & _).
    rewrite Hnone in Hin. by apply elem_of_nil in Hin.
Qed.

Lemma hoare_maybeSeedDefaults s defaults :
  consistent s ->
  hoare cache_consistent (maybeSeedDefaults s defaults)
        (fun s' w => consistent s' ∧ cache_consistent w) cache_consistent.
Proof.
  intros Hs. unfold maybeSeedDefaults.
  destruct (_ && _) eqn:Hempty; [apply hoare_ret; auto|].
  apply hoare_seq_cache; [apply hoare_now|]. intros t.
  destruct (defaults ≫= baseUrl) as [url|]; [|apply hoare_ret; auto].
  destruct (String.eqb url ""); [apply hoare_ret; auto|].
  apply hoare_seq_cache; [apply hoare_createId_cache|]. intros nodeId.
  apply hoare_seq_cache; [apply hoare_createId_cache|]. intros printerId.
  apply hoare_seq_cache; [by apply hoare_write, seeded_consistent|]. intros _.
  apply hoare_ret. intros w Hw. split; [by apply seeded_consistent | exact Hw].
Qed.

Lemma hoare_getSnapshotFromDisk defaults :
  hoare cache_consistent (getSnapshotFromDisk defaults)
        (fun s w => consistent s ∧ cache_consistent w) cache_consistent.
Proof.
  unfold getSnapshotFromDisk.
  eapply hoare_bind; [apply hoare_read|]. intros cur.
  eapply hoare_bind with (R := fun s w => consistent s ∧ cache_consistent w).
  { intros w [-> Hw]. apply hoare_maybeSeedDefaults; [apply current_consistent | done]. }
  intros s. cbv beta.
  intros w [Hs Hw]. revert w Hw.
  change (hoare cache_consistent
            (now ≫= fun t =>
               setCache (Some {| snapshot := s; expiresAt := (t + CACHE_TTL_MS)%float |})
               ≫= fun _ => mret s)
            (fun s w => consistent s ∧ cache_consistent w) cache_consistent).
  apply hoare_seq_cache; [apply hoare_now|]. intros t.
  apply hoare_seq_cache.
  { apply hoare_setCache. intros c' [= <-]. exact Hs. }
  intros _. apply hoare_ret. auto.
Qed.

Lemma hoare_getSnapshot defaults :
  hoare cache_consistent (getSnapshot defaults)
        (fun s w => consistent s ∧ cache_consistent w) cache_consistent.
Proof.
  intros w Hw. unfold getSnapshot.
  destruct (cache w) as [c|] eqn:Hc.
  - destruct (clock w <? expiresAt c)%float.
    + split; [by apply Hw | exact Hw].
    + by apply hoare_getSnapshotFromDisk.
  - by apply hoare_getSnapshotFromDisk.
Qed.

(** ** What the operations compute *)

Lemma read_eq w : readSnapshotFromDisk w = (Ok (current w), warned w).
Proof.
  unfold warned, readSnapshotFromDisk, current.
  destruct (file w) as [code| |doc] eqn:Hfile; [case_bool_decide| |];
    unfold mbind, M_bind, warn; cbn; rewrite ?Hfile; reflexivity.
Qed.

Lemma warned_same w :
  file (warned w) = file w ∧ writable (warned w) = writable w ∧
  cache (warned w) = cache w ∧ clock (warned w) = clock w ∧
  uuids (warned w) = uuids w ∧ drawn (warned w) = drawn w.
Proof.
  unfold warned, readSnapshotFromDisk.
  destruct (file w) as [code| |doc] eqn:Hfile; [case_bool_decide| |];
    unfold mbind, M_bind, warn; cbn; rewrite ?Hfile; auto 10.
Qed.

Lemma write_eq s w :
  writeSnapshotToDisk s w =
  if writable w then (Ok tt, written s w) else (Throw WriteFailure, failedWrite w).
Proof. reflexivity. Qed.

Lemma updateSnapshot_eq mutator w :
  updateSnapshot mutator w =
  match mutator (current w) (warned w) with
  | (Ok mutated, w2) =>
      if writable w2
      then (Ok (commit mutated (clock w2)), written (commit mutated (clock w2)) w2)
      else (Throw WriteFailure, failedWrite w2)
  | (Throw e, w2) => (Throw e, w2)
  end.
Proof.
  unfold updateSnapshot. rewrite (bind_run _ _ _ _ _ (read_eq w)).
  unfold mbind at 1, M_bind at 1.
  destruct (mutator (current w) (warned w)) as [[mutated|e] w2]; [|reflexivity].
  unfold mbind, M_bind, now, writeSnapshotToDisk, mret, M_ret. cbn.
  destruct (writable w2); reflexivity.
Qed.

Lemma commit_nodes m t : nodes (commit m t) = List.filter isValidNode (nodes m).
Proof. reflexivity. Qed.

Lemma commit_printers m t :
  printers (commit m t) =
  List.filter (fun entry => isValidPrinter entry (idSet (List.filter isValidNode (nodes m))))
              (printers m).
Proof. reflexivity. Qed.

Lemma foldl_insert_lookup (es : list (string * JSON)) (m : gmap string JSON) key v :
  NoDup (es.*1) ->
  (foldl setEntry m es !! key = Some v ↔
   (key, v) ∈ es ∨ ((key ∉ es.*1) ∧ m !! key = Some v)).
Proof.
  revert m. induction es as [|[k0 v0] es IH]; intros m Hnd; simpl.
  - split; [intros H; right; split; [apply not_elem_of_nil | exact H]|].
    intros [H | [_ H]]; [by apply elem_of_nil in H | exact H].
  - apply NoDup_cons in Hnd as [Hk0 Hnd]. rewrite (IH _ Hnd). clear IH.
    unfold setEntry. simpl.
    rewrite !elem_of_cons. destruct (decide (key = k0)) as [->|Hne].
    + rewrite lookup_insert_eq. split.
      * intros [Hin | [_ [= ->]]]; [|by left; left].
        exfalso. apply Hk0. apply list_elem_of_fmap. by exists (k0, v).
      * intros [[[= ->] | Hin] | [Hno _]].
        -- right. split; [exact Hk0 | reflexivity].
        -- by left.
        -- exfalso. apply Hno. by left.
    + rewrite lookup_insert_ne by done. split.
      * intros [Hin | [Hno Hm]]; [by left; right|].
        right. split; [|exact Hm]. intros [? | ?]; [done | by apply Hno].
      * intros [[[= -> _] | Hin] | [Hno Hm]]; [done | by left |].
        right. split; [|exact Hm]. intros ?. apply Hno. by right.
Qed.

Lemma fromEntries_lookup es key v :
  NoDup (es.*1) -> (fromEntries es !! key = Some v ↔ (key, v) ∈ es).
Proof.
  intros Hnd. unfold fromEntries. rewrite foldl_insert_lookup by done.
  rewrite lookup_empty. naive_solver.
Qed.

Lemma NoDup_fst_filter (P : string * JSON -> bool) (es : list (string * JSON)) :
  NoDup (es.*1) -> NoDup (List.filter P es).*1.
Proof.
  induction es as [|[k v] es IH]; simpl; [done|].
  intros [Hk Hnd]%NoDup_cons. destruct (P (k, v)); [|auto].
  simpl. apply NoDup_cons. split; [|auto].
  intros (kv & Hkv & Hin)%list_elem_of_fmap.
  apply elem_of_List_filter in Hin as [Hin _].
  apply Hk. apply list_elem_of_fmap. eauto.
Qed.

Lemma fromEntries_filter_lookup (P : string * JSON -> bool) (m : gmap string JSON) key :
  fromEntries (List.filter P (map_to_list m)) !! key =
  m !! key ≫= fun v => if P (key, v) then Some v else None.
Proof.
  apply option_eq. intros v.
  rewrite fromEntries_lookup by apply NoDup_fst_filter, NoDup_fst_map_to_list.
  rewrite elem_of_List_filter, elem_of_map_to_list.
  destruct (m !! key) as [v'|]; simpl.
  - split.
    + intros [[= ->] ->]. reflexivity.
    + destruct (P (key, v')) eqn:HP; [|done]. intros [= ->]. done.
  - split; [by intros [? _] | done].
Qed.

Lemma commit_stateOf m t key :
  stateOf (commit m t) key =
  stateOf m key ≫= fun v =>
    if keepsState (printers (commit m t)) key v then Some v else None.
Proof.
  unfold stateOf. destruct m as [ns ps [mm|] u]; [|reflexivity].
  set (P := fun '(printerId, state) =>
              keepsState (printers (commit {| nodes := ns; printers := ps;
                 states := Some mm; updatedAt := u |} t)) printerId state).
  change (states (commit {| nodes := ns; printers := ps; states := Some mm;
                            updatedAt := u |} t))
    with (if (0 <? length (List.filter P (map_to_list mm)))%nat
          then Some (fromEntries (List.filter P (map_to_list mm))) else None).
  pose proof (fromEntries_filter_lookup P mm key) as H.
  destruct (List.filter P (map_to_list mm)) as [|e es] eqn:Hf.
  - unfold fromEntries in H. simpl in H. rewrite lookup_empty in H. exact H.
  - exact H.
Qed.

(** ** Lists *)

Lemma List_filter_all {A : Type} (f : A -> bool) (l : list A) :
  (∀ x, x ∈ l -> f x = true) -> List.filter f l = l.
Proof.
  induction l as [|a l IH]; simpl; [done|]. intros H.
  rewrite (H a) by left. f_equal. apply IH. intros x Hx. apply H. by right.
Qed.

Lemma List_filter_length_eq {A : Type} (f : A -> bool) (l : list A) :
  length (List.filter f l) = length l ↔ ∀ x, x ∈ l -> f x = true.
Proof.
  split.
  - induction l as [|a l IH]; simpl; intros Hlen x Hx; [by apply elem_of_nil in Hx|].
    pose proof (filter_length_le f l) as Hle.
    destruct (f a) eqn:Hfa; simpl in Hlen; [|lia].
    apply elem_of_cons in Hx as [->|Hx]; [done|]. apply IH; [lia | done].
  - intros H. by rewrite List_filter_all.
Qed.

Lemma existsb_elem_of {A : Type} (f : A -> bool) (l : list A) :
  existsb f l = true ↔ ∃ x, x ∈ l ∧ f x = true.
Proof.
  rewrite existsb_exists. split; intros (x & Hx & Hf); exists x;
    (split; [by apply list_elem_of_In | done]).
Qed.

Lemma someHasId_true items id :
  someHasId items id = true ↔ ∃ item, item ∈ items ∧ field "id" item = Some id.
Proof.
  unfold someHasId. rewrite existsb_elem_of.
  split; intros (x & Hx & Hf); exists x; (split; [done|]).
  - by apply bool_decide_eq_true in Hf.
  - by apply bool_decide_eq_true.
Qed.

Lemma someHasId_idSet items id : someHasId items id = bool_decide (id ∈ idSet items).
Proof.
  apply eq_true_iff_eq. rewrite someHasId_true, bool_decide_eq_true, elem_of_idSet.
  reflexivity.
Qed.

(** ** What a snapshot read from storage satisfies *)

Lemma foldl_setEntry_Some (es : list (string * JSON)) (m : gmap string JSON) key v :
  foldl setEntry m es !! key = Some v -> m !! key = Some v ∨ (key, v) ∈ es.
Proof.
  revert m. induction es as [|[k0 v0] es IH]; intros m; simpl; [auto|].
  intros H. destruct (IH _ H) as [Hm | Hin]; [|right; by right].
  unfold setEntry in Hm. simpl in Hm.
  destruct (decide (k0 = key)) as [->|Hne].
  - rewrite lookup_insert_eq in Hm. injection Hm as ->. right. left.
  - rewrite lookup_insert_ne in Hm by done. auto.
Qed.

Lemma sanitize_sanitized doc t : sanitized (sanitizeSnapshot doc t).
Proof.
  split; [|split].
  - intros n Hn. by apply elem_of_List_filter in Hn as [_ ?].
  - intros p Hp. by apply elem_of_List_filter in Hp as [_ ?].
  - intros key v. unfold stateOf, sanitizeSnapshot. simpl.
    case_match; [|done]. simpl. intros Hlook.
    apply foldl_setEntry_Some in Hlook as [Hlook | Hlook];
      [by rewrite lookup_empty in Hlook|].
    by apply elem_of_List_filter in Hlook as [_ ?].
Qed.

Lemma current_sanitized w : sanitized (current w).
Proof.
  unfold current. destruct (file w); try apply sanitize_sanitized.
  all: split; [|split]; intros ? H; try by apply elem_of_nil in H.
  all: done.
Qed.

Lemma isValidPrinter_mono p (A B : gset string) :
  isValidPrinter p A = true ->
  (∀ id, field "nodeId" p = Some id -> id ∈ A -> id ∈ B) ->
  isValidPrinter p B = true.
Proof.
  unfold isValidPrinter. rewrite !andb_true_iff.
  intros [[[[[Ho Hi] Hn] Hb] Hh] Hc] Himp. repeat split; try done.
  apply has_true in Hh as (id & Hid & Hin).
  unfold has. rewrite Hid. apply bool_decide_eq_true. by apply Himp.
Qed.

(** ** Pruning the states of removed printers *)

Lemma pruneStates_lookup remaining (m : gmap string JSON) key :
  pruneStates remaining m !! key = if someHasId remaining key then m !! key else None.
Proof.
  unfold pruneStates.
  assert (∀ (keys : list string) (acc : gmap string JSON),
            foldl (fun acc key => if someHasId remaining key then acc else delete key acc)
                  acc keys !! key =
            if someHasId remaining key then acc !! key
            else if bool_decide (key ∈ keys) then None else acc !! key) as Hgen.
  { induction keys as [|k keys IH]; intros acc; simpl.
    - by destruct (someHasId remaining key).
    - rewrite IH. destruct (someHasId remaining key) eqn:Hkey.
      + destruct (someHasId remaining k) eqn:Hk; [done|].
        rewrite lookup_delete_ne; [done|]. intros ->. congruence.
      + destruct (decide (k = key)) as [->|Hne].
        * rewrite Hkey, lookup_delete_eq.
          rewrite (bool_decide_eq_true_2 (key ∈ key :: keys)) by left.
          by case_bool_decide.
        * rewrite (bool_decide_ext (key ∈ k :: keys) (key ∈ keys)).
          2:{ rewrite elem_of_cons. naive_solver. }
          case_bool_decide; [done|].
          destruct (someHasId remaining k); [done|]. by rewrite lookup_delete_ne. }
  rewrite Hgen. destruct (someHasId remaining key); [done|].
  case_bool_decide as Hin; [done|].
  apply eq_None_not_Some. intros [v Hv]. apply Hin.
  apply list_elem_of_fmap. exists (key, v). split; [done|].
  by apply elem_of_map_to_list.
Qed.

(** ** removeNode *)

Lemma idIs_false key id item : idIs key id item = false ↔ field key item ≠ Some id.
Proof. unfold idIs, field. by rewrite bool_decide_eq_false. Qed.

Lemma removeNodeMutator_eq nodeId cur w :
  removeNodeMutator nodeId cur w =
  if someHasId (nodes cur) nodeId
  then (Ok {| nodes := List.filter (fun n => negb (idIs "id" nodeId n)) (nodes cur);
              printers := List.filter (fun p => negb (idIs "nodeId" nodeId p)) (printers cur);
              states :=
                match states cur with
                | Some m =>
                    let pruned :=
                      pruneStates (List.filter (fun p => negb (idIs "nodeId" nodeId p))
                                               (printers cur)) m in
                    if (length (map_to_list pruned) =? 0)%nat then None else Some pruned
                | None => None
                end;
              updatedAt := updatedAt cur |}, w)
  else (Throw (Error "El nodo indicado no existe."), w).
Proof.
  unfold removeNodeMutator.
  destruct (someHasId (nodes cur) nodeId) eqn:Hsome.
  - destruct (_ =? _)%nat eqn:Hlen; [|reflexivity].
    exfalso. apply Nat.eqb_eq in Hlen.
    pose proof (proj1 (List_filter_length_eq _ _) Hlen) as Hall.
    apply someHasId_true in Hsome as (n & Hn & Hid).
    specialize (Hall n Hn). apply negb_true_iff in Hall. by apply idIs_false in Hall.
  - destruct (_ =? _)%nat eqn:Hlen; [reflexivity|].
    exfalso. apply Nat.eqb_neq in Hlen. apply Hlen, List_filter_length_eq.
    intros n Hn. apply negb_true_iff. apply idIs_false. intros Hid.
    assert (someHasId (nodes cur) nodeId = true) by (apply someHasId_true; eauto).
    congruence.
Qed.

Lemma removeNode_spec w nodeId :
  (nodeId = "" ->
   removeNode nodeId w = (Throw (Error "Se requiere el identificador del nodo."), w)) ∧
  (nodeId ≠ "" -> ¬ hasField "id" nodeId (nodes (current w)) ->
   removeNode nodeId w = (Throw (Error "El nodo indicado no existe."), warned w)) ∧
  (nodeId ≠ "" -> hasField "id" nodeId (nodes (current w)) -> writable w = true ->
   ∃ s, removeNode nodeId w = (Ok s, written s (warned w)) ∧
        nodes s = List.filter (fun n => negb (idIs "id" nodeId n)) (nodes (current w)) ∧
        printers s =
          List.filter (fun p => negb (idIs "nodeId" nodeId p)) (printers (current w)) ∧
        ¬ hasField "id" nodeId (nodes s) ∧
        ¬ hasField "nodeId" nodeId (printers s) ∧
        ∀ key, stateOf s key =
               if someHasId (printers s) key then stateOf (current w) key else None).
Proof.
  destruct (current_sanitized w) as (Hnodes & Hprinters & Hstates).
  destruct (warned_same w) as (_ & Hwr & _ & Hclock & _).
  split; [|split].
  - intros ->. reflexivity.
  - intros Hne Hno. unfold removeNode.
    rewrite (proj2 (String.eqb_neq _ _) Hne), updateSnapshot_eq, removeNodeMutator_eq.
    destruct (someHasId _ _) eqn:Hsome; [|reflexivity].
    exfalso. by apply Hno, someHasId_true.
  - intros Hne Hhas Hw. unfold removeNode.
    rewrite (proj2 (String.eqb_neq _ _) Hne), updateSnapshot_eq, removeNodeMutator_eq.
    rewrite (proj2 (someHasId_true _ _) Hhas), Hwr, Hw.
    set (nodes1 := List.filter (fun n => negb (idIs "id" nodeId n)) (nodes (current w))).
    set (printers1 :=
           List.filter (fun p => negb (idIs "nodeId" nodeId p)) (printers (current w))).
    eexists. split; [reflexivity|].
    assert (List.filter isValidNode nodes1 = nodes1) as Hn1.
    { apply List_filter_all. intros n [Hn _]%elem_of_List_filter. auto. }
    assert (List.filter (fun entry => isValidPrinter entry (idSet nodes1)) printers1
            = printers1) as Hp1.
    { apply List_filter_all. intros p [Hp Hkeep]%elem_of_List_filter.
      apply (isValidPrinter_mono _ _ _ (Hprinters p Hp)).
      intros id Hid (n & Hn & Hnid)%elem_of_idSet. apply elem_of_idSet.
      exists n. split; [|done]. apply elem_of_List_filter. split; [done|].
      apply negb_true_iff. apply idIs_false. rewrite Hnid. intros [= ->].
      apply negb_true_iff in Hkeep. by apply idIs_false in Hkeep. }
    rewrite commit_nodes, commit_printers. cbn [nodes printers]. rewrite Hn1, Hp1.
    split; [done|]. split; [done|]. split; [|split].
    + intros (n & [_ Hkeep]%elem_of_List_filter & Hid).
      apply negb_true_iff in Hkeep. by apply idIs_false in Hkeep.
    + intros (p & [_ Hkeep]%elem_of_List_filter & Hid).
      apply negb_true_iff in Hkeep. by apply idIs_false in Hkeep.
    + intros key. rewrite commit_stateOf, commit_printers. cbn [nodes printers].
      rewrite Hn1, Hp1. unfold stateOf at 1. cbn [states].
      assert ((match states (current w) with
               | Some m =>
                   if (length (map_to_list (pruneStates printers1 m)) =? 0)%nat
                   then None else Some (pruneStates printers1 m)
               | None => None
               end ≫= fun m => m !! key)
              = if someHasId printers1 key then stateOf (current w) key else None) as ->.
      { unfold stateOf. destruct (states (current w)) as [m|]; simpl.
        - rewrite <- pruneStates_lookup.
          destruct (_ =? _)%nat eqn:Hlen; [|done]. simpl.
          apply Nat.eqb_eq, length_zero_iff_nil, map_to_list_empty_iff in Hlen.
          by rewrite Hlen, lookup_empty.
        - by destruct (someHasId printers1 key). }
      destruct (someHasId printers1 key) eqn:Hkey; [|done].
      destruct (stateOf (current w) key) as [v|] eqn:Hv; [|done]. simpl.
      unfold keepsState. rewrite <- someHasId_idSet, Hkey. simpl.
      specialize (Hstates key v Hv). unfold keepsState in Hstates.
      apply andb_true_iff in Hstates as [_ ->]. done.
Qed.

(** ** registerPrinter *)

Lemma registerMutator_new input name baseUrl cur w rawName :
  nodeId input = None -> nodeName input = Some rawName -> trim rawName ≠ "" ->
  registerMutator input name baseUrl cur w =
  (Ok (registeredInNewNode name baseUrl (trim rawName) cur w), drew 2 w).
Proof.
  intros Hid Hname Hne. unfold registerMutator. rewrite Hid, Hname. simpl.
  rewrite (proj2 (String.eqb_neq _ _) Hne). reflexivity.
Qed.

Lemma registerPrinter_new input w rawName :
  trim (name input) ≠ "" -> trim (inputBaseUrl input) ≠ "" ->
  nodeId input = None -> nodeName input = Some rawName -> trim rawName ≠ "" ->
  writable w = true ->
  let s := commit (registeredInNewNode (trim (name input)) (trim (inputBaseUrl input))
                     (trim rawName) (current w) (warned w)) (clock w) in
  registerPrinter input w = (Ok s, written s (drew 2 (warned w))).
Proof.
  intros Hn Hu Hid Hname Hne Hw s. unfold registerPrinter.
  rewrite (proj2 (String.eqb_neq _ _) Hn), (proj2 (String.eqb_neq _ _) Hu).
  rewrite updateSnapshot_eq, (registerMutator_new _ _ _ _ _ rawName) by done.
  destruct (warned_same w) as (_ & Hwr & _ & Hclock & _).
  cbn [writable drew clock]. rewrite Hwr, Hw, Hclock. reflexivity.
Qed.

Lemma stored_mkNode id name t :
  isFinite t = true ->
  ∃ t', stored (mkNode id name t) = mkNode id name t'.
Proof.
  intros Hfin. unfold mkNode. simpl. rewrite Hfin.
  destruct (PrimFloat.is_zero t); [exists 0%float | exists t]; reflexivity.
Qed.

Lemma isValidNode_mkNode id name t :
  id ≠ "" -> name ≠ "" -> isValidNode (mkNode id name t) = true.
Proof.
  intros Hid Hname. unfold isValidNode, mkNode. cbn.
  destruct id; [done|]. destruct name; [done|]. reflexivity.
Qed.

Lemma current_written_nodes s w :
  nodes (current (written s w)) = List.filter isValidNode (List.map stored (nodes s)).
Proof. reflexivity. Qed.

Lemma isValidPrinter_mkPrinter id name baseUrl nodeId t (nodeIds : gset string) :
  id ≠ "" -> name ≠ "" -> baseUrl ≠ "" -> nodeId ∈ nodeIds ->
  isValidPrinter (mkPrinter id name baseUrl nodeId t) nodeIds = true.
Proof.
  intros Hid Hname Hurl Hin. unfold isValidPrinter, mkPrinter. cbn.
  rewrite (bool_decide_eq_true_2 _ Hin).
  destruct id; [done|]. destruct name; [done|]. destruct baseUrl; [done|]. reflexivity.
Qed.

Lemma deleteIfTruthy_lookup id (m : gmap string JSON) key :
  (∀ v, m !! id = Some v -> isValidState v = true) ->
  deleteIfTruthy id m !! key = if bool_decide (key = id) then None else m !! key.
Proof.
  intros Hvalid. unfold deleteIfTruthy.
  destruct (m !! id) as [v|] eqn:Hv.
  - assert (truthy v = true) as ->.
    { specialize (Hvalid v eq_refl). unfold isValidState in Hvalid.
      apply andb_true_iff in Hvalid as [Hobj _]. by destruct v. }
    case_bool_decide as Hk.
    + subst. by rewrite lookup_delete_eq.
    + by rewrite lookup_delete_ne.
  - case_bool_decide as Hk; [by subst|done].
Qed.

Lemma stateOf_deleteIfTruthy cur id key ns ps u :
  sanitized cur ->
  stateOf {| nodes := ns; printers := ps;
             states := deleteIfTruthy id <$> states cur; updatedAt := u |} key =
  if bool_decide (key = id) then None else stateOf cur key.
Proof.
  intros (_ & _ & Hstates). unfold stateOf. cbn [states].
  destruct (states cur) as [m|] eqn:Hm; simpl.
  - apply deleteIfTruthy_lookup. intros v Hv.
    specialize (Hstates id v). unfold stateOf in Hstates. rewrite Hm in Hstates.
    specialize (Hstates Hv). unfold keepsState in Hstates.
    by apply andb_true_iff in Hstates as [_ ?].
  - by case_bool_decide.
Qed.

(** A state read back from the file that was written was in the snapshot
    written. *)
Lemma stateOf_written s w key :
  is_Some (stateOf (current (written s w)) key) -> is_Some (stateOf s key).
Proof.
  unfold current, written. cbn [file clock]. unfold stateOf, sanitizeSnapshot.
  cbn [states]. intros [v Hv].
  destruct s as [ns ps [m|] u]; cbn in Hv.
  - cbn. case_match; [|done]. simpl in Hv.
    apply foldl_setEntry_Some in Hv as [Hv | Hv]; [by rewrite lookup_empty in Hv|].
    apply elem_of_List_filter in Hv as [Hv _].
    apply list_elem_of_fmap in Hv as ([k x] & [= -> _] & Hin).
    apply elem_of_map_to_list in Hin. eauto.
  - done.
Qed.

(** The printer [registerPrinter] adds under a new node has no state. *)
Lemma registeredInNewNode_stateless name baseUrl nodeName cur w t :
  sanitized cur ->
  stateOf (commit (registeredInNewNode name baseUrl nodeName cur w) t)
          (uuids w (S (drawn w))) = None.
Proof.
  intros Hsan. rewrite commit_stateOf. unfold registeredInNewNode.
  rewrite stateOf_deleteIfTruthy by done. by rewrite bool_decide_eq_true_2.
Qed.

(** A stored printer is under a stored node. *)
Lemma sanitized_printer_node cur p nodeId :
  sanitized cur -> p ∈ printers cur -> field "nodeId" p = Some nodeId ->
  nodeId ∈ ids (nodes cur).
Proof.
  intros (_ & Hprinters & _) Hp Hnode.
  destruct (isValidPrinter_nodeId _ _ (Hprinters p Hp)) as (id & Hid & Hin).
  rewrite Hnode in Hid. injection Hid as <-.
  apply elem_of_idSet in Hin as (n & Hn & Hnid).
  apply list_elem_of_omap. eauto.
Qed.

Lemma register_then_removeNode input w rawName :
  trim (name input) ≠ "" -> trim (inputBaseUrl input) ≠ "" ->
  nodeId input = None -> nodeName input = Some rawName -> trim rawName ≠ "" ->
  writable w = true -> isFinite (clock w) = true ->
  uuids w (drawn w) ≠ "" -> uuids w (S (drawn w)) ≠ "" ->
  ∃ s1 w1 s2 w2,
    registerPrinter input w = (Ok s1, w1) ∧
    hasField "id" (uuids w (drawn w)) (nodes s1) ∧
    hasField "nodeId" (uuids w (drawn w)) (printers s1) ∧
    removeNode (uuids w (drawn w)) w1 = (Ok s2, w2) ∧
    ¬ hasField "id" (uuids w (drawn w)) (nodes s2) ∧
    ¬ hasField "nodeId" (uuids w (drawn w)) (printers s2) ∧
    (∀ key v, stateOf s2 key = Some v -> hasField "id" key (printers s2)) ∧
    stateOf s2 (uuids w (S (drawn w))) = None ∧
    ((uuids w (drawn w) ∉ ids (nodes (current w))) ->
     ∀ p key, p ∈ printers s1 -> field "nodeId" p = Some (uuids w (drawn w)) ->
              field "id" p = Some key -> stateOf s2 key = None).
Proof.
  intros Hn Hu Hid Hname Hne Hw Hfin Hnode Hprinter.
  pose proof (registerPrinter_new input w rawName Hn Hu Hid Hname Hne Hw) as Hreg.
  cbv zeta in Hreg.
  pose proof (current_sanitized w) as Hsan.
  destruct (warned_same w) as (_ & _ & _ & Hclock & Huu & Hdr).
  set (newNode := uuids w (drawn w)) in *.
  set (newPrinter := uuids w (S (drawn w))) in *.
  set (m := registeredInNewNode _ _ _ _ _) in Hreg.
  set (s1 := commit m (clock w)) in Hreg.
  set (w1 := written s1 (drew 2 (warned w))) in Hreg.
  set (added := mkPrinter newPrinter (trim (name input)) (trim (inputBaseUrl input))
                          newNode (clock w)).
  assert (mkNode newNode (trim rawName) (clock w) ∈ nodes s1) as Hin1.
  { unfold s1. rewrite commit_nodes. apply elem_of_List_filter. split.
    - unfold m, registeredInNewNode. cbn [nodes]. rewrite Huu, Hdr, Hclock.
      apply elem_of_app. right. left.
    - by apply isValidNode_mkNode. }
  assert (hasField "id" newNode (nodes s1)) as Hhas1 by (eexists; split; [exact Hin1|done]).
  assert (hasField "nodeId" newNode (printers s1)) as Hhasp.
  { exists added.
    split; [|done]. unfold s1. rewrite commit_printers. apply elem_of_List_filter. split.
    - unfold m, registeredInNewNode. cbn [printers]. rewrite Huu, Hdr, Hclock.
      apply elem_of_app. right. left.
    - apply isValidPrinter_mkPrinter; try done.
      apply elem_of_idSet. exists (mkNode newNode (trim rawName) (clock w)).
      split; [|reflexivity]. by rewrite <- commit_nodes with (t := clock w). }
  assert (hasField "id" newNode (nodes (current w1))) as Hhas2.
  { destruct (stored_mkNode newNode (trim rawName) (clock w) Hfin) as [t' Ht'].
    exists (mkNode newNode (trim rawName) t'). split; [|done].
    unfold w1. rewrite current_written_nodes. apply elem_of_List_filter. split.
    - rewrite <- Ht'. apply list_elem_of_In, in_map, list_elem_of_In, Hin1.
    - by apply isValidNode_mkNode. }
  destruct (removeNode_spec w1 newNode) as (_ & _ & Hrem).
  destruct (Hrem Hnode Hhas2 eq_refl) as (s2 & Hrun & _ & _ & Hnn & Hnp & Hst).
  assert (stateOf s2 newPrinter = None) as Hnone.
  { rewrite Hst. destruct (someHasId (printers s2) newPrinter); [|done].
    destruct (stateOf (current w1) newPrinter) as [v|] eqn:Hv; [|done].
    assert (is_Some (stateOf s1 newPrinter)) as [v1 Hv1].
    { apply (stateOf_written s1 (drew 2 (warned w))). fold w1. by rewrite Hv. }
    unfold s1, m, newPrinter in Hv1.
    rewrite <- Huu, <- Hdr in Hv1.
    by rewrite registeredInNewNode_stateless in Hv1. }
  exists s1, w1, s2, (written s2 (warned w1)).
  repeat split; try done.
  - intros key v Hv. rewrite Hst in Hv.
    destruct (someHasId (printers s2) key) eqn:Hsome; [|done].
    by apply someHasId_true in Hsome.
  - intros Hfresh p key Hp Hpnode Hpid.
    unfold s1 in Hp. rewrite commit_printers in Hp.
    apply elem_of_List_filter in Hp as [Hp _].
    unfold m, registeredInNewNode in Hp. cbn [printers] in Hp.
    rewrite Huu, Hdr, Hclock in Hp. fold newNode newPrinter added in Hp.
    apply elem_of_app in Hp as [Hp | Hp].
    + destruct Hfresh. by eapply sanitized_printer_node.
    + apply list_elem_of_singleton in Hp as ->.
      injection Hpid as <-. exact Hnone.
Qed.

(** ** upsertPrinterStates *)

Lemma assign_lookup key v (m : gmap string JSON) key' :
  assign key v m !! key' =
  if bool_decide (key = key') &&
     (negb (String.eqb key "__proto__") || bool_decide (is_Some (m !! key)))
  then Some v else m !! key'.
Proof.
  unfold assign. destruct (decide (key = key')) as [<-|Hne].
  - rewrite (bool_decide_eq_true_2 (key = key)) by done. simpl.
    destruct (String.eqb key "__proto__"); simpl.
    + case_bool_decide; simpl; [by rewrite lookup_insert_eq | done].
    + by rewrite lookup_insert_eq.
  - rewrite (bool_decide_eq_false_2 (key = key')) by done. simpl.
    destruct (_ && _); [done | by rewrite lookup_insert_ne].
Qed.

Lemma upsertLoop_lookup (active : gset string) (entries states0 : gmap string JSON) key :
  upsertLoop active entries states0 !! key =
  match entries !! key with
  | Some v =>
      if bool_decide (key ∈ active) && isValidState v &&
         (negb (String.eqb key "__proto__") || bool_decide (is_Some (states0 !! key)))
      then Some v else states0 !! key
  | None => states0 !! key
  end.
Proof.
  unfold upsertLoop.
  rewrite <- (list_to_map_to_list entries) at 2.
  pose proof (NoDup_fst_map_to_list entries) as Hnd.
  revert states0 Hnd. generalize (map_to_list entries) as es.
  induction es as [|[k0 v0] es IH]; intros acc Hnd.
  - simpl. by rewrite lookup_empty.
  - apply NoDup_cons in Hnd as [Hk0 Hnd]. cbn [foldl]. rewrite (IH _ Hnd). clear IH.
    rewrite list_to_map_cons.
    assert ((if negb (bool_decide (k0 ∈ active)) || negb (isValidState v0)
             then acc else assign k0 v0 acc) !! key
            = if bool_decide (k0 = key) &&
                 (bool_decide (k0 ∈ active) && isValidState v0 &&
                  (negb (String.eqb k0 "__proto__") || bool_decide (is_Some (acc !! k0))))
              then Some v0 else acc !! key) as Hstep.
    { destruct (bool_decide (k0 ∈ active)), (isValidState v0); simpl;
        rewrite ?andb_false_r; try done.
      by rewrite assign_lookup. }
    rewrite Hstep. clear Hstep.
    destruct (decide (key = k0)) as [->|Hne].
    + rewrite lookup_insert_eq, (proj1 (not_elem_of_list_to_map _ _) Hk0).
      by rewrite (bool_decide_eq_true_2 (k0 = k0)).
    + rewrite lookup_insert_ne, (bool_decide_eq_false_2 (k0 = key)) by done. done.
Qed.

Lemma upsert_spec w entries :
  writable w = true ->
  ∃ s, upsertPrinterStates entries w = (Ok s, written s (warned w)) ∧
       nodes s = nodes (current w) ∧
       printers s = printers (current w) ∧
       ∀ key, stateOf s key =
              match entries !! key with
              | Some v =>
                  if bool_decide (key ∈ idSet (printers (current w))) && isValidState v &&
                     assignable (current w) key
                  then Some v else stateOf (current w) key
              | None => stateOf (current w) key
              end.
Proof.
  intros Hw.
  destruct (current_sanitized w) as (Hnodes & Hprinters & Hstates).
  destruct (warned_same w) as (_ & Hwr & _ & Hclock & _).
  unfold upsertPrinterStates. rewrite updateSnapshot_eq.
  unfold upsertMutator at 1. cbn [mret M_ret]. unfold mret, M_ret.
  rewrite Hwr, Hw. eexists. split; [reflexivity|].
  set (states1 := upsertLoop _ _ _).
  assert (List.filter isValidNode (nodes (current w)) = nodes (current w)) as Hn1
    by (by apply List_filter_all).
  assert (List.filter (fun entry => isValidPrinter entry (idSet (nodes (current w))))
                      (printers (current w)) = printers (current w)) as Hp1
    by (by apply List_filter_all).
  rewrite commit_nodes, commit_printers. cbn [nodes printers]. rewrite Hn1, Hp1.
  split; [done|]. split; [done|].
  intros key. rewrite commit_stateOf, commit_printers. cbn [nodes printers].
  rewrite Hn1, Hp1. unfold stateOf at 1. cbn [states].
  assert ((if (0 <? length (map_to_list states1))%nat then Some states1 else None)
            ≫= (fun m => m !! key) = states1 !! key) as ->.
  { destruct (map_to_list states1) eqn:Hl; simpl; [|done].
    apply map_to_list_empty_iff in Hl. by rewrite Hl, lookup_empty. }
  unfold states1. rewrite upsertLoop_lookup.
  assert (default ∅ (states (current w)) !! key = stateOf (current w) key) as ->.
  { unfold stateOf. destruct (states (current w)); simpl; [done | by rewrite lookup_empty]. }
  assert (∀ v, stateOf (current w) key = Some v ->
               keepsState (printers (current w)) key v = true) as Hold by auto.
  unfold keepsState, assignable in *.
  destruct (entries !! key) as [v|].
  - destruct (bool_decide _ && isValidState v) eqn:Hok; simpl.
    + destruct (negb _ || _); simpl; [by rewrite Hok|].
      destruct (stateOf (current w) key) as [v0|]; simpl; [|done]. by rewrite Hold.
    + destruct (stateOf (current w) key) as [v0|]; simpl; [|done]. by rewrite Hold.
  - destruct (stateOf (current w) key) as [v0|]; simpl; [|done]. by rewrite Hold.
Qed.

Lemma isValidState_iff v :
  isValidState v = true ↔
  is_object v = true ∧
  (∃ label, prop v "label" = Some (JStr label) ∧ label ≠ "") ∧
  (∃ variant, prop v "variant" = Some (JStr variant)) ∧
  (prop v "progress" = Some JNull ∨ ∃ n, prop v "progress" = Some (JNum n)) ∧
  (prop v "error" = Some JNull ∨ ∃ e, prop v "error" = Some (JStr e)) ∧
  (prop v "updatedAt" = Some JNull ∨ ∃ n, prop v "updatedAt" = Some (JNum n)) ∧
  (prop v "message" = Some JNull ∨ ∃ m, prop v "message" = Some (JStr m)).
Proof.
  unfold isValidState. cbv zeta. rewrite !andb_true_iff.
  assert (∀ x, is_nonempty_string x = true ↔ ∃ s, x = Some (JStr s) ∧ s ≠ "") as Hne.
  { intros [[| | |[|c s]| |]|]; cbn; split; try done; naive_solver. }
  assert (∀ x, is_string x = true ↔ ∃ s, x = Some (JStr s)) as Hstr.
  { intros [[| | |s| |]|]; cbn; split; try done; naive_solver. }
  assert (∀ x, is_null_or_number x = true ↔ x = Some JNull ∨ ∃ n, x = Some (JNum n)) as Hnum.
  { intros [[| | | | |]|]; cbn; split; try done; naive_solver. }
  assert (∀ x, is_null_or_string x = true ↔ x = Some JNull ∨ ∃ s, x = Some (JStr s)) as Hns.
  { intros [[| | | | |]|]; cbn; split; try done; naive_solver. }
  rewrite Hne, Hstr, !Hnum, !Hns. tauto.
Qed.

(** ** getSnapshot *)

Lemma maybeSeedDefaults_eq s defaults w :
  maybeSeedDefaults s defaults w =
  match seedUrl s defaults with
  | None => (Ok s, w)
  | Some url =>
      if writable w
      then (Ok (seeded s defaults url w), written (seeded s defaults url w) (drew 2 w))
      else (Throw WriteFailure, failedWrite (drew 2 w))
  end.
Proof.
  unfold maybeSeedDefaults, seedUrl.
  destruct (_ && _); [reflexivity|].
  unfold mbind at 1, M_bind at 1, now at 1.
  destruct (defaults ≫= baseUrl) as [url|]; [|reflexivity].
  destruct (String.eqb url ""); [reflexivity|].
  unfold mbind, M_bind, createId, writeSnapshotToDisk, mret, M_ret. cbn.
  destruct (writable w) eqn:Hw; unfold drew, written; cbn; rewrite ?Hw; reflexivity.
Qed.

Lemma getSnapshotFromDisk_eq defaults w :
  getSnapshotFromDisk defaults w = fromStorage (current w) defaults (warned w).
Proof.
  unfold getSnapshotFromDisk, fromStorage.
  rewrite (bind_run _ _ _ _ _ (read_eq w)).
  unfold mbind at 1, M_bind at 1. rewrite maybeSeedDefaults_eq.
  destruct (seedUrl _ _); [|reflexivity]. by destruct (writable _).
Qed.

Lemma getSnapshot_eq defaults w :
  getSnapshot defaults w =
  match cache w with
  | Some c =>
      if (clock w <? expiresAt c)%float then (Ok (snapshot c), w)
      else fromStorage (current w) defaults (warned w)
  | None => fromStorage (current w) defaults (warned w)
  end.
Proof. unfold getSnapshot. by rewrite getSnapshotFromDisk_eq. Qed.





Lemma List_filter_none {A : Type} (f : A -> bool) (l : list A) :
  (∀ x, f x = false) -> List.filter f l = [].
Proof. intros H. induction l as [|a l IH]; simpl; [done|]. by rewrite H. Qed.

Lemma sanitize_no_printers doc t :
  printers (sanitizeSnapshot doc t) = [] -> states (sanitizeSnapshot doc t) = None.
Proof.
  unfold sanitizeSnapshot. cbn [printers states]. intros ->.
  rewrite List_filter_none; [done|].
  intros [key v]. apply andb_false_iff. left. apply bool_decide_eq_false.
  unfold idSet. simpl. apply not_elem_of_empty.
Qed.

Lemma current_no_printers w : printers (current w) = [] -> states (current w) = None.
Proof. unfold current. destruct (file w); [done..|]. apply sanitize_no_printers. Qed.

(** C10 (as amended). When the cache is absent or stale, the stored snapshot
    has no printer (whatever nodes it has), a non-empty [baseUrl] is given and
    the file can be written, [getSnapshot] returns, persists and caches a
    snapshot whose only node is the new "Nodo principal" and whose only
    printer is the default one under it: the stored nodes are gone. *)
Theorem getSnapshot_seeding_discards_nodes w defaults url :
  (∀ c, cache w = Some c -> (clock w <? expiresAt c)%float = false) ->
  printers (current w) = [] ->
  defaults ≫= baseUrl = Some url -> url ≠ "" ->
  writable w = true ->
  ∃ s w',
    getSnapshot defaults w = (Ok s, w') ∧
    nodes s = [mkNode (uuids w (drawn w)) "Nodo principal" (clock w)] ∧
    printers s = [mkPrinter (uuids w (S (drawn w))) (seedName defaults) url
                            (uuids w (drawn w)) (clock w)] ∧
    states s = None ∧
    file w' = Document (stored (to_json s)) ∧
    cache w' = Some {| snapshot := s; expiresAt := (clock w + CACHE_TTL_MS)%float |}.
Proof.
  intros Hstale Hnone Hurl Hne Hw.
  destruct (warned_same w) as (_ & Hwr & _ & Hclock & Huu & Hdr).
  assert (seedUrl (current w) defaults = Some url) as Hseed.
  { unfold seedUrl. rewrite Hnone, Hurl, andb_false_r.
    by rewrite (proj2 (String.eqb_neq _ _) Hne). }
  assert (getSnapshot defaults w = fromStorage (current w) defaults (warned w)) as ->.
  { rewrite getSnapshot_eq. destruct (cache w) as [c|] eqn:Hc; [|done].
    by rewrite (Hstale c). }
  unfold fromStorage. rewrite Hseed, Hwr, Hw.
  eexists _, _. split; [reflexivity|].
  unfold seeded. cbn. rewrite Huu, Hdr, Hclock.
  repeat split. by apply current_no_printers.
Qed.

(** C8. When the name or the base URL of the input is blank after trimming,
    [registerPrinter] throws the error that names the blank field (the name
    first when both are blank) and leaves the world, store file and cache
    included, exactly as it was. *)
Theorem registerPrinter_rejects_blank w input :
  trim (name input) = "" ∨ trim (inputBaseUrl input) = "" ->
  ∃ message,
    registerPrinter input w = (Throw (Error message), w) ∧
    ((trim (name input) = "" ∧ message = "El nombre de la impresora es obligatorio.") ∨
     (trim (inputBaseUrl input) = "" ∧ message = "La URL base es obligatoria.")).
Proof.
  intros Hblank. unfold registerPrinter.
  destruct (String.eqb (trim (name input)) "") eqn:Hn.
  - apply String.eqb_eq in Hn. eexists. split; [reflexivity|]. by left.
  - apply String.eqb_neq in Hn. destruct Hblank as [?|Hu]; [done|].
    rewrite Hu. eexists. split; [reflexivity|]. by right.
Qed.

(** ** Distinct ids *)

Lemma ids_app l1 l2 : ids (l1 ++ l2)%list = (ids l1 ++ ids l2)%list.
Proof. unfold ids. apply omap_app. Qed.

Lemma NoDup_ids_filter (f : JSON -> bool) l : NoDup (ids l) -> NoDup (ids (List.filter f l)).
Proof.
  unfold ids. induction l as [|a l IH]; simpl; [done|].
  destruct (field "id" a) as [id|] eqn:Hid.
  - intros [Hno Hnd]%NoDup_cons. destruct (f a); simpl; [|auto].
    rewrite Hid. apply NoDup_cons. split; [|auto].
    intros (x & [Hx _]%elem_of_List_filter & Hxid)%list_elem_of_omap.
    apply Hno, list_elem_of_omap. eauto.
  - intros Hnd. destruct (f a); simpl; [rewrite Hid|]; auto.
Qed.

Lemma NoDup_ids_snoc l x id :
  NoDup (ids l) -> field "id" x = Some id -> id ∉ ids l -> NoDup (ids (l ++ [x])%list).
Proof.
  intros Hnd Hx Hno. rewrite ids_app. unfold ids at 2. simpl. rewrite Hx.
  apply NoDup_app. split; [done|]. split; [|apply NoDup_singleton].
  intros y Hy Hin. apply list_elem_of_singleton in Hin as ->. done.
Qed.

Lemma updateSnapshot_Ok mutator w s w' :
  updateSnapshot mutator w = (Ok s, w') ->
  ∃ m w2, mutator (current w) (warned w) = (Ok m, w2) ∧ s = commit m (clock w2).
Proof.
  rewrite updateSnapshot_eq.
  destruct (mutator (current w) (warned w)) as [[m|e] w2]; [|done].
  destruct (writable w2); [|done]. intros [= <- _]. eauto.
Qed.

Lemma commit_distinct m t : distinct_ids m -> distinct_ids (commit m t).
Proof.
  intros [Hn Hp]. split.
  - rewrite commit_nodes. by apply NoDup_ids_filter.
  - rewrite commit_printers. by apply NoDup_ids_filter.
Qed.

Lemma registerMutator_Ok input name baseUrl cur w m w2 :
  registerMutator input name baseUrl cur w = (Ok m, w2) ->
  (nodes m = nodes cur ∨
   ∃ nodeName,
     nodes m = (nodes cur ++ [mkNode (uuids w (drawn w)) nodeName (clock w)])%list) ∧
  ∃ k nodeId, (drawn w ≤ k)%nat ∧
    printers m
    = (printers cur ++ [mkPrinter (uuids w k) name baseUrl nodeId (clock w)])%list.
Proof.
  unfold registerMutator.
  destruct (match nodeId input with Some _ => _ | None => _ end).
  - cbn. intros [= <- _]. split; [by left|]. exists (drawn w). eauto.
  - destruct (trim <$> nodeName input) as [nn|]; [|done].
    destruct (String.eqb nn ""); [done|].
    cbn. intros [= <- _]. split; [right; eauto|]. exists (S (drawn w)). eauto.
Qed.

(** C2 (as amended). The store keeps ids distinct but does not make them
    so: when the cached snapshot (if any) and the snapshot read from storage
    have pairwise distinct node ids and printer ids, and the identifiers still
    to be drawn are not in use in the stored snapshot, every snapshot an
    operation returns has pairwise distinct node ids and printer ids. *)
Theorem returned_ids_distinct w c s w' :
  (∀ cc, cache w = Some cc -> distinct_ids (snapshot cc)) ->
  distinct_ids (current w) ->
  fresh_ids w ->
  run c w = (Ok s, w') ->
  distinct_ids s.
Proof.
  intros Hcache [Hn Hp] Hfresh.
  destruct (warned_same w) as (_ & _ & _ & Hclock & Huu & Hdr).
  destruct c as [defaults|input|printerId|nodeId|entries]; cbn [run].
  - rewrite getSnapshot_eq.
    assert (∀ w2, fromStorage (current w) defaults w2 = (Ok s, w') -> distinct_ids s) as Hst.
    { intros w2. unfold fromStorage. destruct (seedUrl _ _) as [url|].
      - destruct (writable w2); [|done]. intros [= <- _].
        split; cbn; apply NoDup_singleton.
      - intros [= <- _]. done. }
    destruct (cache w) as [cc|] eqn:Hcc; [|apply Hst].
    destruct (clock w <? expiresAt cc)%float; [|apply Hst].
    intros [= <- _]. by apply Hcache.
  - unfold registerPrinter. destruct (String.eqb _ _); [done|].
    destruct (String.eqb _ _); [done|].
    intros (m & w2 & Hm & ->)%updateSnapshot_Ok. apply commit_distinct.
    apply registerMutator_Ok in Hm as [Hnodes (k & nid & Hk & Hprinters)].
    rewrite Huu, Hdr in *. split.
    + destruct Hnodes as [-> | [nn ->]]; [done|].
      eapply NoDup_ids_snoc; [done | reflexivity |]. by apply Hfresh.
    + rewrite Hprinters. eapply NoDup_ids_snoc; [done | reflexivity |]. by apply Hfresh.
  - unfold removePrinter. destruct (String.eqb _ _); [done|].
    intros (m & w2 & Hm & ->)%updateSnapshot_Ok. apply commit_distinct.
    unfold removePrinterMutator in Hm. destruct (_ =? _)%nat; [done|].
    injection Hm as <- _. split; [done|]. by apply NoDup_ids_filter.
  - unfold removeNode. destruct (String.eqb _ _); [done|].
    intros (m & w2 & Hm & ->)%updateSnapshot_Ok. apply commit_distinct.
    rewrite removeNodeMutator_eq in Hm. destruct (someHasId _ _); [|done].
    injection Hm as <- _. split; by apply NoDup_ids_filter.
  - unfold upsertPrinterStates.
    intros (m & w2 & Hm & ->)%updateSnapshot_Ok. apply commit_distinct.
    injection Hm as <- _. done.
Qed.

Ltac cache_step :=
  lazymatch goal with
  | |- hoare _ (mret _) _ _ => apply hoare_ret; intros; assumption
  | |- hoare _ (throw _) _ _ => apply hoare_throw; intros; assumption
  | |- hoare _ now _ _ => apply hoare_now
  | |- hoare _ createId _ _ => apply hoare_createId_cache
  | |- hoare _ (warn _) _ _ => apply hoare_warn_cache
  | |- hoare _ (_ ≫= _) _ _ => apply hoare_seq_cache; [| intros ?]
  | |- hoare _ (match _ with _ => _ end) _ _ => case_match
  end.
Lemma hoare_registerMutator input name baseUrl cur :
  hoare cache_consistent (registerMutator input name baseUrl cur)
        (fun _ => cache_consistent) cache_consistent.
Proof.
  unfold registerMutator. apply hoare_seq_cache.
  - repeat cache_step.
  - intros [nodes1 target]. repeat cache_step.
Qed.

Lemma hoare_removePrinterMutator printerId cur :
  hoare cache_consistent (removePrinterMutator printerId cur)
        (fun _ => cache_consistent) cache_consistent.
Proof. unfold removePrinterMutator. repeat cache_step. Qed.

Lemma hoare_removeNodeMutator nodeId cur :
  hoare cache_consistent (removeNodeMutator nodeId cur)
        (fun _ => cache_consistent) cache_consistent.
Proof. unfold removeNodeMutator. repeat cache_step. Qed.

Lemma hoare_upsertMutator entries cur :
  hoare cache_consistent (upsertMutator entries cur)
        (fun _ => cache_consistent) cache_consistent.
Proof. unfold upsertMutator. repeat cache_step. Qed.

Lemma hoare_run c :
  hoare cache_consistent (run c)
        (fun s w => consistent s ∧ cache_consistent w) cache_consistent.
Proof.
  destruct c as [defaults|input|printerId|nodeId|entries]; cbn [run].
  - apply hoare_getSnapshot.
  - unfold registerPrinter. cbv zeta.
    destruct (String.eqb (trim (name input)) ""); [apply hoare_throw; intros ? Hcache; exact Hcache|].
    destruct (String.eqb (trim (inputBaseUrl input)) ""); [apply hoare_throw; intros ? Hcache; exact Hcache|].
    apply hoare_updateSnapshot. intros cur. apply hoare_registerMutator.
  - unfold removePrinter. case_match; [apply hoare_throw; intros ? Hcache; exact Hcache|].
    apply hoare_updateSnapshot. intros cur. apply hoare_removePrinterMutator.
  - unfold removeNode. case_match; [apply hoare_throw; intros ? Hcache; exact Hcache|].
    apply hoare_updateSnapshot. intros cur. apply hoare_removeNodeMutator.
  - apply hoare_updateSnapshot. intros cur. apply hoare_upsertMutator.
Qed.

Lemma reachable_cache_consistent w : reachable w -> cache_consistent w.
Proof.
  induction 1 as [w Hnone|w c _ IH|w _ IH|w w' _ IH Hsame].
  - intros c Hc. congruence.
  - pose proof (hoare_run c w IH) as H.
    destruct (run c w) as [[s|e] w']; cbn; [apply H | exact H].
  - intros c Hc. discriminate.
  - intros c Hc. apply IH. congruence.
Qed.

End Store_facts.

(** C1. Every snapshot returned by [getSnapshot], [registerPrinter],
    [removePrinter], [removeNode] or [upsertPrinterStates], in any world the
    store can be in, has every printer's [nodeId] equal to the id of one of
    its nodes and every key of its states map equal to the id of one of its
    printers. *)
Theorem returned_snapshot_consistent :
  ∀ (w : Store.World) (c : Store_calls.Call) (s : Store.PrinterSnapshot) (w' : Store.World),
    Store_calls.reachable w ->
    Store_calls.run c w = (Store.Ok s, w') ->
    Store_calls.printers_resolve s ∧ Store_calls.states_resolve s.
Proof.
  intros w c s w' Hreach Hrun.
  pose proof (hoare_run c w (reachable_cache_consistent w Hreach)) as H.
  rewrite Hrun in H. apply H.
Qed.

Lemma returned_snapshot_consistent_witness :
  Store_calls.reachable (Samples.world (Store.Document Samples.workshop)) ∧
  ∃ s w',
    Store_calls.run (Store_calls.CallRegisterPrinter Samples.newPrinter)
                    (Samples.world (Store.Document Samples.workshop)) = (Store.Ok s, w') ∧
    Store_calls.ids (Store.nodes s) = ["n1"; "uuid-0"] ∧
    List.map (Store_calls.field "nodeId") (Store.printers s) = [Some "n1"; Some "uuid-0"] ∧
    Store_calls.ids (Store.printers s) = ["p1"; "uuid-1"] ∧
    Store_calls.stateOf s "p1" = Some (Samples.state "Standby" "idle" JNull) ∧
    Store_calls.printers_resolve s ∧ Store_calls.states_resolve s.
Proof.
  assert (Store_calls.reachable (Samples.world (Store.Document Samples.workshop))) as Hreach
    by (apply Store_calls.reach_load; reflexivity).
  split; [exact Hreach|].
  destruct (Store_calls.run (Store_calls.CallRegisterPrinter Samples.newPrinter)
              (Samples.world (Store.Document Samples.workshop))) as [[s|e] w'] eqn:Hrun;
    [|vm_compute in Hrun; discriminate Hrun].
  exists s, w'. split; [reflexivity|].
  pose proof Hrun as Hvalue. vm_compute in Hvalue. injection Hvalue as Hs _.
  split; [rewrite <- Hs; vm_compute; reflexivity|].
  split; [rewrite <- Hs; vm_compute; reflexivity|].
  split; [rewrite <- Hs; vm_compute; reflexivity|].
  split; [rewrite <- Hs; vm_compute; reflexivity|].
  exact (returned_snapshot_consistent _ _ s w' Hreach Hrun).
Defined.

(** C7 (as amended). [removeNode] with an empty id fails with the
    "identifier required" error and changes nothing; with a non-empty id that
    no stored node has it fails with the not-found error; otherwise (the file
    being writable) it returns the stored snapshot without the nodes of that
    id, without the printers whose [nodeId] is that id, and with the state of
    a key kept exactly when a remaining printer has that key as its id.
    Registering a printer under a new node name and then removing that node
    leaves no printer referencing it and no state of the registered printer;
    when the identifier of the new node was not the id of a stored node, no
    state is left of any printer that was under the node. *)
Theorem removeNode_cascade :
  (∀ (w : Store.World) (nodeId : string),
     (nodeId = "" ->
      Store.removeNode nodeId w =
      (Store.Throw (Store.Error "Se requiere el identificador del nodo."), w)) ∧
     (nodeId ≠ "" ->
      ¬ Store_calls.hasField "id" nodeId (Store.nodes (Store_calls.current w)) ->
      Store.removeNode nodeId w =
      (Store.Throw (Store.Error "El nodo indicado no existe."), Store_calls.warned w)) ∧
     (nodeId ≠ "" ->
      Store_calls.hasField "id" nodeId (Store.nodes (Store_calls.current w)) ->
      Store.writable w = true ->
      ∃ s, Store.removeNode nodeId w =
             (Store.Ok s, Store_calls.written s (Store_calls.warned w)) ∧
           Store.nodes s =
             List.filter (fun n => negb (Store.idIs "id" nodeId n))
                         (Store.nodes (Store_calls.current w)) ∧
           Store.printers s =
             List.filter (fun p => negb (Store.idIs "nodeId" nodeId p))
                         (Store.printers (Store_calls.current w)) ∧
           ¬ Store_calls.hasField "id" nodeId (Store.nodes s) ∧
           ¬ Store_calls.hasField "nodeId" nodeId (Store.printers s) ∧
           ∀ key, Store_calls.stateOf s key =
                  if Store.someHasId (Store.printers s) key
                  then Store_calls.stateOf (Store_calls.current w) key else None)) ∧
  (∀ (w : Store.World) (input : Store.RegisterInput) (rawName : string),
     trim (Store.name input) ≠ "" -> trim (Store.inputBaseUrl input) ≠ "" ->
     Store.nodeId input = None -> Store.nodeName input = Some rawName ->
     trim rawName ≠ "" ->
     Store.writable w = true -> isFinite (Store.clock w) = true ->
     Store.uuids w (Store.drawn w) ≠ "" -> Store.uuids w (S (Store.drawn w)) ≠ "" ->
     ∃ s1 w1 s2 w2,
       Store.registerPrinter input w = (Store.Ok s1, w1) ∧
       Store_calls.hasField "id" (Store.uuids w (Store.drawn w)) (Store.nodes s1) ∧
       Store_calls.hasField "nodeId" (Store.uuids w (Store.drawn w)) (Store.printers s1) ∧
       Store.removeNode (Store.uuids w (Store.drawn w)) w1 = (Store.Ok s2, w2) ∧
       ¬ Store_calls.hasField "id" (Store.uuids w (Store.drawn w)) (Store.nodes s2) ∧
       ¬ Store_calls.hasField "nodeId" (Store.uuids w (Store.drawn w)) (Store.printers s2) ∧
       (∀ key v, Store_calls.stateOf s2 key = Some v ->
                 Store_calls.hasField "id" key (Store.printers s2)) ∧
       Store_calls.stateOf s2 (Store.uuids w (S (Store.drawn w))) = None ∧
       ((Store.uuids w (Store.drawn w)
           ∉ Store_calls.ids (Store.nodes (Store_calls.current w))) ->
        ∀ p key, p ∈ Store.printers s1 ->
                 Store_calls.field "nodeId" p = Some (Store.uuids w (Store.drawn w)) ->
                 Store_calls.field "id" p = Some key ->
                 Store_calls.stateOf s2 key = None)).
Proof.
  split.
  - apply removeNode_spec.
  - intros w input rawName. apply register_then_removeNode.
Qed.

Lemma removeNode_cascade_witness :
  (∃ s, (Store.removeNode "n1" (Samples.world (Store.Document Samples.workshop))).1
        = Store.Ok s ∧
        Store.nodes s = [] ∧ Store.printers s = [] ∧
        Store_calls.stateOf s "p1" = None) ∧
  (∃ s1 w1 s2 w2,
     Store.registerPrinter Samples.newPrinter
       (Samples.world (Store.Document Samples.workshop)) = (Store.Ok s1, w1) ∧
     Store_calls.hasField "nodeId" "uuid-0" (Store.printers s1) ∧
     Store.removeNode "uuid-0" w1 = (Store.Ok s2, w2) ∧
     ¬ Store_calls.hasField "nodeId" "uuid-0" (Store.printers s2) ∧
     Store_calls.stateOf s2 "uuid-1" = None).
Proof.
  split.
  - destruct (proj1 removeNode_cascade (Samples.world (Store.Document Samples.workshop)) "n1")
      as (_ & _ & H).
    destruct H as (s & Hrun & Hnodes & Hprinters & _ & _ & Hstates).
    + discriminate.
    + exists (Store.mkNode "n1" "Taller" 1%float). split; [left | reflexivity].
    + reflexivity.
    + exists s. rewrite Hrun. split; [reflexivity|].
      split; [rewrite Hnodes; reflexivity|].
      split; [rewrite Hprinters; reflexivity|].
      rewrite Hstates, Hprinters. reflexivity.
  - destruct (proj2 removeNode_cascade (Samples.world (Store.Document Samples.workshop))
                Samples.newPrinter "Garaje")
      as (s1 & w1 & s2 & w2 & Hreg & _ & Hp1 & Hrem & _ & Hp2 & _ & Hnone & _);
      try discriminate; try reflexivity.
    exists s1, w1, s2, w2. auto.
Defined.

(** C7, as stated, fails twice.  With the empty id no node matches, yet the
    failure is the "identifier required" error, not the not-found one.  And
    when two stored printers share an id, removing the node of one of them
    removes that printer but keeps the state entry keyed by its id. *)
Lemma removeNode_counterexample :
  (¬ Store_calls.hasField "id" ""
       (Store.nodes (Store_calls.current (Samples.world (Store.Document Samples.workshop)))) ∧
   (Store.removeNode "" (Samples.world (Store.Document Samples.workshop))).1
   = Store.Throw (Store.Error "Se requiere el identificador del nodo.")) ∧
  (∃ p s,
     p ∈ Store.printers (Store_calls.current (Samples.world (Store.Document Samples.twins))) ∧
     Store_calls.field "nodeId" p = Some "n1" ∧
     Store_calls.field "id" p = Some "p1" ∧
     (Store.removeNode "n1" (Samples.world (Store.Document Samples.twins))).1 = Store.Ok s ∧
     (p ∉ Store.printers s) ∧
     is_Some (Store_calls.stateOf s "p1")).
Proof.
  split.
  - split; [|reflexivity].
    intros (n & Hin & Hid).
    change (n ∈ [Store.mkNode "n1" "Taller" 1%float]) in Hin.
    apply list_elem_of_singleton in Hin as ->. discriminate.
  - exists (Store.mkPrinter "p1" "Voron" "http://10.0.0.5" "n1" 2%float).
    eexists. split; [left|]. split; [reflexivity|]. split; [reflexivity|].
    split; [vm_compute; reflexivity|]. split.
    + intros Hin. apply list_elem_of_singleton in Hin. discriminate.
    + vm_compute. eauto.
Qed.

(** C3 (as amended). With a writable store file, [upsertPrinterStates]
    returns the stored nodes and printers unchanged, and the state under each
    key is the input entry for that key when the key is the id of a stored
    printer and the entry passes [isValidState], and the previous state
    otherwise.  [isValidState] checks types only: an object whose label is a
    non-empty string, whose variant is a string, whose progress and updatedAt
    are numbers or null, whose error and message are strings or null.  The
    key [__proto__], which an assignment does not store, is left aside. *)
Theorem upsertPrinterStates_merges :
  (∀ (w : Store.World) (entries : gmap string JSON),
     Store.writable w = true ->
     ∃ s, Store.upsertPrinterStates entries w =
            (Store.Ok s, Store_calls.written s (Store_calls.warned w)) ∧
          Store.nodes s = Store.nodes (Store_calls.current w) ∧
          Store.printers s = Store.printers (Store_calls.current w) ∧
          ∀ key, key ≠ "__proto__" ->
                 Store_calls.stateOf s key =
                 match entries !! key with
                 | Some v =>
                     if bool_decide
                          (key ∈ Store.idSet (Store.printers (Store_calls.current w))) &&
                        Store.isValidState v
                     then Some v else Store_calls.stateOf (Store_calls.current w) key
                 | None => Store_calls.stateOf (Store_calls.current w) key
                 end) ∧
  (∀ v, Store.isValidState v = true ↔
        is_object v = true ∧
        (∃ label, prop v "label" = Some (JStr label) ∧ label ≠ "") ∧
        (∃ variant, prop v "variant" = Some (JStr variant)) ∧
        (prop v "progress" = Some JNull ∨ ∃ n, prop v "progress" = Some (JNum n)) ∧
        (prop v "error" = Some JNull ∨ ∃ e, prop v "error" = Some (JStr e)) ∧
        (prop v "updatedAt" = Some JNull ∨ ∃ n, prop v "updatedAt" = Some (JNum n)) ∧
        (prop v "message" = Some JNull ∨ ∃ m, prop v "message" = Some (JStr m))).
Proof.
  split.
  - intros w entries Hw.
    destruct (upsert_spec w entries Hw) as (s & Hrun & Hnodes & Hprinters & Hstates).
    exists s. split; [exact Hrun|]. split; [exact Hnodes|]. split; [exact Hprinters|].
    intros key Hkey. rewrite Hstates. unfold Store_calls.assignable.
    rewrite (proj2 (String.eqb_neq _ _) Hkey). cbn [negb orb].
    destruct (entries !! key) as [v|]; [|reflexivity]. by rewrite andb_true_r.
  - apply isValidState_iff.
Qed.

Lemma upsertPrinterStates_merges_witness :
  ∃ s, (Store.upsertPrinterStates
          {[ "p1" := Samples.state "Imprimiendo" "printing" (JNum 42%float);
             "ghost" := Samples.state "Standby" "idle" JNull ]}
          (Samples.world (Store.Document Samples.workshop))).1 = Store.Ok s ∧
       Store_calls.stateOf s "p1"
       = Some (Samples.state "Imprimiendo" "printing" (JNum 42%float)) ∧
       Store_calls.stateOf s "ghost" = None.
Proof.
  destruct (proj1 upsertPrinterStates_merges
              (Samples.world (Store.Document Samples.workshop))
              {[ "p1" := Samples.state "Imprimiendo" "printing" (JNum 42%float);
                 "ghost" := Samples.state "Standby" "idle" JNull ]} eq_refl)
    as (s & Hrun & _ & _ & Hstates).
  exists s. rewrite Hrun. split; [reflexivity|].
  rewrite (Hstates "p1"), (Hstates "ghost") by discriminate.
  split; vm_compute; reflexivity.
Defined.

(** C3, as stated, fails: an entry for a stored printer whose variant is not
    one of the six names and whose progress is 500 fails the validation of the
    data model, and is stored all the same. *)
Lemma upsertPrinterStates_counterexample :
  Store_calls.specValidState Samples.melting = false ∧
  Store_calls.stateOf (Store_calls.current (Samples.world (Store.Document Samples.workshop)))
                      "p1"
  = Some (Samples.state "Standby" "idle" JNull) ∧
  ∃ s, (Store.upsertPrinterStates {[ "p1" := Samples.melting ]}
          (Samples.world (Store.Document Samples.workshop))).1 = Store.Ok s ∧
       Store_calls.stateOf s "p1" = Some Samples.melting.
Proof.
  split; [vm_compute; reflexivity|]. split; [vm_compute; reflexivity|].
  eexists. split; vm_compute; reflexivity.
Qed.



Lemma registerPrinter_rejects_blank_witness :
  ∃ message,
    Store.registerPrinter
      {| Store.name := Samples.nbsp; Store.inputBaseUrl := "http://x";
         Store.nodeId := Some "n1"; Store.nodeName := None |}
      (Samples.world (Store.Document Samples.workshop))
    = (Store.Throw (Store.Error message), Samples.world (Store.Document Samples.workshop)) ∧
    message = "El nombre de la impresora es obligatorio.".
Proof.
  destruct (registerPrinter_rejects_blank
              (Samples.world (Store.Document Samples.workshop))
              {| Store.name := Samples.nbsp; Store.inputBaseUrl := "http://x";
                 Store.nodeId := Some "n1"; Store.nodeName := None |})
    as (message & Hrun & [[_ Hm] | [Hu _]]).
  - left. reflexivity.
  - exists message. split; [exact Hrun | exact Hm].
  - discriminate Hu.
Defined.






Lemma getSnapshot_seeding_discards_nodes_witness :
  Store.nodes (Store_calls.current (Samples.world (Store.Document Samples.emptyWorkshop)))
  = [Store.mkNode "n1" "Taller" 1%float] ∧
  ∃ s w',
    Store.getSnapshot Samples.voron (Samples.world (Store.Document Samples.emptyWorkshop))
    = (Store.Ok s, w') ∧
    Store.nodes s = [Store.mkNode "uuid-0" "Nodo principal" 1000%float] ∧
    Store.printers s
    = [Store.mkPrinter "uuid-1" "Voron" "http://10.0.0.5" "uuid-0" 1000%float].
Proof.
  split; [reflexivity|].
  destruct (getSnapshot_seeding_discards_nodes
              (Samples.world (Store.Document Samples.emptyWorkshop)) Samples.voron
              "http://10.0.0.5")
    as (s & w' & Hrun & Hnodes & Hprinters & _); try reflexivity; try discriminate.
  exists s, w'. rewrite Hnodes, Hprinters. split; [exact Hrun|]. split; reflexivity.
Defined.



(** C10, as stated, fails: while the cached snapshot is fresh [getSnapshot]
    returns it and seeds nothing; after [removePrinter] left a node without
    printers, a call with a [baseUrl] returns that node and no printer. *)
Lemma getSnapshot_seeding_counterexample :
  ∃ s0 w1,
    Store.removePrinter "p1" (Samples.world (Store.Document Samples.workshop))
    = (Store.Ok s0, w1) ∧
    Store_calls.ids (Store.nodes (Store_calls.current w1)) = ["n1"] ∧
    Store.printers (Store_calls.current w1) = [] ∧
    ∃ s, Store.getSnapshot Samples.voron w1 = (Store.Ok s, w1) ∧
         Store_calls.ids (Store.nodes s) = ["n1"] ∧
         Store.printers s = [] ∧
         Store.drawn w1 = 0.
Proof.
  eexists _, _. split; [vm_compute; reflexivity|].
  split; [vm_compute; reflexivity|]. split; [vm_compute; reflexivity|].
  eexists. split; [vm_compute; reflexivity|].
  split; [vm_compute; reflexivity|]. split; reflexivity.
Qed.

Lemma returned_ids_distinct_witness :
  ∃ s w',
    Store_calls.run (Store_calls.CallRegisterPrinter Samples.newPrinter)
                    (Samples.world (Store.Document Samples.workshop)) = (Store.Ok s, w') ∧
    Store_calls.ids (Store.nodes s) = ["n1"; "uuid-0"] ∧
    Store_calls.ids (Store.printers s) = ["p1"; "uuid-1"] ∧
    NoDup (Store_calls.ids (Store.nodes s)) ∧ NoDup (Store_calls.ids (Store.printers s)).
Proof.
  eexists _, _. split; [vm_compute; reflexivity|].
  split; [reflexivity|]. split; [reflexivity|].
  eapply (returned_ids_distinct (Samples.world (Store.Document Samples.workshop))
            (Store_calls.CallRegisterPrinter Samples.newPrinter)).
  - intros cc Hcc. discriminate Hcc.
  - split; apply NoDup_singleton.
  - intros n _. split; intros Hin; apply list_elem_of_singleton in Hin; discriminate Hin.
  - vm_compute. reflexivity.
Defined.

(** C2, as stated, fails: two stored nodes with the same id are both
    returned. *)
Lemma returned_ids_counterexample :
  Store_calls.reachable (Samples.world (Store.Document Samples.clones)) ∧
  ∃ s, (Store_calls.run (Store_calls.CallGetSnapshot None)
          (Samples.world (Store.Document Samples.clones))).1 = Store.Ok s ∧
       Store_calls.ids (Store.nodes s) = ["n1"; "n1"] ∧
       ¬ NoDup (Store_calls.ids (Store.nodes s)).
Proof.
  split; [apply Store_calls.reach_load; reflexivity|].
  eexists. split; [vm_compute; reflexivity|]. split; [reflexivity|].
  intros Hnd. apply NoDup_cons in Hnd as [Hno _]. apply Hno. left.
Qed.

(** ** Binary64 comparisons *)

Section Floats.
Import Binary64.
Local Open Scope float_scope.

Lemma Prim2SF_nan x : Prim2SF x = S754_nan -> PrimFloat.is_nan x = true.
Proof.
  intros H. unfold PrimFloat.is_nan. rewrite FloatAxioms.eqb_spec, H. reflexivity.
Qed.

Lemma SFcompare_refl s : s ≠ S754_nan -> SFcompare s s = Some Eq.
Proof.
  destruct s as [[]|[]| |[] m e]; try done; intros _; cbn;
    rewrite Z.compare_refl, Pos.compare_cont_refl; reflexivity.
Qed.

Lemma eqb_refl x : PrimFloat.is_nan x = false -> (x =? x) = true.
Proof. unfold PrimFloat.is_nan. by intros ->%negb_false_iff. Qed.

Lemma ltb_leb x y : (x <? y) = true -> (x <=? y) = true.
Proof.
  rewrite FloatAxioms.ltb_spec, FloatAxioms.leb_spec. unfold SFltb, SFleb.
  by destruct (SFcompare _ _) as [[]|].
Qed.

Lemma Prim2SF_100 : Prim2SF 100 = SF100.
Proof. vm_compute. reflexivity. Qed.

Lemma Prim2SF_0 : Prim2SF 0 = SF0.
Proof. vm_compute. reflexivity. Qed.

Lemma above_100_not_negative x : (100 <? x) = true -> (x <? 0) = false.
Proof.
  rewrite !FloatAxioms.ltb_spec, Prim2SF_100, Prim2SF_0.
  destruct (Prim2SF x) as [[]|[]| |[] m e]; done.
Qed.

Lemma neither_side_of_0 x :
  PrimFloat.is_nan x = false -> (x <? 0) = false -> (0 <? x) = false -> (0 =? x) = true.
Proof.
  intros Hnan. rewrite !FloatAxioms.ltb_spec, FloatAxioms.eqb_spec, Prim2SF_0.
  destruct (Prim2SF x) as [[]|[]| |[] m e] eqn:Hx; try done.
  by rewrite (Prim2SF_nan x Hx) in Hnan.
Qed.

Lemma SFltb_false_SFleb m0 e0 m e :
  SFltb (S754_finite false m0 e0) (S754_finite false m e) = false ->
  SFleb (S754_finite false m e) (S754_finite false m0 e0) = true.
Proof.
  unfold SFltb, SFleb, SFcompare.
  rewrite (Z.compare_antisym e0 e).
  change (Pos.compare_cont Eq m m0) with (Pos.compare m m0).
  change (Pos.compare_cont Eq m0 m) with (Pos.compare m0 m).
  rewrite (Pos.compare_antisym m0 m).
  destruct (e0 ?= e)%Z; simpl; try reflexivity; try discriminate.
  destruct (m0 ?= m)%positive; simpl; try reflexivity; discriminate.
Qed.

Lemma not_above_100 x :
  PrimFloat.is_nan x = false -> (100 <? x) = false -> (x <=? 100) = true.
Proof.
  intros Hnan. rewrite FloatAxioms.ltb_spec, FloatAxioms.leb_spec, Prim2SF_100.
  destruct (Prim2SF x) as [s|s| |s m e] eqn:Hx.
  - reflexivity.
  - by destruct s.
  - by rewrite (Prim2SF_nan x Hx) in Hnan.
  - destruct s; [reflexivity|]. apply SFltb_false_SFleb.
Qed.

(** Rounding a non-negative mantissa never produces NaN. *)

Lemma shr_1_nonneg mrs : (0 <= shr_m mrs)%Z -> (0 <= shr_m (shr_1 mrs))%Z.
Proof. destruct mrs as [[|[p|p|]|[p|p|]] r s]; cbn; lia. Qed.

Lemma iter_shr_1_nonneg p mrs :
  (0 <= shr_m mrs)%Z -> (0 <= shr_m (SpecFloat.iter_pos shr_1 p mrs))%Z.
Proof.
  revert mrs. induction p as [p IH|p IH|]; intros mrs H; cbn.
  - apply IH, IH, shr_1_nonneg, H.
  - apply IH, IH, H.
  - apply shr_1_nonneg, H.
Qed.

Lemma shr_fexp_nonneg prec emax m e l :
  (0 <= m)%Z -> (0 <= shr_m (shr_fexp prec emax m e l).1)%Z.
Proof.
  intros Hm. unfold shr_fexp, shr.
  assert (0 <= shr_m (shr_record_of_loc m l))%Z as H by (by destruct l as [|[]]).
  destruct (_ - e)%Z; cbn; [done | by apply iter_shr_1_nonneg | done].
Qed.

Lemma round_nearest_even_nonneg m l : (0 <= m)%Z -> (0 <= round_nearest_even m l)%Z.
Proof. intros Hm. destruct l as [|[]]; cbn; [done| |done|lia]. destruct (Z.even m); lia. Qed.

Lemma binary_round_aux_not_nan prec emax s m e l :
  (0 <= m)%Z -> binary_round_aux prec emax s m e l ≠ S754_nan.
Proof.
  intros Hm. unfold binary_round_aux.
  pose proof (shr_fexp_nonneg prec emax m e l Hm) as H1.
  destruct (shr_fexp prec emax m e l) as [mrs' e'].
  pose proof (shr_fexp_nonneg prec emax _ e' loc_Exact
                (round_nearest_even_nonneg _ (loc_of_shr_record mrs') H1)) as H2.
  destruct (shr_fexp prec emax _ e' loc_Exact) as [mrs'' e''].
  cbn in H2. destruct (shr_m mrs''); [done| |lia].
  by destruct (_ <=? _)%Z.
Qed.

Lemma is_nan_Prim2SF x : PrimFloat.is_nan x = true -> Prim2SF x = S754_nan.
Proof. intros H. unfold Prim2SF. by rewrite H. Qed.

Lemma finite_cases v :
  PrimFloat.is_finite v = true ->
  (∃ s, Prim2SF v = S754_zero s) ∨ (∃ s m e, Prim2SF v = S754_finite s m e).
Proof.
  unfold PrimFloat.is_finite, PrimFloat.is_infinity.
  intros [Hnan Hinf]%negb_true_iff%orb_false_iff.
  rewrite FloatAxioms.eqb_spec, FloatAxioms.abs_spec in Hinf.
  destruct (Prim2SF v) as [s|s| |s m e] eqn:Hv; eauto.
  - by destruct s.
  - by rewrite (Prim2SF_nan v Hv) in Hnan.
Qed.

Lemma finite_not_nan v : PrimFloat.is_finite v = true -> PrimFloat.is_nan v = false.
Proof. unfold PrimFloat.is_finite. by intros [? _]%negb_true_iff%orb_false_iff. Qed.

Lemma mul_finite_not_nan v c :
  PrimFloat.is_finite v = true -> PrimFloat.is_finite c = true ->
  PrimFloat.is_nan (v * c) = false.
Proof.
  intros Hv Hc. destruct (PrimFloat.is_nan (v * c)) eqn:Hnan; [|done].
  apply is_nan_Prim2SF in Hnan. rewrite FloatAxioms.mul_spec in Hnan.
  destruct (finite_cases v Hv) as [[s Hsv] | (s & m & e & Hsv)];
    destruct (finite_cases c Hc) as [[s' Hsc] | (s' & m' & e' & Hsc)];
    rewrite Hsv, Hsc in Hnan; try discriminate Hnan.
  by apply binary_round_aux_not_nan in Hnan.
Qed.

(** [Math.max(0, Math.min(100, x))]. *)

Lemma Math_min_100 x :
  PrimFloat.is_nan x = false -> Math_min 100 x = if 100 <? x then 100 else x.
Proof.
  intros Hnan. unfold Math_min. rewrite Hnan.
  change (PrimFloat.is_nan 100) with false. change (PrimFloat.is_zero 100) with false.
  cbn. destruct (100 <? x); [done|]. by destruct (x <? 100).
Qed.

Lemma Math_max_0 x :
  PrimFloat.is_nan x = false ->
  Math_max 0 x = if x <? 0 then 0 else if 0 <? x then x else 0.
Proof.
  intros Hnan. unfold Math_max. rewrite Hnan.
  change (PrimFloat.is_nan 0) with false.
  change (PrimFloat.is_zero 0 && negb (PrimFloat.get_sign 0)) with true.
  reflexivity.
Qed.

Lemma clamped_spec x :
  PrimFloat.is_nan x = false ->
  (Math_max 0 (Math_min 100 x) =? Dashboard.clamp x) = true ∧
  (0 <=? Math_max 0 (Math_min 100 x)) = true ∧
  (Math_max 0 (Math_min 100 x) <=? 100) = true.
Proof.
  intros Hnan. rewrite Math_min_100 by done. unfold Dashboard.clamp.
  destruct (100 <? x) eqn:Habove.
  - rewrite (above_100_not_negative x Habove). by vm_compute.
  - rewrite Math_max_0 by done.
    destruct (x <? 0) eqn:Hneg; [by vm_compute|].
    destruct (0 <? x) eqn:Hpos.
    + split; [by apply eqb_refl|]. split; [by apply ltb_leb | by apply not_above_100].
    + split; [by apply neither_side_of_0 | by vm_compute].
Qed.

Lemma normalized_not_nan v :
  PrimFloat.is_finite v = true ->
  PrimFloat.is_nan (if v <=? 1 then v * 100 else v) = false.
Proof.
  intros Hv. destruct (v <=? 1); [|by apply finite_not_nan].
  by apply mul_finite_not_nan.
Qed.

Lemma progress_of_finite (Number : string -> float) v :
  isFinite v = true ->
  ∃ r, Proxy.buildProgress Number (Some (JNum v)) = Some r ∧
       Dashboard.resolveProgress (Some v) = Some r ∧
       (r =? Dashboard.normalizeProgress v) = true ∧
       (0 <=? r) = true ∧ (r <=? 100) = true.
Proof.
  intros Hv. unfold isFinite in Hv.
  exists (Math_max 0 (Math_min 100 (if v <=? 1 then v * 100 else v))).
  split; [|split].
  - unfold Proxy.buildProgress, Proxy.buildNumber, isFinite. by rewrite Hv.
  - unfold Dashboard.resolveProgress, isNaN. by rewrite (finite_not_nan v Hv).
  - apply clamped_spec, normalized_not_nan, Hv.
Qed.
End Floats.

(** C6 (as amended). For every finite number both progress normalisations
    return the same value: the number times 100 when it is at most 1, the
    number itself otherwise, clamped into the interval from 0 to 100 (0.42
    gives 42, 57 gives 57, 142 gives 100, -5 gives 0).  [null] and a missing
    value give [null] in both; a number that is not finite gives [null] in
    the proxy's [buildProgress]; the page's [resolveProgress] gives [null]
    for NaN only and clamps an infinity, to 100 or to 0. *)
Theorem progress_normalisation :
  ∀ Number : string -> float,
    (∀ v, isFinite v = true ->
       ∃ r, Proxy.buildProgress Number (Some (JNum v)) = Some r ∧
            Dashboard.resolveProgress (Some v) = Some r ∧
            (r =? Dashboard.normalizeProgress v)%float = true ∧
            (0 <=? r)%float = true ∧ (r <=? 100)%float = true) ∧
    (Proxy.buildProgress Number (Some (JNum 0x1.ae147ae147ae1p-2%float)) = Some 42%float ∧
     Proxy.buildProgress Number (Some (JNum 57%float)) = Some 57%float ∧
     Proxy.buildProgress Number (Some (JNum 142%float)) = Some 100%float ∧
     Proxy.buildProgress Number (Some (JNum (-5)%float)) = Some 0%float) ∧
    (Dashboard.resolveProgress (Some 0x1.ae147ae147ae1p-2%float) = Some 42%float ∧
     Dashboard.resolveProgress (Some 57%float) = Some 57%float ∧
     Dashboard.resolveProgress (Some 142%float) = Some 100%float ∧
     Dashboard.resolveProgress (Some (-5)%float) = Some 0%float) ∧
    (Proxy.buildProgress Number None = None ∧
     Proxy.buildProgress Number (Some JNull) = None ∧
     ∀ v, isFinite v = false -> Proxy.buildProgress Number (Some (JNum v)) = None) ∧
    (Dashboard.resolveProgress None = None ∧
     ∀ v, isNaN v = true -> Dashboard.resolveProgress (Some v) = None) ∧
    (Dashboard.resolveProgress (Some PrimFloat.infinity) = Some 100%float ∧
     Dashboard.resolveProgress (Some PrimFloat.neg_infinity) = Some 0%float).
Proof.
  intros Number. split; [intros v; apply progress_of_finite|].
  split; [repeat split; vm_compute; reflexivity|].
  split; [repeat split; vm_compute; reflexivity|].
  split.
  { split; [reflexivity|]. split; [reflexivity|].
    intros v Hv. unfold Proxy.buildProgress, Proxy.buildNumber. by rewrite Hv. }
  split.
  { split; [reflexivity|]. intros v Hv. unfold Dashboard.resolveProgress. by rewrite Hv. }
  split; vm_compute; reflexivity.
Qed.

Lemma progress_normalisation_witness :
  ∃ r, Dashboard.resolveProgress (Some 0x1.23d70a3d70a3dp-1%float) = Some r ∧
       (0 <=? r)%float = true ∧ (r <=? 100)%float = true.
Proof.
  destruct (proj1 (progress_normalisation (fun _ => PrimFloat.nan))
              0x1.23d70a3d70a3dp-1%float eq_refl)
    as (r & _ & Hr & _ & Hlo & Hhi).
  exists r. auto.
Defined.

(** C6, as stated, fails for [resolveProgress]: positive infinity is not
    finite, and the result is 100, not [null]. *)
Lemma progress_counterexample :
  isFinite PrimFloat.infinity = false ∧
  Dashboard.resolveProgress (Some PrimFloat.infinity) = Some 100%float.
Proof. split; vm_compute; reflexivity. Qed.

(** ** Substrings, case ignored *)

Section Strings.
Import Dashboard.

Lemma toLowerCase_app a b : toLowerCase (a ++ b) = toLowerCase a ++ toLowerCase b.
Proof. induction a as [|c a IH]; simpl; [done | by rewrite IH]. Qed.

Lemma toLowerCase_split s a b :
  toLowerCase s = a ++ b ->
  ∃ s1 s2, s = s1 ++ s2 ∧ toLowerCase s1 = a ∧ toLowerCase s2 = b.
Proof.
  revert s. induction a as [|c a IH]; intros s H.
  - exists "", s. auto.
  - destruct s as [|c' s]; [done|]. simpl in H. injection H as Hc Hrest.
    destruct (IH s Hrest) as (s1 & s2 & -> & H1 & H2).
    exists (String c' s1), s2. simpl. by rewrite Hc, H1.
Qed.

Lemma prefix_iff needle hay :
  String.prefix needle hay = true ↔ ∃ after, hay = needle ++ after.
Proof.
  revert hay. induction needle as [|c needle IH]; intros hay.
  - split; [intros _; by exists hay | intros _; by destruct hay].
  - destruct hay as [|c' hay]; simpl.
    + split; [discriminate|]. intros [after H]. discriminate H.
    + destruct (Ascii.ascii_dec c c') as [->|Hne].
      * rewrite IH. split; intros [after H]; exists after.
        -- by rewrite H.
        -- by injection H.
      * split; [discriminate|]. intros [after H]. by injection H.
Qed.

Lemma includes_iff hay needle :
  includes hay needle = true ↔ ∃ before after, hay = before ++ needle ++ after.
Proof.
  induction hay as [|c hay IH]; cbn [includes]; rewrite orb_true_iff, prefix_iff.
  - split.
    + intros [[after H] | ?]; [|done]. by exists "", after.
    + intros (before & after & H). left.
      destruct before; [by exists after|done].
  - rewrite IH. split.
    + intros [[after H] | (before & after & H)].
      * by exists "", after.
      * exists (String c before), after. simpl. by rewrite H.
    + intros (before & after & H). destruct before as [|c' before].
      * left. by exists after.
      * right. injection H as _ H. eauto.
Qed.

Lemma includes_lower needle hay :
  toLowerCase needle = needle ->
  includes (toLowerCase hay) needle = true ↔ containsIgnoringCase needle hay.
Proof.
  intros Hlow. rewrite includes_iff. unfold containsIgnoringCase. rewrite Hlow. split.
  - intros (before & after & H).
    apply toLowerCase_split in H as (s1 & s' & -> & _ & H).
    apply toLowerCase_split in H as (middle & s2 & -> & H & _). eauto.
  - intros (before & middle & after & -> & H).
    exists (toLowerCase before), (toLowerCase after).
    by rewrite !toLowerCase_app, H.
Qed.

Lemma existsb_includes_mentions words raw :
  lowercase words ->
  existsb (includes (toLowerCase raw)) words = true ↔ mentions words raw.
Proof.
  intros Hlow. rewrite existsb_elem_of. unfold mentions. split.
  - intros (word & Hin & H). exists word. split; [done|].
    apply includes_lower; [|done]. by eapply (proj1 (Forall_forall _ _) Hlow).
  - intros (word & Hin & H). exists word. split; [done|].
    apply includes_lower; [|done]. by eapply (proj1 (Forall_forall _ _) Hlow).
Qed.

Lemma resolveStateDisplay_cases raw :
  raw ≠ "" ->
  resolveStateDisplay (Some raw) =
  if existsb (includes (toLowerCase raw)) ["print"]
  then {| label := "Imprimiendo"; variant := printing |}
  else if existsb (includes (toLowerCase raw)) ["complete"; "done"; "finish"]
  then {| label := "Completado"; variant := complete |}
  else if existsb (includes (toLowerCase raw)) ["pause"]
  then {| label := "Pausado"; variant := paused |}
  else if existsb (includes (toLowerCase raw)) ["standby"; "idle"; "ready"]
  then {| label := "Standby"; variant := idle |}
  else if existsb (includes (toLowerCase raw)) ["error"; "fault"; "halt"]
  then {| label := "Error"; variant := error |}
  else {| label := raw; variant := unknown |}.
Proof.
  intros Hne. unfold resolveStateDisplay.
  rewrite (proj2 (String.eqb_neq _ _) Hne). cbn [existsb].
  by rewrite !orb_false_r, !orb_assoc.
Qed.

Lemma no_mention_in_empty words :
  lowercase words -> Forall (fun word => word ≠ "") words -> ¬ mentions words "".
Proof.
  intros Hlow Hno (word & Hin & before & middle & after & H & Hmid).
  destruct before; [|done]. destruct middle; [|done].
  assert (toLowerCase word = word) as Hw by (by eapply (proj1 (Forall_forall _ _) Hlow)).
  rewrite Hw in Hmid. simpl in Hmid.
  by eapply (proj1 (Forall_forall _ _) Hno).
Qed.

Ltac settle_rule Hhit :=
  match type of Hhit with
  | true = true ↔ ?P =>
      let Hyes := fresh "Hyes" in
      assert (Hyes : P) by (by apply Hhit);
      repeat split; intros; (reflexivity || contradiction)
  | false = true ↔ ?P =>
      let Hnot := fresh "Hnot" in
      assert (Hnot : ¬ P) by (intros Hyes; apply Hhit in Hyes; discriminate Hyes)
  end.

Lemma resolveStateDisplay_spec raw :
  let d := resolveStateDisplay (Some raw) in
  (mentions ["print"] raw -> d = {| label := "Imprimiendo"; variant := printing |}) ∧
  (¬ mentions ["print"] raw ->
   mentions ["complete"; "done"; "finish"] raw ->
   d = {| label := "Completado"; variant := complete |}) ∧
  (¬ mentions ["print"] raw ->
   ¬ mentions ["complete"; "done"; "finish"] raw ->
   mentions ["pause"] raw ->
   d = {| label := "Pausado"; variant := paused |}) ∧
  (¬ mentions ["print"] raw ->
   ¬ mentions ["complete"; "done"; "finish"] raw ->
   ¬ mentions ["pause"] raw ->
   mentions ["standby"; "idle"; "ready"] raw ->
   d = {| label := "Standby"; variant := idle |}) ∧
  (¬ mentions ["print"] raw ->
   ¬ mentions ["complete"; "done"; "finish"] raw ->
   ¬ mentions ["pause"] raw ->
   ¬ mentions ["standby"; "idle"; "ready"] raw ->
   mentions ["error"; "fault"; "halt"] raw ->
   d = {| label := "Error"; variant := error |}) ∧
  (¬ mentions ["print"] raw ->
   ¬ mentions ["complete"; "done"; "finish"] raw ->
   ¬ mentions ["pause"] raw ->
   ¬ mentions ["standby"; "idle"; "ready"] raw ->
   ¬ mentions ["error"; "fault"; "halt"] raw ->
   d = if String.eqb raw "" then {| label := "Desconocido"; variant := unknown |}
       else {| label := raw; variant := unknown |}).
Proof.
  cbv zeta.
  assert (lowercase ["print"]) as L1 by repeat constructor.
  assert (lowercase ["complete"; "done"; "finish"]) as L2 by repeat constructor.
  assert (lowercase ["pause"]) as L3 by repeat constructor.
  assert (lowercase ["standby"; "idle"; "ready"]) as L4 by repeat constructor.
  assert (lowercase ["error"; "fault"; "halt"]) as L5 by repeat constructor.
  destruct (decide (raw = "")) as [->|Hne].
  - pose proof (no_mention_in_empty _ L1) as N1.
    pose proof (no_mention_in_empty _ L2) as N2.
    pose proof (no_mention_in_empty _ L3) as N3.
    pose proof (no_mention_in_empty _ L4) as N4.
    pose proof (no_mention_in_empty _ L5) as N5.
    repeat split; intros; try reflexivity; exfalso.
    + apply N1; [repeat constructor; discriminate | assumption].
    + apply N2; [repeat constructor; discriminate | assumption].
    + apply N3; [repeat constructor; discriminate | assumption].
    + apply N4; [repeat constructor; discriminate | assumption].
    + apply N5; [repeat constructor; discriminate | assumption].
  - rewrite resolveStateDisplay_cases, (proj2 (String.eqb_neq _ _) Hne) by done.
    pose proof (existsb_includes_mentions _ raw L1) as H1.
    pose proof (existsb_includes_mentions _ raw L2) as H2.
    pose proof (existsb_includes_mentions _ raw L3) as H3.
    pose proof (existsb_includes_mentions _ raw L4) as H4.
    pose proof (existsb_includes_mentions _ raw L5) as H5.
    destruct (existsb _ ["print"]); settle_rule H1.
    destruct (existsb _ ["complete"; "done"; "finish"]); settle_rule H2.
    destruct (existsb _ ["pause"]); settle_rule H3.
    destruct (existsb _ ["standby"; "idle"; "ready"]); settle_rule H4.
    destruct (existsb _ ["error"; "fault"; "halt"]); settle_rule H5.
    repeat split; intros; (reflexivity || contradiction).
Qed.
End Strings.

(** C5. [resolveStateDisplay] matches substrings with the case of letters
    ignored, in order, the first match winning: "print" gives printing; else
    "complete", "done" or "finish" give complete; else "pause" gives paused;
    else "standby", "idle" or "ready" give idle; else "error", "fault" or
    "halt" give error; otherwise the raw string is the label and the variant
    is unknown; an empty or missing string gives the fixed label
    "Desconocido" with variant unknown. *)
Theorem resolveStateDisplay_matches :
  Dashboard.resolveStateDisplay None
  = {| Dashboard.label := "Desconocido"; Dashboard.variant := Dashboard.unknown |} ∧
  Dashboard.resolveStateDisplay (Some "")
  = {| Dashboard.label := "Desconocido"; Dashboard.variant := Dashboard.unknown |} ∧
  (∀ raw,
     (Dashboard.mentions ["print"] raw ->
      Dashboard.resolveStateDisplay (Some raw)
      = {| Dashboard.label := "Imprimiendo"; Dashboard.variant := Dashboard.printing |}) ∧
     (¬ Dashboard.mentions ["print"] raw ->
      Dashboard.mentions ["complete"; "done"; "finish"] raw ->
      Dashboard.resolveStateDisplay (Some raw)
      = {| Dashboard.label := "Completado"; Dashboard.variant := Dashboard.complete |}) ∧
     (¬ Dashboard.mentions ["print"] raw ->
      ¬ Dashboard.mentions ["complete"; "done"; "finish"] raw ->
      Dashboard.mentions ["pause"] raw ->
      Dashboard.resolveStateDisplay (Some raw)
      = {| Dashboard.label := "Pausado"; Dashboard.variant := Dashboard.paused |}) ∧
     (¬ Dashboard.mentions ["print"] raw ->
      ¬ Dashboard.mentions ["complete"; "done"; "finish"] raw ->
      ¬ Dashboard.mentions ["pause"] raw ->
      Dashboard.mentions ["standby"; "idle"; "ready"] raw ->
      Dashboard.resolveStateDisplay (Some raw)
      = {| Dashboard.label := "Standby"; Dashboard.variant := Dashboard.idle |}) ∧
     (¬ Dashboard.mentions ["print"] raw ->
      ¬ Dashboard.mentions ["complete"; "done"; "finish"] raw ->
      ¬ Dashboard.mentions ["pause"] raw ->
      ¬ Dashboard.mentions ["standby"; "idle"; "ready"] raw ->
      Dashboard.mentions ["error"; "fault"; "halt"] raw ->
      Dashboard.resolveStateDisplay (Some raw)
      = {| Dashboard.label := "Error"; Dashboard.variant := Dashboard.error |}) ∧
     (¬ Dashboard.mentions ["print"] raw ->
      ¬ Dashboard.mentions ["complete"; "done"; "finish"] raw ->
      ¬ Dashboard.mentions ["pause"] raw ->
      ¬ Dashboard.mentions ["standby"; "idle"; "ready"] raw ->
      ¬ Dashboard.mentions ["error"; "fault"; "halt"] raw ->
      Dashboard.resolveStateDisplay (Some raw)
      = if String.eqb raw ""
        then {| Dashboard.label := "Desconocido"; Dashboard.variant := Dashboard.unknown |}
        else {| Dashboard.label := raw; Dashboard.variant := Dashboard.unknown |})) ∧
  Dashboard.variant (Dashboard.resolveStateDisplay (Some "Printing layer 12"))
  = Dashboard.printing ∧
  Dashboard.variant (Dashboard.resolveStateDisplay (Some "Ready")) = Dashboard.idle ∧
  Dashboard.variant (Dashboard.resolveStateDisplay (Some "Halted by error"))
  = Dashboard.error.
Proof.
  split; [reflexivity|]. split; [reflexivity|].
  split; [intros raw; apply resolveStateDisplay_spec|].
  repeat split; reflexivity.
Qed.

Lemma resolveStateDisplay_matches_witness :
  Dashboard.resolveStateDisplay (Some "Job FINISHED, idle")
  = {| Dashboard.label := "Completado"; Dashboard.variant := Dashboard.complete |}.
Proof.
  destruct resolveStateDisplay_matches as (_ & _ & Hrules & _).
  destruct (Hrules "Job FINISHED, idle") as (_ & Hcomplete & _).
  apply Hcomplete.
  - intros Hprint.
    apply (existsb_includes_mentions ["print"] "Job FINISHED, idle") in Hprint;
      [|repeat constructor].
    discriminate Hprint.
  - exists "finish". split; [set_solver|].
    exists "Job ", "FINISH", "ED, idle". split; reflexivity.
Defined.

(** ** Deadlines of the upstream calls *)

Section Timeouts.
Import Proxy.
Variable newURL : string -> option (string * string).
Variables invalidUrlMessage abortMessage : string.
Variables Number parseInt10 : string -> float.
Variable numberToString : float -> string.
Variable sortEs : list string -> list string.
Variable flatMapMessage : string.
Variable statusMessage : nat -> string.

Let call := Proxy.call newURL invalidUrlMessage abortMessage Number parseInt10
                       numberToString sortEs flatMapMessage statusMessage.

Lemma fetch_late limit t upstream :
  upstream = Silent ∨ (∃ r, upstream = Responds (limit + t) r) ∨
  (∃ message, upstream = Refuses (limit + t) message) ->
  fetch abortMessage (Some limit) upstream = Some (Rejected abortMessage).
Proof.
  assert ((limit + t <? limit)%N = false) as Hlate by (apply N.ltb_ge; lia).
  intros [-> | [[r ->] | [message ->]]]; cbn; by rewrite ?Hlate.
Qed.

(** C4, on the code.  Of the four proxies only printer-console applies the
    8 second deadline: to a controller that is silent or answers at 8 seconds
    or later it replies with the failure envelope of the abort, and a
    connection failure gets the envelope of its own message.  printer-overview,
    printer-control and printer-macros have no deadline: they never reply to
    a silent controller, and serve an answer however late it comes. *)
Theorem timeouts_by_endpoint :
  waits_for_upstream (call PrinterOverview) ∧
  waits_for_upstream (call PrinterControl) ∧
  waits_for_upstream (call PrinterMacros) ∧
  gives_up_after 8000
    {| code := failureStatus abortMessage;
       envelope := failure ("Moonraker request failed: " ++ abortMessage) |}
    (call PrinterConsole) ∧
  (∀ message,
     call PrinterConsole (fun _ => Refuses 0%N message) =
     Some {| code := failureStatus message;
             envelope := failure ("Moonraker request failed: " ++ message) |}) ∧
  (∀ message,
     call PrinterOverview (fun _ => Refuses 0%N message) =
     Some {| code := 502;
             envelope := failure ("Moonraker request failed: " ++ message) |}).
Proof.
  split; [|split; [|split]]; [repeat split; reflexivity..|].
  split; [|split; reflexivity].
  unfold gives_up_after, call, Proxy.call, consoleGET. cbn [resolveBaseUrl].
  split; [reflexivity|]. split.
  - intros t r. rewrite (fetch_late 8000 t); [reflexivity | eauto].
  - intros t message. rewrite (fetch_late 8000 t); [reflexivity | eauto].
Qed.
End Timeouts.

Lemma timeouts_by_endpoint_witness :
  Proxy.call (fun _ => None) "Invalid URL" "This operation was aborted"
             (fun _ => PrimFloat.nan) (fun _ => PrimFloat.nan) (fun _ => "200")
             (fun names => names) "objects.flatMap is not a function"
             (fun _ => "Invalid response status code")
             Proxy.PrinterOverview (fun _ => Proxy.Silent) = None ∧
  Proxy.call (fun _ => None) "Invalid URL" "This operation was aborted"
             (fun _ => PrimFloat.nan) (fun _ => PrimFloat.nan) (fun _ => "200")
             (fun names => names) "objects.flatMap is not a function"
             (fun _ => "Invalid response status code")
             Proxy.PrinterConsole (fun _ => Proxy.Silent)
  = Some {| Proxy.code := 504;
            Proxy.envelope :=
              Proxy.failure "Moonraker request failed: This operation was aborted" |}.
Proof.
  destruct (timeouts_by_endpoint (fun _ => None) "Invalid URL" "This operation was aborted"
              (fun _ => PrimFloat.nan) (fun _ => PrimFloat.nan) (fun _ => "200")
              (fun names => names) "objects.flatMap is not a function"
              (fun _ => "Invalid response status code"))
    as ((Hoverview & _) & _ & _ & (Hconsole & _) & _).
  split; [exact Hoverview | exact Hconsole].
Defined.

(** * More of the store *)

Section More_store_facts.
Import Store Store_calls StoreSpec.

Lemma removePrinterMutator_eq printerId cur w :
  removePrinterMutator printerId cur w =
  if someHasId (printers cur) printerId
  then (Ok {| nodes := nodes cur;
              printers := List.filter (fun p => negb (idIs "id" printerId p)) (printers cur);
              states := delete printerId <$> states cur;
              updatedAt := updatedAt cur |}, w)
  else (Throw (Error "La impresora indicada no existe."), w).
Proof.
  unfold removePrinterMutator.
  destruct (someHasId (printers cur) printerId) eqn:Hsome.
  - destruct (_ =? _)%nat eqn:Hlen; [|reflexivity].
    exfalso. apply Nat.eqb_eq in Hlen.
    pose proof (proj1 (List_filter_length_eq _ _) Hlen) as Hall.
    apply someHasId_true in Hsome as (n & Hn & Hid).
    specialize (Hall n Hn). apply negb_true_iff in Hall. by apply idIs_false in Hall.
  - destruct (_ =? _)%nat eqn:Hlen; [reflexivity|].
    exfalso. apply Nat.eqb_neq in Hlen. apply Hlen, List_filter_length_eq.
    intros n Hn. apply negb_true_iff. apply idIs_false. intros Hid.
    assert (someHasId (printers cur) printerId = true) by (apply someHasId_true; eauto).
    congruence.
Qed.

Lemma stateOf_delete (m : option (gmap string JSON)) key id u ns ps :
  stateOf {| nodes := ns; printers := ps; states := delete id <$> m; updatedAt := u |} key =
  if bool_decide (key = id) then None
  else stateOf {| nodes := ns; printers := ps; states := m; updatedAt := u |} key.
Proof.
  unfold stateOf. cbn [states]. destruct m as [m|]; simpl.
  - case_bool_decide as Hk.
    + subst. by rewrite lookup_delete_eq.
    + by rewrite lookup_delete_ne.
  - by case_bool_decide.
Qed.

Lemma removePrinter_spec w printerId :
  (printerId = "" ->
   removePrinter printerId w
   = (Throw (Error "Se requiere el identificador de la impresora."), w)) ∧
  (printerId ≠ "" -> ¬ hasField "id" printerId (printers (current w)) ->
   removePrinter printerId w
   = (Throw (Error "La impresora indicada no existe."), warned w)) ∧
  (printerId ≠ "" -> hasField "id" printerId (printers (current w)) -> writable w = true ->
   ∃ s, removePrinter printerId w = (Ok s, written s (warned w)) ∧
        nodes s = nodes (current w) ∧
        printers s =
          List.filter (fun p => negb (idIs "id" printerId p)) (printers (current w)) ∧
        ¬ hasField "id" printerId (printers s) ∧
        ∀ key, stateOf s key =
               if bool_decide (key = printerId) then None else stateOf (current w) key).
Proof.
  pose proof (current_sanitized w) as Hsan.
  destruct Hsan as (Hnodes & Hprinters & Hstates).
  destruct (warned_same w) as (_ & Hwr & _ & Hclock & _).
  split; [|split].
  - intros ->. reflexivity.
  - intros Hne Hno. unfold removePrinter.
    rewrite (proj2 (String.eqb_neq _ _) Hne), updateSnapshot_eq, removePrinterMutator_eq.
    destruct (someHasId _ _) eqn:Hsome; [|reflexivity].
    exfalso. by apply Hno, someHasId_true.
  - intros Hne Hhas Hw. unfold removePrinter.
    rewrite (proj2 (String.eqb_neq _ _) Hne), updateSnapshot_eq, removePrinterMutator_eq.
    rewrite (proj2 (someHasId_true _ _) Hhas), Hwr, Hw.
    set (printers1 :=
           List.filter (fun p => negb (idIs "id" printerId p)) (printers (current w))).
    eexists. split; [reflexivity|].
    assert (List.filter isValidNode (nodes (current w)) = nodes (current w)) as Hn1
      by (by apply List_filter_all).
    assert (List.filter (fun entry => isValidPrinter entry (idSet (nodes (current w))))
                        printers1 = printers1) as Hp1.
    { apply List_filter_all. intros p [Hp _]%elem_of_List_filter. auto. }
    rewrite commit_nodes, commit_printers. cbn [nodes printers]. rewrite Hn1, Hp1.
    split; [done|]. split; [done|]. split.
    + intros (p & [_ Hkeep]%elem_of_List_filter & Hid).
      apply negb_true_iff in Hkeep. by apply idIs_false in Hkeep.
    + intros key. rewrite commit_stateOf, commit_printers. cbn [nodes printers].
      rewrite Hn1, Hp1. rewrite stateOf_delete.
      case_bool_decide as Hk; [done|].
      change (stateOf {| nodes := nodes (current w); printers := printers1;
                         states := states (current w);
                         updatedAt := updatedAt (current w) |} key)
        with (stateOf (current w) key).
      destruct (stateOf (current w) key) as [v|] eqn:Hv; [|done]. simpl.
      specialize (Hstates key v Hv). unfold keepsState in *.
      apply andb_true_iff in Hstates as [Hin ->]. rewrite andb_true_r.
      apply bool_decide_eq_true in Hin.
      apply elem_of_idSet in Hin as (p & Hp & Hid).
      rewrite bool_decide_eq_true_2; [done|].
      apply elem_of_idSet. exists p. split; [|done].
      apply elem_of_List_filter. split; [done|].
      apply negb_true_iff, idIs_false. rewrite Hid. congruence.
Qed.


(** ** registerPrinter, case by case *)

Lemma registerMutator_eq input name baseUrl cur w :
  registerMutator input name baseUrl cur w =
  if nodeExists input cur
  then (Ok {| nodes := nodes cur;
              printers := printers cur ++
                [mkPrinter (uuids w (drawn w)) name baseUrl (default "" (nodeId input))
                           (clock w)];
              states := deleteIfTruthy (uuids w (drawn w)) <$> states cur;
              updatedAt := updatedAt cur |}, drew 1 w)
  else match trim <$> nodeName input with
       | Some nodeName =>
           if String.eqb nodeName ""
           then (Throw (Error "El nodo de destino no es válido."), w)
           else (Ok (registeredInNewNode name baseUrl nodeName cur w), drew 2 w)
       | None => (Throw (Error "El nodo de destino no es válido."), w)
       end.
Proof.
  unfold registerMutator, nodeExists.
  destruct (match nodeId input with Some _ => _ | None => _ end); [reflexivity|].
  destruct (trim <$> nodeName input) as [nn|]; [|reflexivity].
  destruct (String.eqb nn ""); reflexivity.
Qed.

Lemma valid_node_id n id :
  isValidNode n = true -> field "id" n = Some id -> id ≠ "".
Proof.
  unfold isValidNode, field, is_nonempty_string. rewrite !andb_true_iff.
  intros [[[_ Hid] _] _] Hf. rewrite Hf in Hid. by destruct id.
Qed.

Lemma nodeExists_true input cur :
  sanitized cur ->
  nodeExists input cur = true ↔
  ∃ target, nodeId input = Some target ∧ hasField "id" target (nodes cur).
Proof.
  intros (Hnodes & _). unfold nodeExists. split.
  - destruct (nodeId input) as [target|]; [|done].
    intros [_ Hsome]%andb_true_iff. exists target. split; [done|].
    by apply someHasId_true.
  - intros (target & -> & Hhas). apply andb_true_iff. split.
    + destruct Hhas as (n & Hn & Hid). apply negb_true_iff, String.eqb_neq.
      eapply valid_node_id; [by apply Hnodes | done].
    + by apply someHasId_true.
Qed.

Lemma idSet_app l1 l2 id : id ∈ idSet l1 -> id ∈ idSet (l1 ++ l2).
Proof.
  rewrite !elem_of_idSet. intros (x & Hx & Hid). exists x. split; [|done].
  apply elem_of_app. by left.
Qed.

(** What [updateSnapshot] keeps of a snapshot that extends a sanitised one
    by valid entries. *)
Lemma commit_extended cur newNodes newPrinter sts u t :
  sanitized cur ->
  (∀ n, n ∈ newNodes -> isValidNode n = true) ->
  isValidPrinter newPrinter (idSet (nodes cur ++ newNodes)) = true ->
  let m := {| nodes := nodes cur ++ newNodes;
              printers := printers cur ++ [newPrinter];
              states := sts; updatedAt := u |} in
  nodes (commit m t) = (nodes cur ++ newNodes)%list ∧
  printers (commit m t) = (printers cur ++ [newPrinter])%list.
Proof.
  intros (Hnodes & Hprinters & _) Hnew Hp m.
  assert (List.filter isValidNode (nodes cur ++ newNodes) = (nodes cur ++ newNodes)%list)
    as Hn1.
  { apply List_filter_all. intros n [?|?]%elem_of_app; auto. }
  rewrite commit_nodes, commit_printers. unfold m. cbn [nodes printers].
  rewrite Hn1. split; [done|].
  apply List_filter_all. intros p [Hin|Hin]%elem_of_app.
  - apply (isValidPrinter_mono _ _ _ (Hprinters p Hin)).
    intros id _ Hid. by apply idSet_app.
  - by apply list_elem_of_singleton in Hin as ->.
Qed.

Lemma commit_extended_stateOf cur newNodes newPrinter newId u t key :
  sanitized cur ->
  (∀ n, n ∈ newNodes -> isValidNode n = true) ->
  isValidPrinter newPrinter (idSet (nodes cur ++ newNodes)) = true ->
  stateOf (commit {| nodes := nodes cur ++ newNodes;
                     printers := printers cur ++ [newPrinter];
                     states := deleteIfTruthy newId <$> states cur;
                     updatedAt := u |} t) key =
  if bool_decide (key = newId) then None else stateOf cur key.
Proof.
  intros Hsan Hnew Hp.
  destruct (commit_extended cur newNodes newPrinter
              (deleteIfTruthy newId <$> states cur) u t Hsan Hnew Hp) as [_ Hps].
  rewrite commit_stateOf, Hps, stateOf_deleteIfTruthy by done.
  case_bool_decide as Hk; [done|].
  destruct (stateOf cur key) as [v|] eqn:Hv; [|done]. simpl.
  destruct Hsan as (_ & _ & Hstates). specialize (Hstates key v Hv).
  unfold keepsState in *. apply andb_true_iff in Hstates as [Hin ->].
  rewrite andb_true_r. apply bool_decide_eq_true in Hin.
  by rewrite (bool_decide_eq_true_2 _ (idSet_app _ [newPrinter] _ Hin)).
Qed.

Lemma registerPrinter_existing w input target :
  trim (name input) ≠ "" -> trim (inputBaseUrl input) ≠ "" ->
  nodeId input = Some target -> hasField "id" target (nodes (current w)) ->
  writable w = true -> uuids w (drawn w) ≠ "" ->
  ∃ s, registerPrinter input w = (Ok s, written s (drew 1 (warned w))) ∧
       nodes s = nodes (current w) ∧
       printers s =
         (printers (current w) ++
          [mkPrinter (uuids w (drawn w)) (trim (name input)) (trim (inputBaseUrl input))
                     target (clock w)])%list ∧
       ∀ key, stateOf s key =
              if bool_decide (key = uuids w (drawn w)) then None
              else stateOf (current w) key.
Proof.
  intros Hn Hu Hid Hhas Hw Hnew.
  pose proof (current_sanitized w) as Hsan.
  destruct (warned_same w) as (_ & Hwr & _ & Hclock & Huu & Hdr).
  unfold registerPrinter.
  rewrite (proj2 (String.eqb_neq _ _) Hn), (proj2 (String.eqb_neq _ _) Hu).
  rewrite updateSnapshot_eq, registerMutator_eq.
  rewrite (proj2 (nodeExists_true input (current w) Hsan)) by eauto.
  cbn [writable drew clock]. rewrite Hwr, Hw, Hclock, Huu, Hdr, Hid. cbn [default].
  eexists. split; [reflexivity|].
  set (p := mkPrinter _ _ _ _ _).
  assert (isValidPrinter p (idSet (nodes (current w) ++ [])) = true) as Hp.
  { apply isValidPrinter_mkPrinter; try done. rewrite app_nil_r.
    by apply elem_of_idSet. }
  assert (∀ n : JSON, n ∈ [] -> isValidNode n = true) as Hnone
    by (intros n Hin; by apply elem_of_nil in Hin).
  pose proof (commit_extended (current w) [] p
                (deleteIfTruthy (uuids w (drawn w)) <$> states (current w))
                (updatedAt (current w)) (clock w) Hsan Hnone Hp) as [Hns Hps].
  pose proof (fun key => commit_extended_stateOf (current w) [] p (uuids w (drawn w))
                (updatedAt (current w)) (clock w) key Hsan Hnone Hp) as Hst.
  cbv zeta in Hns, Hps. rewrite app_nil_r in Hns, Hps, Hst.
  split; [exact Hns|]. split; [exact Hps|]. exact Hst.
Qed.

(** X1. When the input names no stored node (no [nodeId], or one that no
    stored node has), [registerPrinter] fails with the "invalid target node"
    error, writing nothing, if the node name is missing or blank; with a
    node name it creates that node and registers the printer under it, the
    unknown [nodeId] being ignored. *)
Theorem registerPrinter_without_known_node w input :
  trim (name input) ≠ "" -> trim (inputBaseUrl input) ≠ "" ->
  (∀ target, nodeId input = Some target -> ¬ hasField "id" target (nodes (current w))) ->
  ((nodeName input = None ∨ ∃ raw, nodeName input = Some raw ∧ trim raw = "") ->
   registerPrinter input w
   = (Throw (Error "El nodo de destino no es válido."), warned w)) ∧
  (∀ raw, nodeName input = Some raw -> trim raw ≠ "" -> writable w = true ->
     uuids w (drawn w) ≠ "" -> uuids w (S (drawn w)) ≠ "" ->
     ∃ s, registerPrinter input w = (Ok s, written s (drew 2 (warned w))) ∧
          nodes s =
            (nodes (current w) ++ [mkNode (uuids w (drawn w)) (trim raw) (clock w)])%list ∧
          printers s =
            (printers (current w) ++
             [mkPrinter (uuids w (S (drawn w))) (trim (name input))
                        (trim (inputBaseUrl input)) (uuids w (drawn w)) (clock w)])%list ∧
          ∀ key, stateOf s key =
                 if bool_decide (key = uuids w (S (drawn w))) then None
                 else stateOf (current w) key).
Proof.
  intros Hn Hu Hunknown.
  pose proof (current_sanitized w) as Hsan.
  destruct (warned_same w) as (_ & Hwr & _ & Hclock & Huu & Hdr).
  assert (nodeExists input (current w) = false) as Hex.
  { destruct (nodeExists input (current w)) eqn:Hex; [|done].
    apply (nodeExists_true _ _ Hsan) in Hex as (target & Hid & Hhas).
    by destruct (Hunknown target Hid). }
  unfold registerPrinter.
  rewrite (proj2 (String.eqb_neq _ _) Hn), (proj2 (String.eqb_neq _ _) Hu).
  rewrite updateSnapshot_eq, registerMutator_eq, Hex.
  split.
  - intros [-> | (raw & -> & Hblank)]; [reflexivity|]. simpl. by rewrite Hblank.
  - intros raw -> Hraw Hw Hid0 Hid1. simpl.
    rewrite (proj2 (String.eqb_neq _ _) Hraw).
    cbn [writable drew clock]. rewrite Hwr, Hw, Hclock.
    eexists. split; [reflexivity|].
    unfold registeredInNewNode. rewrite Huu, Hdr, Hclock.
    set (n := mkNode _ _ _). set (p := mkPrinter _ _ _ _ _).
    assert (∀ x : JSON, x ∈ [n] -> isValidNode x = true) as Hnew.
    { intros x ->%list_elem_of_singleton. by apply isValidNode_mkNode. }
    assert (isValidPrinter p (idSet (nodes (current w) ++ [n])) = true) as Hp.
    { apply isValidPrinter_mkPrinter; try done.
      apply elem_of_idSet. exists n. split; [|done]. apply elem_of_app. right. left. }
    pose proof (commit_extended (current w) [n] p
                  (deleteIfTruthy (uuids w (S (drawn w))) <$> states (current w))
                  (updatedAt (current w)) (clock w) Hsan Hnew Hp) as [Hns Hps].
    split; [exact Hns|]. split; [exact Hps|].
    intros key. by apply commit_extended_stateOf.
Qed.


(** ** Sanitisation is idempotent *)

Lemma fromEntries_map_to_list (m : gmap string JSON) : fromEntries (map_to_list m) = m.
Proof.
  apply map_eq. intros key. apply option_eq. intros v.
  rewrite fromEntries_lookup by apply NoDup_fst_map_to_list.
  apply elem_of_map_to_list.
Qed.

Lemma foldl_setEntry_nonempty (es : list (string * JSON)) (m : gmap string JSON) :
  es ≠ [] -> foldl setEntry m es ≠ ∅.
Proof.
  destruct es as [|e es _] using rev_ind; [done|]. intros _.
  rewrite foldl_app. simpl. unfold setEntry at 1. apply insert_non_empty.
Qed.

Lemma sanitize_states_nonempty doc t : states (sanitizeSnapshot doc t) ≠ Some ∅.
Proof.
  unfold sanitizeSnapshot. cbn [states].
  destruct (List.filter _ _) as [|e es] eqn:Hf; [done|].
  cbn [length Nat.ltb Nat.leb]. intros [= Hempty].
  by apply (foldl_setEntry_nonempty (e :: es) ∅).
Qed.

Lemma sanitize_to_json ns ps sts u t :
  sanitizeSnapshot
    (to_json {| nodes := ns; printers := ps; states := sts; updatedAt := u |}) t =
  let nodes1 := List.filter isValidNode ns in
  let printers1 := List.filter (fun entry => isValidPrinter entry (idSet nodes1)) ps in
  let valid :=
    List.filter (fun '(printerId, state) =>
                   bool_decide (printerId ∈ idSet printers1) && isValidState state)
                (from_option map_to_list [] sts) in
  {| nodes := nodes1; printers := printers1;
     states := if (0 <? length valid)%nat then Some (fromEntries valid) else None;
     updatedAt := u |}.
Proof. destruct sts; reflexivity. Qed.

Lemma sanitize_fix s t :
  sanitized s -> states s ≠ Some ∅ -> sanitizeSnapshot (to_json s) t = s.
Proof.
  intros Hsan Hne. pose proof Hsan as (Hnodes & Hprinters & Hstates).
  destruct s as [ns ps sts u]. cbn [nodes printers states] in *.
  rewrite sanitize_to_json. cbv zeta.
  assert (List.filter isValidNode ns = ns) as Hn1 by (by apply List_filter_all).
  assert (List.filter (fun entry => isValidPrinter entry (idSet ns)) ps = ps) as Hp1
    by (by apply List_filter_all).
  rewrite Hn1, Hp1. f_equal.
  destruct sts as [m|]; [|reflexivity]. cbn [from_option].
  assert (List.filter (fun '(printerId, state) =>
                         bool_decide (printerId ∈ idSet ps) && isValidState state)
                      (map_to_list m) = map_to_list m) as ->.
  { apply List_filter_all. intros [key v] Hin%elem_of_map_to_list.
    apply (Hstates key v). exact Hin. }
  rewrite fromEntries_map_to_list.
  destruct (map_to_list m) eqn:Hl; [|reflexivity].
  apply map_to_list_empty_iff in Hl. by subst.
Qed.

Lemma setUpdatedAt_sanitized s t : sanitized s -> sanitized (setUpdatedAt s t).
Proof. intros H. exact H. Qed.

Lemma commit_fix m t t' : sanitizeSnapshot (to_json (commit m t)) t' = commit m t.
Proof.
  apply sanitize_fix.
  - apply setUpdatedAt_sanitized, sanitize_sanitized.
  - apply (sanitize_states_nonempty (to_json m) t).
Qed.

(** X2. Sanitising a sanitised snapshot again returns it unchanged. *)
Theorem sanitizeSnapshot_idempotent doc t t' :
  sanitizeSnapshot (to_json (sanitizeSnapshot doc t)) t' = sanitizeSnapshot doc t.
Proof.
  apply sanitize_fix; [apply sanitize_sanitized | apply sanitize_states_nonempty].
Qed.

(** ** What a successful mutation leaves behind *)

Lemma updateSnapshot_Ok_world mutator w s w' :
  updateSnapshot mutator w = (Ok s, w') ->
  ∃ m w2, mutator (current w) (warned w) = (Ok m, w2) ∧ writable w2 = true ∧
          s = commit m (clock w2) ∧ w' = written s w2.
Proof.
  rewrite updateSnapshot_eq.
  destruct (mutator (current w) (warned w)) as [[m|e] w2]; [|done].
  destruct (writable w2) eqn:Hw; [|done]. intros [= <- <-]. eauto 10.
Qed.

(** Every mutator only draws identifiers. *)
Lemma mutator_draws c cur w :
  isMutation c = true ->
  ∃ mutator, (∀ w0, (run c w0 = updateSnapshot mutator w0) ∨
                    (∃ message, message ∈ storeMessages ∧
                                run c w0 = (Throw (Error message), w0))) ∧
             ∃ k, (mutator cur w).2 = drew k w ∧
                  ∀ e, (mutator cur w).1 = Throw e ->
                       ∃ message, e = Error message ∧ message ∈ storeMessages.
Proof.
  destruct c as [defaults|input|printerId|nodeId|entries]; [done|..]; intros _.
  - exists (registerMutator input (trim (name input)) (trim (inputBaseUrl input))).
    split.
    + intros w0. cbn [run]. unfold registerPrinter.
      destruct (String.eqb (trim (name input)) "").
      { right. eexists. split; [|reflexivity]. set_solver. }
      destruct (String.eqb (trim (inputBaseUrl input)) "").
      { right. eexists. split; [|reflexivity]. set_solver. }
      by left.
    + rewrite registerMutator_eq. destruct (nodeExists input cur).
      { exists 1. split; [done|]. intros e [=]. }
      destruct (trim <$> nodeName input) as [nn|].
      * destruct (String.eqb nn "").
        -- exists 0. split; [by destruct w|]. intros e [= <-].
           eexists. split; [done|]. set_solver.
        -- exists 2. split; [done|]. intros e [=].
      * exists 0. split; [by destruct w|]. intros e [= <-].
        eexists. split; [done|]. set_solver.
  - exists (removePrinterMutator printerId). split.
    + intros w0. cbn [run]. unfold removePrinter.
      destruct (String.eqb printerId "").
      { right. eexists. split; [|reflexivity]. set_solver. }
      by left.
    + rewrite removePrinterMutator_eq. exists 0.
      destruct (someHasId _ _); (split; [by destruct w|]); intros e [=]. subst.
      eexists. split; [done|]. set_solver.
  - exists (removeNodeMutator nodeId). split.
    + intros w0. cbn [run]. unfold removeNode.
      destruct (String.eqb nodeId "").
      { right. eexists. split; [|reflexivity]. set_solver. }
      by left.
    + rewrite removeNodeMutator_eq. exists 0.
      destruct (someHasId _ _); (split; [by destruct w|]); intros e [=]. subst.
      eexists. split; [done|]. set_solver.
  - exists (upsertMutator entries). split; [by left|].
    exists 0. split; [by destruct w|]. intros e [=].
Qed.

Lemma mutation_Ok c w s w' :
  isMutation c = true -> run c w = (Ok s, w') ->
  ∃ m k, s = commit m (clock w) ∧ w' = written s (drew k (warned w)).
Proof.
  intros Hmut Hrun.
  destruct (mutator_draws c (current w) (warned w) Hmut) as (mutator & Hc & k & Hk & _).
  destruct (Hc w) as [Heq | (message & _ & Heq)]; [|congruence].
  rewrite Heq in Hrun. apply updateSnapshot_Ok_world in Hrun as (m & w2 & Hm & _ & -> & ->).
  rewrite Hm in Hk. cbn in Hk. subst w2.
  destruct (warned_same w) as (_ & _ & _ & Hclock & _).
  exists m, k. cbn [clock drew]. by rewrite Hclock.
Qed.

Lemma failed_call c w e w' :
  run c w = (Throw e, w') ->
  cache w' = cache w ∧
  ((e = WriteFailure ∧ writable w = false ∧ file w' = default (file w) (torn w)) ∨
   ∃ message, e = Error message ∧ message ∈ storeMessages ∧ file w' = file w).
Proof.
  destruct (warned_same w) as (Hfile & Hwr & Hcache & _).
  assert (torn (warned w) = torn w) as Htorn.
  { unfold warned, readSnapshotFromDisk.
    destruct (file w) as [code| |doc]; [case_bool_decide| |]; reflexivity. }
  destruct (isMutation c) eqn:Hmut.
  - destruct (mutator_draws c (current w) (warned w) Hmut)
      as (mutator & Hc & k & Hk & Herr).
    destruct (Hc w) as [-> | (message & Hin & ->)].
    + rewrite updateSnapshot_eq.
      destruct (mutator (current w) (warned w)) as [[m|e0] w2]; cbn in Hk, Herr; subst w2.
      * cbn [writable drew]. rewrite Hwr. destruct (writable w); [done|].
        intros [= <- <-]. cbn. rewrite Hfile, Htorn. auto.
      * intros [= <- <-]. cbn. split; [done|]. right.
        destruct (Herr e0 eq_refl) as (message & -> & Hin). eauto.
    + intros [= <- <-]. split; [done|]. right. eauto.
  - destruct c as [defaults| | | |]; try done. cbn [run]. rewrite getSnapshot_eq.
    assert (fromStorage (current w) defaults (warned w) = (Throw e, w') ->
            cache w' = cache w ∧
            ((e = WriteFailure ∧ writable w = false ∧
              file w' = default (file w) (torn w)) ∨
             ∃ message, e = Error message ∧ message ∈ storeMessages ∧ file w' = file w))
      as Hst.
    { unfold fromStorage. destruct (seedUrl _ _); [|done].
      rewrite Hwr. destruct (writable w); [done|]. intros [= <- <-]. cbn.
      rewrite Hfile, Htorn. auto. }
    destruct (cache w) as [k|]; [|exact Hst].
    destruct (clock w <? expiresAt k)%float; [done | exact Hst].
Qed.

(** X3. After every call that returns a snapshot the cache holds exactly that
    snapshot; after a mutation it expires 5000 ms later, the snapshot carries
    the time of the call as [updatedAt], and the file holds it.  Until the
    cache expires [getSnapshot] returns that snapshot and touches nothing,
    whatever has happened to the file. *)
Theorem returned_snapshot_is_cached c w s w' :
  run c w = (Ok s, w') ->
  ∃ k, cache w' = Some k ∧ snapshot k = s ∧
       (isMutation c = true ->
        expiresAt k = (clock w + CACHE_TTL_MS)%float ∧ updatedAt s = clock w ∧
        file w' = Document (stored (to_json s))) ∧
       ∀ w'' defaults,
         cache w'' = cache w' -> (clock w'' <? expiresAt k)%float = true ->
         getSnapshot defaults w'' = (Ok s, w'').
Proof.
  intros Hrun.
  assert (∀ k, cache w' = Some k -> snapshot k = s ->
               ∀ w'' defaults,
                 cache w'' = cache w' -> (clock w'' <? expiresAt k)%float = true ->
                 getSnapshot defaults w'' = (Ok s, w'')) as Hserve.
  { intros k Hk Hs w'' defaults Hsame Hfresh. unfold getSnapshot.
    by rewrite Hsame, Hk, Hfresh, Hs. }
  destruct (warned_same w) as (_ & Hwr & Hcache & Hclock & _).
  destruct (isMutation c) eqn:Hmut.
  - destruct (mutation_Ok c w s w' Hmut Hrun) as (m & k & Hs & ->).
    eexists. split; [reflexivity|]. split; [reflexivity|]. split.
    + intros _. cbn. rewrite Hclock. split; [done|]. split; [by rewrite Hs | done].
    + by apply Hserve.
  - destruct c as [defaults| | | |]; try done. cbn [run] in Hrun.
    rewrite getSnapshot_eq in Hrun.
    assert (fromStorage (current w) defaults (warned w) = (Ok s, w') ->
            ∃ k, cache w' = Some k ∧ snapshot k = s) as Hst.
    { unfold fromStorage. destruct (seedUrl _ _).
      - destruct (writable _); [|done]. intros [= <- <-]. cbn. eauto.
      - intros [= <- <-]. cbn. eauto. }
    assert (∃ k, cache w' = Some k ∧ snapshot k = s) as (k & Hk & Hs).
    { destruct (cache w) as [k|] eqn:Hcw; [|by apply Hst].
      destruct (clock w <? expiresAt k)%float; [|by apply Hst].
      injection Hrun as <- <-. eauto. }
    exists k. split; [done|]. split; [done|]. split; [done|]. by apply Hserve.
Qed.

(** X4. On a cache miss, when the stored snapshot has a printer or no
    non-empty [baseUrl] is given, [getSnapshot] seeds nothing: it returns the
    snapshot as read, caches it for 5000 ms, draws no identifier and leaves
    the file alone. *)
Theorem getSnapshot_without_seeding w defaults :
  (∀ k, cache w = Some k -> (clock w <? expiresAt k)%float = false) ->
  printers (current w) ≠ [] ∨ defaults ≫= baseUrl = None ∨ defaults ≫= baseUrl = Some "" ->
  ∃ w', getSnapshot defaults w = (Ok (current w), w') ∧
        file w' = file w ∧ drawn w' = drawn w ∧
        cache w' = Some {| snapshot := current w;
                           expiresAt := (clock w + CACHE_TTL_MS)%float |}.
Proof.
  intros Hstale Hcase.
  destruct (warned_same w) as (Hfile & _ & _ & Hclock & _ & Hdr).
  assert (seedUrl (current w) defaults = None) as Hseed.
  { unfold seedUrl. destruct Hcase as [Hp | [-> | ->]].
    - destruct (printers (current w)) as [|p ps] eqn:Hps; [done|].
      destruct (current_consistent w) as [Hres _].
      destruct (Hres p) as (n & ? & Hn & _); [rewrite Hps; left|].
      destruct (nodes (current w)); [by apply elem_of_nil in Hn | done].
    - by destruct (_ && _).
    - by destruct (_ && _). }
  assert (getSnapshot defaults w = fromStorage (current w) defaults (warned w)) as ->.
  { rewrite getSnapshot_eq. destruct (cache w) as [k|] eqn:Hk; [|done].
    by rewrite (Hstale k). }
  unfold fromStorage. rewrite Hseed. eexists. split; [reflexivity|].
  cbn. by rewrite Hclock.
Qed.


(** ** Register, then remove *)

Lemma current_after c w s w' :
  isMutation c = true -> run c w = (Ok s, w') -> survivesStorage s ->
  current w' = s ∧ writable w' = true ∧ warned w' = w'.
Proof.
  intros Hmut Hrun Hsurv.
  destruct (mutation_Ok c w s w' Hmut Hrun) as (m & k & Hs & ->).
  split; [|split; reflexivity].
  unfold current. cbn [file written]. rewrite Hsurv, Hs. apply commit_fix.
Qed.

Lemma filter_keeps_others (l : list JSON) id :
  (∀ p, p ∈ l -> field "id" p ≠ Some id) ->
  List.filter (fun p => negb (idIs "id" id p)) l = l.
Proof.
  intros H. apply List_filter_all. intros p Hp.
  apply negb_true_iff, idIs_false. by apply H.
Qed.

(** X5. Registering a printer under an existing node and then removing the
    printer that was added gives back the stored nodes, printers and states,
    when the new identifier was not in use and the snapshot written in
    between survives the JSON round trip. *)
Theorem register_then_removePrinter w input target s1 w1 :
  trim (name input) ≠ "" -> trim (inputBaseUrl input) ≠ "" ->
  nodeId input = Some target -> hasField "id" target (nodes (current w)) ->
  writable w = true -> uuids w (drawn w) ≠ "" ->
  uuids w (drawn w) ∉ ids (printers (current w)) ->
  registerPrinter input w = (Ok s1, w1) -> survivesStorage s1 ->
  ∃ s2 w2,
    removePrinter (uuids w (drawn w)) w1 = (Ok s2, w2) ∧
    nodes s2 = nodes (current w) ∧
    printers s2 = printers (current w) ∧
    ∀ key, stateOf s2 key = stateOf (current w) key.
Proof.
  intros Hn Hu Hid Hhas Hw Hnew Hfresh Hreg Hsurv.
  set (newId := uuids w (drawn w)) in *.
  destruct (registerPrinter_existing w input target Hn Hu Hid Hhas Hw Hnew)
    as (s & Hrun & Hnodes & Hprinters & Hstates).
  rewrite Hreg in Hrun. injection Hrun as <- _.
  destruct (current_after (CallRegisterPrinter input) w s1 w1 eq_refl Hreg Hsurv)
    as (Hcur & Hw1 & _).
  destruct (removePrinter_spec w1 newId) as (_ & _ & Hrem).
  destruct Hrem as (s2 & Hrun2 & Hn2 & Hp2 & _ & Hs2); [done| |done|].
  { rewrite Hcur, Hprinters. eexists. split; [apply elem_of_app; right; left|done]. }
  exists s2, (written s2 (warned w1)). split; [done|].
  rewrite Hcur in Hn2, Hp2, Hs2.
  assert (∀ p, p ∈ printers (current w) -> field "id" p ≠ Some newId) as Hothers.
  { intros p Hp Hf. apply Hfresh. unfold ids. apply list_elem_of_omap. eauto. }
  split; [congruence|]. split.
  - rewrite Hp2, Hprinters, List.filter_app, (filter_keeps_others _ _ Hothers).
    cbn. unfold idIs. cbn. rewrite bool_decide_eq_true_2 by done. cbn.
    apply app_nil_r.
  - intros key. rewrite Hs2, Hstates. fold newId.
    case_bool_decide as Hk; [|done]. subst key.
    destruct (stateOf (current w) newId) as [v|] eqn:Hv; [|done].
    destruct (current_sanitized w) as (_ & _ & Hst). specialize (Hst newId v Hv).
    unfold keepsState in Hst. apply andb_true_iff in Hst as [Hin%bool_decide_eq_true _].
    apply elem_of_idSet in Hin as (p & Hp & Hf). by destruct (Hothers p Hp).
Qed.


(** X6. [removePrinter] with an empty id fails with the "identifier
    required" error and changes nothing; with an id no stored printer has it
    fails with the not-found error, writing nothing; otherwise (the file
    being writable) it returns and persists the stored snapshot without the
    printers of that id and without the state under that id, the nodes and
    the other states being kept. *)
Theorem removePrinter_removes w printerId :
  (printerId = "" ->
   removePrinter printerId w
   = (Throw (Error "Se requiere el identificador de la impresora."), w)) ∧
  (printerId ≠ "" -> ¬ hasField "id" printerId (printers (current w)) ->
   removePrinter printerId w
   = (Throw (Error "La impresora indicada no existe."), warned w)) ∧
  (printerId ≠ "" -> hasField "id" printerId (printers (current w)) -> writable w = true ->
   ∃ s, removePrinter printerId w = (Ok s, written s (warned w)) ∧
        nodes s = nodes (current w) ∧
        printers s =
          List.filter (fun p => negb (idIs "id" printerId p)) (printers (current w)) ∧
        ¬ hasField "id" printerId (printers s) ∧
        ∀ key, stateOf s key =
               if bool_decide (key = printerId) then None else stateOf (current w) key).
Proof. apply removePrinter_spec. Qed.

Lemma removePrinter_removes_witness :
  ∃ s, (removePrinter "p1" Cases.loaded).1 = Ok s ∧
       nodes s = [mkNode "n1" "Taller" 1%float] ∧ printers s = [] ∧
       stateOf s "p1" = None.
Proof.
  destruct (removePrinter_removes Cases.loaded "p1") as (_ & _ & H).
  destruct H as (s & Hrun & Hn & Hp & _ & Hs).
  - discriminate.
  - apply someHasId_true. vm_compute. reflexivity.
  - reflexivity.
  - exists s. rewrite Hrun, Hn, Hp, Hs. repeat split.
Defined.

(** X7. [registerPrinter] with the id of a stored node (name and base URL not
    blank, the file writable, the identifier drawn not empty) draws one
    identifier and returns and persists the stored snapshot with one printer
    more, at the end: the trimmed name and base URL under that node, created
    at the time of the call.  No node is added, whatever [nodeName] says, and
    a state stored under the new identifier is dropped. *)
Theorem registerPrinter_into_existing_node w input target :
  trim (name input) ≠ "" -> trim (inputBaseUrl input) ≠ "" ->
  nodeId input = Some target -> hasField "id" target (nodes (current w)) ->
  writable w = true -> uuids w (drawn w) ≠ "" ->
  ∃ s, registerPrinter input w = (Ok s, written s (drew 1 (warned w))) ∧
       nodes s = nodes (current w) ∧
       printers s =
         (printers (current w) ++
          [mkPrinter (uuids w (drawn w)) (trim (name input)) (trim (inputBaseUrl input))
                     target (clock w)])%list ∧
       ∀ key, stateOf s key =
              if bool_decide (key = uuids w (drawn w)) then None
              else stateOf (current w) key.
Proof. apply registerPrinter_existing. Qed.

Lemma registerPrinter_into_existing_node_witness :
  ∃ s, (registerPrinter Cases.intoTaller Cases.loaded).1 = Ok s ∧
       nodes s = [mkNode "n1" "Taller" 1%float] ∧
       printers s = [mkPrinter "p1" "Voron" "http://10.0.0.5" "n1" 2%float;
                     mkPrinter "uuid-0" "Ender 3" "http://10.0.0.7" "n1" 1000%float].
Proof.
  destruct (registerPrinter_into_existing_node Cases.loaded Cases.intoTaller "n1")
    as (s & Hrun & Hn & Hp & _).
  - discriminate.
  - discriminate.
  - reflexivity.
  - apply someHasId_true. vm_compute. reflexivity.
  - reflexivity.
  - discriminate.
  - exists s. rewrite Hrun, Hn, Hp. repeat split.
Defined.

Lemma registerPrinter_without_known_node_witness :
  (registerPrinter Cases.intoNowhere Cases.loaded).1
  = Throw (Error "El nodo de destino no es válido.") ∧
  ∃ s, (registerPrinter Cases.intoGaraje Cases.loaded).1 = Ok s ∧
       nodes s = [mkNode "n1" "Taller" 1%float; mkNode "uuid-0" "Garaje" 1000%float].
Proof.
  assert (∀ target, Some "n9" = Some target ->
                    ¬ hasField "id" target (nodes (current Cases.loaded))) as Hunknown.
  { intros target [= <-] H%someHasId_true. vm_compute in H. discriminate H. }
  split.
  - destruct (registerPrinter_without_known_node Cases.loaded Cases.intoNowhere)
      as [Hfail _]; [discriminate | discriminate | exact Hunknown |].
    rewrite Hfail; [reflexivity|]. right. by exists (Samples.nbsp ++ " ").
  - destruct (registerPrinter_without_known_node Cases.loaded Cases.intoGaraje)
      as [_ Hnew]; [discriminate | discriminate | exact Hunknown |].
    destruct (Hnew " Garaje ") as (s & Hrun & Hn & _);
      [reflexivity | discriminate | reflexivity | discriminate | discriminate |].
    exists s. rewrite Hrun, Hn. split; reflexivity.
Defined.

(** X8. When a mutation returned a snapshot that [JSON.stringify] and
    [JSON.parse] give back unchanged, reading the file afterwards returns
    that very snapshot, without a warning. *)
Theorem mutation_reads_back c w s w' :
  isMutation c = true -> run c w = (Ok s, w') -> survivesStorage s ->
  readSnapshotFromDisk w' = (Ok s, w').
Proof.
  intros Hmut Hrun Hsurv.
  destruct (current_after c w s w' Hmut Hrun Hsurv) as (Hcur & _ & Hwarned).
  by rewrite read_eq, Hcur, Hwarned.
Qed.

Lemma mutation_reads_back_witness :
  ∃ s w', registerPrinter Cases.intoTaller Cases.loaded = (Ok s, w') ∧
          length (printers s) = 2 ∧
          readSnapshotFromDisk w' = (Ok s, w').
Proof.
  destruct (registerPrinter Cases.intoTaller Cases.loaded) as [[s|e] w'] eqn:Hrun;
    [|vm_compute in Hrun; discriminate Hrun].
  exists s, w'. split; [reflexivity|].
  pose proof Hrun as Hvalue. vm_compute in Hvalue. injection Hvalue as Hs Hw.
  split; [by rewrite <- Hs|].
  apply (mutation_reads_back (CallRegisterPrinter Cases.intoTaller) Cases.loaded).
  - reflexivity.
  - exact Hrun.
  - rewrite <- Hs. vm_compute. reflexivity.
Defined.

(** X9. A call that throws leaves the cache as it was.  When it throws one
    of the seven errors of the store the file is as it was too.  Otherwise
    it throws the failure of the write, the file not being writable, and the
    file holds what the failed write left of it: a file cut short, or what
    it held when the write failed before the file was opened. *)
Theorem failed_call_effects c w e w' :
  run c w = (Throw e, w') ->
  cache w' = cache w ∧
  ((e = WriteFailure ∧ writable w = false ∧ file w' = default (file w) (torn w)) ∨
   ∃ message, e = Error message ∧ message ∈ storeMessages ∧ file w' = file w).
Proof. apply failed_call. Qed.

Lemma failed_call_effects_witness :
  ∃ w', removePrinter "p1" Cases.diskFull = (Throw WriteFailure, w') ∧
        file w' = Unparsable ∧ cache w' = None.
Proof.
  destruct (removePrinter "p1" Cases.diskFull) as [[s|e] w'] eqn:Hrun;
    [vm_compute in Hrun; discriminate Hrun|].
  destruct (failed_call_effects (CallRemovePrinter "p1") Cases.diskFull e w' Hrun)
    as (Hcache & [(-> & _ & Hfile) | (message & -> & _ & _)]).
  - exists w'. split; [reflexivity|]. split; [exact Hfile | exact Hcache].
  - vm_compute in Hrun. discriminate Hrun.
Defined.

Lemma returned_snapshot_is_cached_witness :
  ∃ s w', registerPrinter Cases.intoTaller Cases.loaded = (Ok s, w') ∧
          getSnapshot None (withFile Unparsable w') = (Ok s, withFile Unparsable w').
Proof.
  destruct (registerPrinter Cases.intoTaller Cases.loaded) as [[s|e] w'] eqn:Hrun;
    [|vm_compute in Hrun; discriminate Hrun].
  exists s, w'. split; [reflexivity|].
  destruct (returned_snapshot_is_cached (CallRegisterPrinter Cases.intoTaller) Cases.loaded
              s w' Hrun) as (k & Hk & _ & Hmut & Hserve).
  apply (Hserve _ None); [reflexivity|].
  destruct (Hmut eq_refl) as (-> & _).
  pose proof Hrun as Hvalue. vm_compute in Hvalue. injection Hvalue as _ Hw.
  rewrite <- Hw. vm_compute. reflexivity.
Defined.

Lemma getSnapshot_without_seeding_witness :
  ∃ w', getSnapshot Samples.voron Cases.loaded = (Ok (current Cases.loaded), w') ∧
        file w' = Document Samples.workshop ∧ drawn w' = 0.
Proof.
  destruct (getSnapshot_without_seeding Cases.loaded Samples.voron)
    as (w' & Hrun & Hfile & Hdrawn & _).
  - intros k Hk. discriminate Hk.
  - left. discriminate.
  - exists w'. auto.
Defined.

Lemma register_then_removePrinter_witness :
  ∃ s1 w1 s2 w2,
    registerPrinter Cases.intoTaller Cases.loaded = (Ok s1, w1) ∧
    removePrinter "uuid-0" w1 = (Ok s2, w2) ∧
    printers s2 = [mkPrinter "p1" "Voron" "http://10.0.0.5" "n1" 2%float] ∧
    stateOf s2 "p1" = Some (Samples.state "Standby" "idle" JNull).
Proof.
  destruct (registerPrinter Cases.intoTaller Cases.loaded) as [[s1|e] w1] eqn:Hreg;
    [|vm_compute in Hreg; discriminate Hreg].
  pose proof Hreg as Hvalue. vm_compute in Hvalue. injection Hvalue as Hs1 Hw1.
  destruct (register_then_removePrinter Cases.loaded Cases.intoTaller "n1" s1 w1)
    as (s2 & w2 & Hrun & _ & Hp & Hs).
  - discriminate.
  - discriminate.
  - reflexivity.
  - apply someHasId_true. vm_compute. reflexivity.
  - reflexivity.
  - discriminate.
  - apply (bool_decide_unpack _). vm_compute. exact I.
  - exact Hreg.
  - rewrite <- Hs1. vm_compute. reflexivity.
  - exists s1, w1, s2, w2. split; [reflexivity|]. split; [exact Hrun|].
    rewrite Hp, Hs. split; reflexivity.
Defined.

End More_store_facts.

(** * The registry route *)

Section Registry_facts.
Import Store Store_calls StoreSpec Proxy Registry.
Variable writeFailureMessage : string.

Lemma POST_cases body w :
  (∃ message, POST writeFailureMessage body w = (Ok (rejected message), w)) ∨
  ∃ payload c, body = Parsed payload ∧ callOf payload = Some c ∧ isMutation c = true ∧
               POST writeFailureMessage body w = respond writeFailureMessage (run c) w.
Proof.
  destruct body as [payload|text why]; [|left; eexists; reflexivity].
  unfold POST.
  destruct (if is_object payload then _ else _) as [action|] eqn:Hact;
    [|left; eexists; reflexivity].
  destruct (String.eqb action "add-printer") eqn:H1;
    [right; eexists _, _; unfold callOf; rewrite Hact, H1; done|].
  destruct (String.eqb action "remove-printer") eqn:H2;
    [right; eexists _, _; unfold callOf; rewrite Hact, H1, H2; done|].
  destruct (String.eqb action "remove-node") eqn:H3;
    [right; eexists _, _; unfold callOf; rewrite Hact, H1, H2, H3; done|].
  destruct (String.eqb action "sync-states") eqn:H4;
    [right; eexists _, _; unfold callOf; rewrite Hact, H1, H2, H3, H4; done|].
  left; eexists; reflexivity.
Qed.

(** X10. A reply of [POST] with status 200 carries the snapshot that is, from
    then on, the content of the store file and of the cache (for 5000 ms),
    stamped with the time of the call. *)
Theorem registry_POST_persists body w reply w' :
  POST writeFailureMessage body w = (Ok reply, w') -> code reply = 200 ->
  ∃ s, envelope reply = JObj [("ok", JBool true); ("snapshot", to_json s)] ∧
       file w' = Document (stored (to_json s)) ∧
       cache w' = Some {| snapshot := s; expiresAt := (clock w + CACHE_TTL_MS)%float |} ∧
       updatedAt s = clock w.
Proof.
  intros Hpost Hcode.
  destruct (POST_cases body w) as [(message & Hrej) | (payload & c & _ & _ & Hmut & Hrun)].
  - rewrite Hrej in Hpost. injection Hpost as <- _. discriminate Hcode.
  - rewrite Hrun in Hpost. unfold respond in Hpost.
    destruct (run c w) as [[s|e] w1] eqn:Hc.
    + injection Hpost as <- <-. exists s. split; [reflexivity|].
      destruct (mutation_Ok c w s w1 Hmut Hc) as (m & k & Hs & ->).
      destruct (warned_same w) as (_ & _ & _ & Hclock & _).
      cbn. rewrite Hclock. split; [done|]. split; [done|]. by rewrite Hs.
    + injection Hpost as <- _. discriminate Hcode.
Qed.

(** X11. [POST] always replies, whatever the body and the state of the
    store: with status 200, or with status 400 and a failure envelope.  In
    the second case the cache is as it was, and so is the store file unless
    the write itself failed: the reply then carries the message of that
    failure and the file holds what the failed write left of it. *)
Theorem registry_POST_always_replies body w :
  ∃ reply w', POST writeFailureMessage body w = (Ok reply, w') ∧
    (code reply = 200 ∨
     (code reply = 400 ∧ cache w' = cache w ∧
      ((∃ message, envelope reply = failure message ∧ file w' = file w) ∨
       (envelope reply = failure writeFailureMessage ∧ writable w = false ∧
        file w' = default (file w) (torn w))))).
Proof.
  destruct (POST_cases body w) as [(message & Hrej) | (payload & c & _ & _ & Hmut & Hrun)].
  - exists (rejected message), w. split; [done|]. right. cbn. eauto 10.
  - rewrite Hrun. unfold respond. destruct (run c w) as [[s|e] w1] eqn:Hc.
    + eexists _, _. split; [reflexivity|]. by left.
    + eexists _, _. split; [reflexivity|]. right.
      destruct (failed_call c w e w1 Hc)
        as (Hcache & [(-> & Hw & Hfile) | (message & -> & _ & Hfile)]); cbn; eauto 10.
Qed.

Lemma parseStates_lookup value key :
  NoDup (entries value).*1 ->
  parseStates (Some value) !! key =
  fromEntries (entries value) !! key ≫= fun v => if is_object v then Some v else None.
Proof.
  intros Hnd. unfold parseStates.
  destruct (is_object value) eqn:Hobj.
  - apply option_eq. intros v.
    rewrite fromEntries_lookup by by apply NoDup_fst_filter.
    rewrite elem_of_List_filter.
    destruct (fromEntries (entries value) !! key) as [v'|] eqn:Hv; simpl.
    + apply fromEntries_lookup in Hv; [|done]. split.
      * intros [Hin Hv'].
        assert (v = v') as ->.
        { apply (fromEntries_lookup _ _ _ Hnd) in Hin, Hv. congruence. }
        by rewrite Hv'.
      * destruct (is_object v') eqn:Ho; [|done]. intros [= ->]. done.
    + split; [|done]. intros [Hin _].
      apply (fromEntries_lookup _ _ _ Hnd) in Hin. congruence.
  - assert (entries value = []) as -> by (by destruct value).
    unfold fromEntries. simpl. by rewrite !lookup_empty.
Qed.

Lemma isValidState_object v : isValidState v = true -> is_object v = true.
Proof. unfold isValidState. by intros [? _]%andb_true_iff. Qed.

Lemma upsertLoop_parseStates active value (m0 : gmap string JSON) :
  NoDup (entries value).*1 ->
  upsertLoop active (parseStates (Some value)) m0
  = upsertLoop active (fromEntries (entries value)) m0.
Proof.
  intros Hnd. apply map_eq. intros key. rewrite !upsertLoop_lookup.
  rewrite parseStates_lookup by done.
  destruct (fromEntries (entries value) !! key) as [v|]; simpl; [|done].
  destruct (is_object v) eqn:Hobj; [done|].
  destruct (isValidState v) eqn:Hvalid.
  - apply isValidState_object in Hvalid. congruence.
  - by rewrite andb_false_r.
Qed.

(** X12. The filter of [parseStates] changes nothing in the outcome of
    [upsertPrinterStates]: for states with pairwise distinct keys (what
    [JSON.parse] produces) the call with the filtered entries does what the
    call with all entries would do. *)
Theorem sync_states_filter_is_redundant value w :
  NoDup (entries value).*1 ->
  upsertPrinterStates (parseStates (Some value)) w
  = upsertPrinterStates (fromEntries (entries value)) w.
Proof.
  intros Hnd. unfold upsertPrinterStates. rewrite !updateSnapshot_eq.
  unfold upsertMutator. by rewrite upsertLoop_parseStates.
Qed.

(** X13. [POST] turns a field that is missing or not a string into the empty
    string: an add-printer request without a string name (or, the name given,
    without a string base URL), a remove-printer request without a string
    printer id and a remove-node request without a string node id are
    answered with status 400 and the store's error for the blank field, the
    store being neither read nor written. *)
Theorem registry_POST_missing_fields payload w :
  is_object payload = true ->
  (prop payload "action" = Some (JStr "add-printer") ->
   as_string (prop payload "name") = None ->
   POST writeFailureMessage (Parsed payload) w
   = (Ok (rejected "El nombre de la impresora es obligatorio."), w)) ∧
  (prop payload "action" = Some (JStr "add-printer") ->
   (∃ name, prop payload "name" = Some (JStr name) ∧ trim name ≠ "") ->
   as_string (prop payload "baseUrl") = None ->
   POST writeFailureMessage (Parsed payload) w
   = (Ok (rejected "La URL base es obligatoria."), w)) ∧
  (prop payload "action" = Some (JStr "remove-printer") ->
   as_string (prop payload "printerId") = None ->
   POST writeFailureMessage (Parsed payload) w
   = (Ok (rejected "Se requiere el identificador de la impresora."), w)) ∧
  (prop payload "action" = Some (JStr "remove-node") ->
   as_string (prop payload "nodeId") = None ->
   POST writeFailureMessage (Parsed payload) w
   = (Ok (rejected "Se requiere el identificador del nodo."), w)).
Proof.
  intros Hobj. unfold POST. rewrite Hobj. repeat split.
  - intros -> Hname. cbn. unfold respond, registerPrinter, addPrinterInput, stringOr.
    cbn. by rewrite Hname.
  - intros -> (name & Hname & Hne) Hurl. cbn -[trim].
    unfold respond, registerPrinter, addPrinterInput, stringOr.
    cbn -[trim]. rewrite Hname, Hurl. cbn -[trim].
    by rewrite (proj2 (String.eqb_neq _ _) Hne).
  - intros -> Hid. cbn. unfold respond, removePrinter, stringOr. by rewrite Hid.
  - intros -> Hid. cbn. unfold respond, removeNode, stringOr. by rewrite Hid.
Qed.

End Registry_facts.

Lemma registry_POST_persists_witness :
  ∃ reply w' s,
    Registry.POST "EACCES" (Proxy.Parsed Cases.removeP1) Cases.loaded
    = (Store.Ok reply, w') ∧
    Proxy.envelope reply = JObj [("ok", JBool true); ("snapshot", Store.to_json s)] ∧
    Store.printers s = [] ∧
    Store.file w' = Store.Document (Store.stored (Store.to_json s)).
Proof.
  destruct (Registry.POST "EACCES" (Proxy.Parsed Cases.removeP1) Cases.loaded)
    as [[reply|e] w'] eqn:Hpost; [|vm_compute in Hpost; discriminate Hpost].
  pose proof Hpost as Hvalue. vm_compute in Hvalue. injection Hvalue as Hreply Hw.
  destruct (registry_POST_persists "EACCES" _ _ _ _ Hpost) as (s & Henv & Hfile & _).
  - by rewrite <- Hreply.
  - exists reply, w', s. split; [reflexivity|]. split; [exact Henv|]. split; [|exact Hfile].
    rewrite <- Hreply in Henv. vm_compute in Henv. injection Henv as Hs.
    by destruct s as [? [|? ?] ? ?].
Defined.

Lemma sync_states_filter_is_redundant_witness :
  Store.upsertPrinterStates (Registry.parseStates (Some Cases.polled)) Cases.loaded
  = Store.upsertPrinterStates (fromEntries (entries Cases.polled)) Cases.loaded.
Proof.
  apply sync_states_filter_is_redundant.
  apply (bool_decide_unpack _). vm_compute. exact I.
Defined.

Lemma registry_POST_missing_fields_witness :
  Registry.POST "EACCES" (Proxy.Parsed Cases.addWithoutName) Cases.loaded
  = (Store.Ok (Registry.rejected "El nombre de la impresora es obligatorio."),
     Cases.loaded).
Proof.
  apply (registry_POST_missing_fields "EACCES" Cases.addWithoutName Cases.loaded);
    reflexivity.
Defined.

(** * More of the proxies *)

(** ** Order of binary64 numbers *)

Section Float_order.
Local Open Scope float_scope.

Lemma SFltb_false_leb a b :
  a ≠ S754_nan -> b ≠ S754_nan -> SFltb a b = false -> SFleb b a = true.
Proof.
  intros Ha Hb. unfold SFltb, SFleb.
  destruct a as [sa|sa| |sa ma ea], b as [sb|sb| |sb mb eb]; try done;
    try (by destruct sa, sb); try (by destruct sa); try (by destruct sb).
  unfold SFcompare.
  rewrite (Z.compare_antisym ea eb).
  change (Pos.compare_cont Eq mb ma) with (Pos.compare mb ma).
  change (Pos.compare_cont Eq ma mb) with (Pos.compare ma mb).
  rewrite (Pos.compare_antisym ma mb).
  destruct sa, sb; try done;
    destruct (ea ?= eb)%Z; simpl; try done;
    destruct (ma ?= mb)%positive; simpl; done.
Qed.

Lemma ltb_false_leb x y :
  PrimFloat.is_nan x = false -> PrimFloat.is_nan y = false ->
  (x <? y) = false -> (y <=? x) = true.
Proof.
  intros Hx Hy. rewrite FloatAxioms.ltb_spec, FloatAxioms.leb_spec.
  apply SFltb_false_leb.
  - intros H. by rewrite (Prim2SF_nan x H) in Hx.
  - intros H. by rewrite (Prim2SF_nan y H) in Hy.
Qed.

Lemma Math_max_1 x :
  PrimFloat.is_nan x = false ->
  PrimFloat.is_nan (Math_max x 1) = false ∧ (1 <=? Math_max x 1) = true.
Proof.
  intros Hx. unfold Math_max. rewrite Hx. change (PrimFloat.is_nan 1) with false. cbn [orb].
  destruct (1 <? x) eqn:H1; [split; [done | by apply ltb_leb]|].
  destruct (x <? 1) eqn:H2; [split; reflexivity|].
  destruct (_ && _); [|split; reflexivity].
  split; [done|]. by apply ltb_false_leb.
Qed.

Lemma Math_min_500 x :
  PrimFloat.is_nan x = false -> (1 <=? x) = true ->
  (1 <=? Math_min x 500) = true ∧ (Math_min x 500 <=? 500) = true.
Proof.
  intros Hx Hlo. unfold Math_min. rewrite Hx. change (PrimFloat.is_nan 500) with false.
  cbn [orb].
  destruct (x <? 500) eqn:H1; [split; [done | by apply ltb_leb]|].
  destruct (500 <? x) eqn:H2; [split; reflexivity|].
  destruct (_ && _); [|split; reflexivity].
  split; [done|]. by apply ltb_false_leb.
Qed.

Lemma Prim2SF_finite x :
  (∃ s, Prim2SF x = S754_zero s) ∨ (∃ s m e, Prim2SF x = S754_finite s m e) ->
  PrimFloat.is_finite x = true.
Proof.
  intros Hx. unfold PrimFloat.is_finite, PrimFloat.is_nan, PrimFloat.is_infinity.
  rewrite !FloatAxioms.eqb_spec, FloatAxioms.abs_spec.
  change (Prim2SF infinity) with (S754_infinity false).
  destruct Hx as [[s ->] | (s & m & e & ->)]; [reflexivity|].
  unfold SFeqb. rewrite SFcompare_refl by done. reflexivity.
Qed.

Lemma between_0_100_finite r :
  (0 <=? r) = true -> (r <=? 100) = true -> PrimFloat.is_finite r = true.
Proof.
  rewrite !FloatAxioms.leb_spec, Prim2SF_0, Prim2SF_100. intros Hlo Hhi.
  apply Prim2SF_finite.
  destruct (Prim2SF r) as [s|s| |s m e]; eauto; try done.
  by destruct s.
Qed.

End Float_order.

(** ** What the overview and the console report *)

Section Proxy_facts.
Import Proxy ProxySpec.
Variable newURL : string -> option (string * string).
Variables invalidUrlMessage abortMessage : string.
Variables Number parseInt10 : string -> float.
Variable numberToString : float -> string.
Variable sortEs : list string -> list string.
Variable flatMapMessage : string.
Variable statusMessage : nat -> string.

(** X14. The count printer-console asks Moonraker for is always a number
    from 1 to 500, whatever the [count] parameter and whatever [parseInt]
    makes of it. *)
Theorem resolveCount_within_bounds raw :
  (1 <=? resolveCount parseInt10 raw)%float = true ∧
  (resolveCount parseInt10 raw <=? 500)%float = true.
Proof.
  unfold resolveCount. destruct raw as [raw|]; [|by vm_compute].
  destruct (String.eqb raw ""); [by vm_compute|].
  destruct (isFinite (parseInt10 raw)) eqn:Hfin; [|by vm_compute]. cbn [negb].
  apply finite_not_nan in Hfin.
  destruct (Math_max_1 _ Hfin) as [Hnan Hlo].
  by apply Math_min_500.
Qed.

Lemma buildNumber_finite value n :
  buildNumber Number value = Some n -> isFinite n = true.
Proof.
  unfold buildNumber. destruct value as [[| |x|text| |]|]; try done.
  - destruct (isFinite x) eqn:Hx; [|done]. by intros [= <-].
  - destruct (String.eqb _ _); [done|].
    destruct (isFinite (Number (trim text))) eqn:Hx; [|done]. by intros [= <-].
Qed.

Lemma buildProgress_range value r :
  buildProgress Number value = Some r ->
  (0 <=? r)%float = true ∧ (r <=? 100)%float = true ∧ isFinite r = true.
Proof.
  unfold buildProgress. destruct (buildNumber Number value) as [num|] eqn:Hnum; [|done].
  intros [= <-]. apply buildNumber_finite in Hnum.
  destruct (clamped_spec _ (normalized_not_nan num Hnum)) as (_ & Hlo & Hhi).
  split; [done|]. split; [done|]. by apply between_0_100_finite.
Qed.

Lemma numberOrNull_finite x :
  (∀ n, x = Some n -> isFinite n = true) ->
  numberOrNull x = JNull ∨ ∃ n, numberOrNull x = JNum n ∧ isFinite n = true.
Proof. destruct x as [n|]; [right|left]; eauto. Qed.

Lemma orElse_Some {A : Type} (P : A -> Prop) (a b : option A) x :
  (∀ y, a = Some y -> P y) -> (∀ y, b = Some y -> P y) -> orElse a b = Some x -> P x.
Proof. destruct a; simpl; eauto. Qed.

Lemma overview_reading base payload path :
  path ∈ overviewReadings ->
  ∃ x, at_path path (overviewData Number base payload) = Some x ∧ nullOrFinite x.
Proof.
  intros Hin. unfold overviewReadings in Hin. unfold nullOrFinite.
  repeat (apply elem_of_cons in Hin as [-> | Hin]);
    [..|by apply elem_of_nil in Hin];
    (eexists; split; [reflexivity|]; apply numberOrNull_finite).
  all: try (intros n; apply buildNumber_finite).
  intros n. apply (orElse_Some (fun y => isFinite y = true)); [apply buildNumber_finite|].
  intros y. apply (orElse_Some (fun y => isFinite y = true)); apply buildNumber_finite.
Qed.

(** X15. Whatever Moonraker answered, every temperature, target, speed and
    duration of the overview reply is [null] or a finite number, and its
    progress is [null] or a number from 0 to 100. *)
Theorem overview_numbers base payload :
  Forall (fun path =>
            ∃ x, at_path path (overviewData Number base payload) = Some x ∧ nullOrFinite x)
         overviewReadings ∧
  ∃ x, at_path overviewProgress (overviewData Number base payload) = Some x ∧
       nullOrPercent x.
Proof.
  split.
  - apply Forall_forall. intros path Hin. by apply overview_reading.
  - eexists. split; [reflexivity|]. unfold nullOrPercent.
    match goal with |- numberOrNull ?p = _ ∨ _ => destruct p as [r|] eqn:Hp end;
      [|by left].
    right. exists r. split; [done|].
    assert ((0 <=? r)%float = true ∧ (r <=? 100)%float = true ∧ isFinite r = true) as H.
    { revert Hp.
      apply (orElse_Some (fun r => (0 <=? r)%float = true ∧ (r <=? 100)%float = true ∧
                                   isFinite r = true)); apply buildProgress_range. }
    tauto.
Qed.

End Proxy_facts.

(** ** Macro names *)

Section Macro_facts.
Import Proxy ProxySpec.

Lemma slice_app p s : slice (String.length p) (p ++ s) = s.
Proof. induction p as [|c p IH]; simpl; [by destruct s | exact IH]. Qed.

Lemma normalizeMacroName_prefixed name :
  normalizeMacroName (macroPrefix ++ name) = name.
Proof.
  unfold normalizeMacroName.
  assert (String.prefix macroPrefix (macroPrefix ++ name) = true) as ->
    by (apply prefix_iff; eauto).
  rewrite slice_app. reflexivity.
Qed.

Lemma macros_of_text text name :
  name ∈ (if String.prefix macroPrefix text then [normalizeMacroName text] else []) ↔
  text = macroPrefix ++ name.
Proof.
  destruct (String.prefix macroPrefix text) eqn:Hp.
  - apply prefix_iff in Hp as [after ->]. rewrite normalizeMacroName_prefixed.
    rewrite list_elem_of_singleton. split; [by intros ->|].
    intros H. by injection H.
  - split; [by intros ?%elem_of_nil|]. intros ->.
    assert (String.prefix macroPrefix (macroPrefix ++ name) = true)
      by (apply prefix_iff; eauto).
    congruence.
Qed.

Lemma macroOf_declares entry name : name ∈ macroOf entry ↔ declaresMacro name entry.
Proof.
  unfold declaresMacro. destruct entry as [|b|n|text|items|fields]; cbn [macroOf].
  1-3, 5: split; [by intros ?%elem_of_nil | by intros [? | (? & ? & _)]].
  - rewrite macros_of_text. split; [intros ->; by left|].
    intros [[= ->] | (? & ? & _)]; done.
  - destruct (assoc "name" fields) as [[| | |text| |]|] eqn:Hname.
    4:{ rewrite macros_of_text. split.
        - intros ->. right. eauto.
        - intros [? | (fields' & [= <-] & H)]; [done|]. rewrite Hname in H.
          by injection H. }
    all: split; [by intros ?%elem_of_nil|].
    all: intros [? | (fields' & [= <-] & H)]; [done|]; by rewrite Hname in H.
Qed.

Lemma firstOccurrences_spec seen names :
  NoDup (firstOccurrences seen names) ∧
  ∀ x, x ∈ firstOccurrences seen names ↔ x ∈ names ∧ x ∉ seen.
Proof.
  revert seen. induction names as [|name rest IH]; intros seen; cbn [firstOccurrences].
  - split; [constructor|]. intros x. rewrite elem_of_nil. tauto.
  - case_bool_decide as Hseen.
    + destruct (IH seen) as [Hnd Hin]. split; [done|]. intros x.
      rewrite Hin, elem_of_cons. split; intros [H1 H2]; (split; [|exact H2]).
      * by right.
      * destruct H1 as [-> | H1]; [contradiction | exact H1].
    + destruct (IH (name :: seen)) as [Hnd Hin]. split.
      * apply NoDup_cons. split; [|done].
        intros [_ Hno]%Hin. apply Hno. by left.
      * intros x. split.
        -- intros [-> | [H1 H2]%Hin]%elem_of_cons; [split; [by left | exact Hseen]|].
           split; [by right|]. intros H. apply H2. by right.
        -- intros [[-> | H1]%elem_of_cons H2]; [by left|].
           destruct (decide (x = name)) as [->|Hne]; [by left|]. right.
           apply Hin. split; [exact H1|].
           intros [-> | H]%elem_of_cons; contradiction.
Qed.

Lemma macroNames_spec items :
  NoDup (macroNames items) ∧
  ∀ name, name ∈ macroNames items ↔ ∃ entry, entry ∈ items ∧ declaresMacro name entry.
Proof.
  unfold macroNames. destruct (firstOccurrences_spec [] (flat_map macroOf items)) as [Hnd Hin].
  split; [done|]. intros name. rewrite Hin, list_elem_of_In, in_flat_map.
  split.
  - intros [(entry & He & Hn) _]. exists entry.
    split; [by apply list_elem_of_In|]. by apply macroOf_declares, list_elem_of_In.
  - intros (entry & He & Hn). split; [|apply not_elem_of_nil].
    exists entry. split; [by apply list_elem_of_In|].
    by apply list_elem_of_In, macroOf_declares.
Qed.

End Macro_facts.

(** ** The base URL, the deadline of printer-info, the macros reply *)

Section Base_url_facts.
Import Proxy ProxySpec.
Variable newURL : string -> option (string * string).
Variables invalidUrlMessage abortMessage : string.
Variables Number parseInt10 : string -> float.
Variable numberToString : float -> string.
Variable sortEs : list string -> list string.
Variable flatMapMessage : string.
Variable statusMessage : nat -> string.

Let overview := overviewGET newURL invalidUrlMessage abortMessage Number statusMessage.
Let console :=
  consoleGET newURL invalidUrlMessage abortMessage parseInt10 numberToString statusMessage.
Let macros :=
  macrosGET newURL invalidUrlMessage abortMessage sortEs flatMapMessage statusMessage.
Let info := InfoProxy.GET newURL invalidUrlMessage abortMessage statusMessage.

Lemma resolveBaseUrl_bad unsupported raw :
  badBaseUrl newURL raw ->
  resolveBaseUrl newURL invalidUrlMessage unsupported (Some raw)
  = inr (rejection newURL invalidUrlMessage unsupported raw).
Proof.
  intros [Hne Hbad]. unfold resolveBaseUrl, rejection.
  rewrite (proj2 (String.eqb_neq _ _) Hne).
  destruct Hbad as [-> | (protocol & origin & -> & H1 & H2)]; [done|].
  by rewrite (proj2 (String.eqb_neq _ _) H1), (proj2 (String.eqb_neq _ _) H2).
Qed.


(** X16. A [baseUrl] parameter that is not empty and that [new URL] rejects,
    or whose protocol is neither http nor https, makes printer-overview,
    printer-console, printer-macros and printer-info reply with status 400
    and the reason, without any request to a controller. *)
Theorem bad_baseUrl_rejected raw count net :
  badBaseUrl newURL raw ->
  overview (Some raw) net
  = Some {| code := 400;
            envelope :=
              failure (rejection newURL invalidUrlMessage "Protocolo no soportado" raw) |} ∧
  console (Some raw) count net
  = Some {| code := 400;
            envelope :=
              failure (rejection newURL invalidUrlMessage "Unsupported protocol" raw) |} ∧
  macros (Some raw) net
  = Some {| code := 400;
            envelope :=
              failure (rejection newURL invalidUrlMessage "Unsupported protocol" raw) |} ∧
  info (Some raw) net
  = Some {| code := 400;
            envelope :=
              failure (rejection newURL invalidUrlMessage "Unsupported protocol" raw) |}.
Proof.
  intros Hbad.
  unfold overview, console, macros, info, overviewGET, consoleGET, macrosGET, InfoProxy.GET.
  by rewrite !resolveBaseUrl_bad.
Qed.


(** X18. printer-info applies the 8 second deadline: to a controller that is
    silent or answers at 8 seconds or later it replies with the failure
    envelope of the abort.  An answer in time with a 2xx status and a JSON
    body is served as [data]: its [result] when that is neither missing nor
    [null], the whole body otherwise. *)
Theorem info_gives_up_after_8s :
  gives_up_after 8000
    {| code := failureStatus abortMessage;
       envelope := failure ("Moonraker request failed: " ++ abortMessage) |}
    (info None) ∧
  (∀ t response payload,
     (t < 8000)%N -> ok response = true -> body response = Parsed payload ->
     info None (fun _ => Responds t response)
     = Some {| code := 200;
               envelope := JObj [("ok", JBool true);
                                 ("data", match prop payload "result" with
                                          | None | Some JNull => payload
                                          | Some result => result
                                          end);
                                 ("baseUrl", JStr DEFAULT_BASE_URL)] |}).
Proof.
  split.
  - unfold gives_up_after, info, InfoProxy.GET. cbn [resolveBaseUrl].
    split; [reflexivity|]. split.
    + intros t r. rewrite (fetch_late abortMessage 8000 t); [reflexivity | eauto].
    + intros t message. rewrite (fetch_late abortMessage 8000 t); [reflexivity | eauto].
  - intros t response payload Ht Hok Hbody.
    unfold info, InfoProxy.GET. cbn [resolveBaseUrl fetch].
    rewrite (proj2 (N.ltb_lt _ _) Ht), Hok, Hbody. reflexivity.
Qed.

(** X19. When Moonraker answers the object list, printer-macros lists every
    macro the list declares (as a string [gcode_macro NAME] or as an object
    with that name) exactly once, without the prefix, given that the sort
    only permutes the names. *)
Theorem macros_listed_once items payload t response net :
  (∀ names, sortEs names ≡ₚ names) ->
  net (get (DEFAULT_BASE_URL ++ "/printer/objects/list")) = Responds t response ->
  ok response = true -> body response = Parsed payload ->
  coalesce (chain (prop payload "result") "objects")
           (coalesce (prop payload "result") (JArr [])) = JArr items ->
  ∃ names,
    macros None net
    = Some {| code := 200;
              envelope :=
                JObj [("ok", JBool true);
                      ("baseUrl", JStr DEFAULT_BASE_URL);
                      ("macros",
                       JArr (List.map (fun name => JObj [("name", JStr name)]) names))] |} ∧
    NoDup names ∧
    ∀ name, name ∈ names ↔ ∃ entry, entry ∈ items ∧ declaresMacro name entry.
Proof.
  intros Hsort Hnet Hok Hbody Hobjects.
  exists (sortEs (macroNames items)). split.
  - unfold macros, macrosGET. cbn [resolveBaseUrl].
    change {| method := "GET"; url := ?u; payload := None |} with (get u).
    rewrite Hnet. cbn [fetch]. rewrite Hok, Hbody. cbn [negb]. cbv zeta.
    rewrite Hobjects. reflexivity.
  - destruct (macroNames_spec items) as [Hnd Hin]. split.
    + by rewrite Hsort.
    + intros name. by rewrite Hsort.
Qed.

End Base_url_facts.

Lemma bad_baseUrl_rejected_witness :
  Proxy.overviewGET Cases.parseUrl "Invalid URL" "This operation was aborted"
    (fun _ => PrimFloat.nan) Cases.statusError (Some "ftp://10.0.0.5")
    (fun _ => Proxy.Silent)
  = Some {| Proxy.code := 400;
            Proxy.envelope :=
              Proxy.failure "Invalid baseUrl provided: Protocolo no soportado" |} ∧
  InfoProxy.GET Cases.parseUrl "Invalid URL" "This operation was aborted"
    Cases.statusError (Some "10.0.0.5") (fun _ => Proxy.Silent)
  = Some {| Proxy.code := 400;
            Proxy.envelope := Proxy.failure "Invalid baseUrl provided: Invalid URL" |}.
Proof.
  split.
  - apply (bad_baseUrl_rejected Cases.parseUrl "Invalid URL" "This operation was aborted"
             (fun _ => PrimFloat.nan) (fun _ => PrimFloat.nan) (fun _ => "200")
             (fun names => names) "objects.flatMap is not a function" Cases.statusError
             "ftp://10.0.0.5" None (fun _ => Proxy.Silent)).
    split; [discriminate|]. right. exists "ftp:", "ftp://10.0.0.5".
    split; [reflexivity|]. split; discriminate.
  - apply (bad_baseUrl_rejected Cases.parseUrl "Invalid URL" "This operation was aborted"
             (fun _ => PrimFloat.nan) (fun _ => PrimFloat.nan) (fun _ => "200")
             (fun names => names) "objects.flatMap is not a function" Cases.statusError
             "10.0.0.5" None (fun _ => Proxy.Silent)).
    split; [discriminate|]. left. reflexivity.
Defined.


Lemma info_gives_up_after_8s_witness :
  InfoProxy.GET Cases.parseUrl "Invalid URL" "This operation was aborted"
    Cases.statusError None
    (fun _ => Proxy.Responds 5
                {| Proxy.status := 200;
                   Proxy.body := Proxy.Parsed (JObj [("result", Cases.deviceInfo)]) |})
  = Some {| Proxy.code := 200;
            Proxy.envelope := JObj [("ok", JBool true); ("data", Cases.deviceInfo);
                                    ("baseUrl", JStr "http://192.168.1.17")] |}.
Proof.
  apply (proj2 (info_gives_up_after_8s Cases.parseUrl "Invalid URL"
                  "This operation was aborted" Cases.statusError) 5%N
               {| Proxy.status := 200;
                  Proxy.body := Proxy.Parsed (JObj [("result", Cases.deviceInfo)]) |}
               (JObj [("result", Cases.deviceInfo)])); reflexivity.
Defined.

Lemma macros_listed_once_witness :
  ∃ names,
    Proxy.macrosGET Cases.parseUrl "Invalid URL" "This operation was aborted"
      (fun names => names) "objects.flatMap is not a function" Cases.statusError None
      (Cases.answering Cases.objectList)
    = Some {| Proxy.code := 200;
              Proxy.envelope :=
                JObj [("ok", JBool true);
                      ("baseUrl", JStr "http://192.168.1.17");
                      ("macros",
                       JArr (List.map (fun name => JObj [("name", JStr name)]) names))] |} ∧
    NoDup names ∧ "PARK" ∈ names ∧ "LOAD" ∈ names ∧ "toolhead" ∉ names.
Proof.
  destruct (macros_listed_once Cases.parseUrl "Invalid URL" "This operation was aborted"
              (fun names => names) "objects.flatMap is not a function" Cases.statusError
              [JStr "gcode_macro PARK"; JStr "toolhead";
               JObj [("name", JStr "gcode_macro PARK")]; JStr "gcode_macro LOAD"]
              Cases.objectList 0%N
              {| Proxy.status := 200; Proxy.body := Proxy.Parsed Cases.objectList |}
              (Cases.answering Cases.objectList))
    as (names & Hreply & Hnd & Hin); try reflexivity.
  exists names. split; [exact Hreply|]. split; [exact Hnd|].
  split; [|split].
  - apply Hin. eexists. split; [left|]. by left.
  - apply Hin. eexists. split; [do 3 right; left|]. by left.
  - intros (entry & Hentry & Hdecl)%Hin.
    repeat (apply elem_of_cons in Hentry as [-> | Hentry]);
      [..|by apply elem_of_nil in Hentry];
      destruct Hdecl as [Hd | (fields & Hf & Hd)]; try discriminate.
    injection Hf as <-. discriminate Hd.
Defined.

(** * printer-control *)

Section Control_facts.
Import Proxy ProxySpec ControlProxy.
Variable newURL : string -> option (string * string).
Variables invalidUrlMessage abortMessage : string.
Variable NumberOf : option JSON -> option float.
Variable numberToString : float -> string.
Variable keyOf : JSON -> option string.
Variable statusMessage : nat -> string.

Let build := buildActionConfig NumberOf numberToString keyOf.
Let post :=
  POST newURL invalidUrlMessage NumberOf numberToString keyOf statusMessage abortMessage.

Lemma send_is_sendCommand config base net :
  send statusMessage abortMessage "POST" (base ++ path config) (actionBody config) net
  = sendCommand abortMessage statusMessage config base net.
Proof. reflexivity. Qed.


Lemma inherited_built name value :
  name ∈ inheritedNames -> build (JStr name) value = Inherited.
Proof.
  intros Hin. unfold inheritedNames in Hin.
  repeat (apply elem_of_cons in Hin as [-> | Hin]; [reflexivity|]).
  by apply elem_of_nil in Hin.
Qed.

Lemma inherited_truthy name : name ∈ inheritedNames -> truthy (JStr name) = true.
Proof.
  intros Hin. unfold inheritedNames in Hin.
  repeat (apply elem_of_cons in Hin as [-> | Hin]; [reflexivity|]).
  by apply elem_of_nil in Hin.
Qed.


(** X21. printer-control replies with status 400, without a request to the
    controller, to a body that is not JSON, to a missing or falsy action, to
    a base URL that is not accepted (whatever the action) and to an action
    [buildActionConfig] refuses. *)
Theorem control_POST_rejects body net :
  (∀ text why, body = Malformed text why ->
     post body net
     = Replies {| code := 400;
                  envelope := failure ("No se pudo parsear la solicitud: " ++ why) |}) ∧
  (∀ payload, body = Parsed payload ->
     (prop payload "action" = None ∨
      ∃ action, prop payload "action" = Some action ∧ truthy action = false) ->
     post body net = Replies {| code := 400; envelope := failure "Acción no soportada" |}) ∧
  (∀ payload action raw, body = Parsed payload ->
     prop payload "action" = Some action -> truthy action = true ->
     prop payload "baseUrl" = Some (JStr raw) -> trim raw ≠ "" ->
     badBaseUrl newURL raw ->
     post body net
     = Replies {| code := 400;
                  envelope :=
                    failure (rejection newURL invalidUrlMessage "Protocolo no soportado"
                                       raw) |}) ∧
  (∀ payload action base error, body = Parsed payload ->
     prop payload "action" = Some action -> truthy action = true ->
     resolveBaseUrl newURL invalidUrlMessage (prop payload "baseUrl") = inl base ->
     build action (prop payload "value") = Invalid error ->
     post body net = Replies {| code := 400; envelope := failure error |}).
Proof.
  unfold post, POST. repeat split.
  - by intros text why ->.
  - intros payload -> [-> | (action & -> & ->)]; reflexivity.
  - intros payload action raw -> -> -> Hraw Hne Hbad. cbn [negb].
    rewrite Hraw. unfold resolveBaseUrl.
    rewrite (proj2 (String.eqb_neq _ _) Hne).
    destruct Hbad as [Hraw' Hbad]. unfold Proxy.resolveBaseUrl, rejection.
    rewrite (proj2 (String.eqb_neq _ _) Hraw').
    destruct Hbad as [-> | (protocol & origin & -> & H1 & H2)]; [done|].
    by rewrite (proj2 (String.eqb_neq _ _) H1), (proj2 (String.eqb_neq _ _) H2).
  - intros payload action base error -> -> -> -> Hbuild. cbn [negb].
    unfold build in Hbuild. by rewrite Hbuild.
Qed.

(** X22. An action named like a member of [Object.prototype] is not refused:
    [buildActionConfig] returns the inherited member, and the handler sends a
    GET request to [/undefined] under the base URL.  A connection failure is
    answered with status 502, and an error status of the controller that a
    reply can carry, and that is not a redirect, is passed on. *)
Theorem control_inherited_action payload name base net :
  prop payload "action" = Some (JStr name) -> name ∈ inheritedNames ->
  resolveBaseUrl newURL invalidUrlMessage (prop payload "baseUrl") = inl base ->
  build (JStr name) (prop payload "value") = Inherited ∧
  (∀ t message,
     net (get (base ++ "/undefined")) = Refuses t message ->
     post (Parsed payload) net
     = Replies {| code := 502;
                  envelope := failure ("Fallo al contactar Moonraker: " ++ message) |}) ∧
  (∀ t response,
     net (get (base ++ "/undefined")) = Responds t response ->
     ok response = false -> takesBody (status response) = true ->
     (status response ∉ redirects) ->
     post (Parsed payload) net
     = Replies {| code := status response;
                  envelope := failure ("Moonraker respondió con estado " ++
                                       pretty (status response)) |}).
Proof.
  intros Haction Hin Hbase.
  pose proof (inherited_built name (prop payload "value") Hin) as Hbuilt.
  split; [exact Hbuilt|].
  unfold post, POST. rewrite Haction, Hbase, (inherited_truthy name Hin). cbn [negb].
  unfold build in Hbuilt. rewrite Hbuilt. unfold send.
  change {| method := "GET"; url := ?u; payload := None |} with (get u).
  split.
  - intros t message ->. reflexivity.
  - intros t response -> Hok Hbody _. cbn [fetch]. by rewrite Hok, Hbody.
Qed.

End Control_facts.


Lemma control_POST_rejects_witness :
  ControlProxy.POST Cases.parseUrl "Invalid URL" (fun _ => Some PrimFloat.nan)
    (fun _ => "60") (fun _ => None) Cases.statusError "This operation was aborted"
    (Proxy.Parsed (JObj [("action", JStr "gcode_script"); ("value", JStr Samples.nbsp)]))
    (fun _ => Proxy.Silent)
  = ControlProxy.Replies {| Proxy.code := 400;
                            Proxy.envelope := Proxy.failure "Comando GCode inválido" |}.
Proof.
  destruct (control_POST_rejects Cases.parseUrl "Invalid URL" "This operation was aborted"
              (fun _ => Some PrimFloat.nan) (fun _ => "60") (fun _ => None)
              Cases.statusError
              (Proxy.Parsed (JObj [("action", JStr "gcode_script");
                                   ("value", JStr Samples.nbsp)]))
              (fun _ => Proxy.Silent)) as (_ & _ & _ & H).
  apply (H (JObj [("action", JStr "gcode_script"); ("value", JStr Samples.nbsp)])
           (JStr "gcode_script") "http://192.168.1.17"); reflexivity.
Defined.

Lemma control_inherited_action_witness :
  ControlProxy.POST Cases.parseUrl "Invalid URL" (fun _ => None) (fun _ => "60")
    (fun _ => None) Cases.statusError "This operation was aborted"
    (Proxy.Parsed (JObj [("action", JStr "constructor")]))
    (fun _ => Proxy.Responds 0 {| Proxy.status := 404; Proxy.body := Proxy.Parsed JNull |})
  = ControlProxy.Replies
      {| Proxy.code := 404;
         Proxy.envelope := Proxy.failure "Moonraker respondió con estado 404" |}.
Proof.
  destruct (control_inherited_action Cases.parseUrl "Invalid URL"
              "This operation was aborted" (fun _ => None) (fun _ => "60") (fun _ => None)
              Cases.statusError
              (JObj [("action", JStr "constructor")]) "constructor" "http://192.168.1.17"
              (fun _ => Proxy.Responds 0
                          {| Proxy.status := 404; Proxy.body := Proxy.Parsed JNull |}))
    as (_ & _ & H).
  - reflexivity.
  - apply (bool_decide_unpack _). vm_compute. exact I.
  - reflexivity.
  - apply (H 0%N {| Proxy.status := 404; Proxy.body := Proxy.Parsed JNull |}).
    + reflexivity.
    + reflexivity.
    + reflexivity.
    + apply (bool_decide_unpack _). vm_compute. exact I.
Defined.

(** * The pages *)

(** ** Trimming twice *)

Section Trim_facts.

Lemma append_nil s : "" ++ s = s.
Proof. reflexivity. Qed.

Lemma append_cons c a b : String c a ++ b = String c (a ++ b).
Proof. reflexivity. Qed.

Lemma append_assoc (a b c : string) : (a ++ b) ++ c = a ++ b ++ c.
Proof. induction a as [|x a IH]; [done|]. by rewrite !append_cons, IH. Qed.

Lemma length_append (a b : string) :
  String.length (a ++ b) = String.length a + String.length b.
Proof. induction a as [|x a IH]; [done|]. rewrite append_cons. cbn. by rewrite IH. Qed.

Lemma list_ascii_of_string_append (a b : string) :
  list_ascii_of_string (a ++ b) = (list_ascii_of_string a ++ list_ascii_of_string b)%list.
Proof. induction a as [|x a IH]; [done|]. rewrite append_cons. cbn. by rewrite IH. Qed.

Lemma string_of_list_ascii_append (l1 l2 : list ascii) :
  string_of_list_ascii (l1 ++ l2) = string_of_list_ascii l1 ++ string_of_list_ascii l2.
Proof. induction l1 as [|x l1 IH]; [done|]. cbn. by rewrite IH, append_cons. Qed.

Lemma reversed_involutive s : reversed (reversed s) = s.
Proof.
  unfold reversed.
  by rewrite list_ascii_of_string_of_list_ascii, rev_involutive,
    string_of_list_ascii_of_string.
Qed.

Lemma reversed_append (a b : string) : reversed (a ++ b) = reversed b ++ reversed a.
Proof.
  unfold reversed.
  by rewrite list_ascii_of_string_append, rev_app_distr, string_of_list_ascii_append.
Qed.

Lemma length_reversed s : String.length (reversed s) = String.length s.
Proof.
  rewrite <- (reversed_involutive s) at 2. unfold reversed at 2 3.
  unfold reversed.
  assert (∀ l, String.length (string_of_list_ascii l) = length l) as Hlen.
  { induction l as [|x l IH]; [done|]. cbn. by rewrite IH. }
  by rewrite !Hlen, !length_rev, list_ascii_of_string_of_list_ascii, length_rev.
Qed.

Lemma afterPrefix_Some p s rest : afterPrefix p s = Some rest ↔ s = p ++ rest.
Proof.
  revert s. induction p as [|a p IH]; intros s.
  - rewrite append_nil. destruct s; cbn; split; congruence.
  - rewrite append_cons. destruct s as [|b s]; cbn; [split; congruence|].
    destruct (Ascii.eqb a b) eqn:Hab.
    + apply Ascii.eqb_eq in Hab as ->. rewrite IH. split; congruence.
    + apply Ascii.eqb_neq in Hab. split; congruence.
Qed.

Lemma afterSpace_Some spaces s rest :
  afterSpace spaces s = Some rest -> ∃ space, space ∈ spaces ∧ s = space ++ rest.
Proof.
  induction spaces as [|space spaces IH]; [done|]. cbn.
  destruct (afterPrefix space s) as [rest'|] eqn:Hp.
  - intros [= ->]. apply afterPrefix_Some in Hp. exists space. split; [left | done].
  - intros (space' & Hin & Hs)%IH. exists space'. split; [by right | done].
Qed.

Lemma afterSpace_starts spaces space rest :
  space ∈ spaces -> is_Some (afterSpace spaces (space ++ rest)).
Proof.
  induction spaces as [|space' spaces IH]; [by intros ?%elem_of_nil|].
  intros [-> | Hin]%elem_of_cons; cbn.
  - by rewrite (proj2 (afterPrefix_Some space' (space' ++ rest) rest) eq_refl).
  - destruct (afterPrefix space' (space ++ rest)); [done | by apply IH].
Qed.

Lemma dropSpaces_suffix spaces fuel s :
  ∃ dropped, s = dropped ++ dropSpaces spaces fuel s.
Proof.
  revert s. induction fuel as [|fuel IH]; intros s; cbn; [by exists ""|].
  destruct (afterSpace spaces s) as [rest|] eqn:Hs; [|by exists ""].
  apply afterSpace_Some in Hs as (space & _ & ->).
  destruct (IH rest) as [dropped Hd]. exists (space ++ dropped).
  by rewrite append_assoc, <- Hd.
Qed.

Lemma dropSpaces_fix spaces fuel s :
  afterSpace spaces s = None -> dropSpaces spaces fuel s = s.
Proof. intros Hs. destruct fuel; cbn; [done | by rewrite Hs]. Qed.

Lemma dropSpaces_done spaces fuel s :
  Forall (fun space => space ≠ "") spaces -> (String.length s <= fuel)%nat ->
  afterSpace spaces (dropSpaces spaces fuel s) = None.
Proof.
  intros Hne. revert s. induction fuel as [|fuel IH]; intros s Hlen; cbn.
  - destruct s; [|cbn in Hlen; lia].
    destruct (afterSpace spaces "") as [rest|] eqn:Hs; [|done].
    apply afterSpace_Some in Hs as (space & Hin & Hs).
    rewrite Forall_forall in Hne. specialize (Hne space Hin).
    destruct space; [done | discriminate Hs].
  - destruct (afterSpace spaces s) as [rest|] eqn:Hs; [|done].
    apply IH. apply afterSpace_Some in Hs as (space & Hin & ->).
    rewrite Forall_forall in Hne. specialize (Hne space Hin).
    rewrite length_append in Hlen. destruct space; [done|]. cbn in Hlen. lia.
Qed.

Lemma whiteSpace_nonempty :
  Forall (fun space => space ≠ "") whiteSpace ∧
  Forall (fun space => space ≠ "") (List.map reversed whiteSpace).
Proof. split; apply (bool_decide_unpack _); vm_compute; exact I. Qed.

(** What is left after trimming starts and ends with no white space. *)
Lemma trim_spec s :
  ∃ before after,
    s = before ++ trim s ++ after ∧
    afterSpace whiteSpace (trim s) = None ∧
    afterSpace (List.map reversed whiteSpace) (reversed (trim s)) = None.
Proof.
  destruct whiteSpace_nonempty as [Hne Hne'].
  unfold trim, trimStart, trimEnd.
  set (r := dropSpaces whiteSpace (String.length s) s).
  set (q := dropSpaces (List.map reversed whiteSpace) (String.length r) (reversed r)).
  destruct (dropSpaces_suffix whiteSpace (String.length s) s) as [before Hbefore].
  destruct (dropSpaces_suffix (List.map reversed whiteSpace) (String.length r) (reversed r))
    as [dropped Hdropped].
  fold r in Hbefore. fold q in Hdropped.
  assert (r = reversed q ++ reversed dropped) as Hr.
  { by rewrite <- reversed_append, <- Hdropped, reversed_involutive. }
  exists before, (reversed dropped). split; [by rewrite <- Hr|].
  split.
  - destruct (afterSpace whiteSpace (reversed q)) as [rest|] eqn:Hq; [|done].
    apply afterSpace_Some in Hq as (space & Hin & Hq).
    assert (afterSpace whiteSpace r = None) as Hnone by (by apply dropSpaces_done).
    destruct (afterSpace_starts whiteSpace space (rest ++ reversed dropped) Hin)
      as [x Hx].
    rewrite <- append_assoc, <- Hq, <- Hr in Hx. congruence.
  - rewrite reversed_involutive. apply dropSpaces_done; [done|].
    by rewrite length_reversed.
Qed.

Lemma trim_idempotent s : trim (trim s) = trim s.
Proof.
  destruct (trim_spec s) as (_ & _ & _ & Hstart & Hend).
  unfold trim at 1. unfold trimStart, trimEnd.
  rewrite (dropSpaces_fix _ _ _ Hstart), (dropSpaces_fix _ _ _ Hend).
  apply reversed_involutive.
Qed.

End Trim_facts.

(** ** Device names and base URLs *)

Section Page_facts.
Import Store Store_calls Proxy Page.

Lemma firstName_spec candidates name :
  firstName candidates = Some name ->
  name ≠ "" ∧ trim name = name ∧
  ∃ before raw after,
    candidates = (before ++ Some (JStr raw) :: after)%list ∧ name = trim raw ∧
    ∀ blank, Some (JStr blank) ∈ before -> trim blank = "".
Proof.
  induction candidates as [|candidate rest IH]; [done|].
  assert ((∀ blank, candidate = Some (JStr blank) -> trim blank = "") ->
          firstName rest = Some name ->
          name ≠ "" ∧ trim name = name ∧
          ∃ before raw after,
            candidate :: rest = (before ++ Some (JStr raw) :: after)%list ∧
            name = trim raw ∧
            ∀ blank, Some (JStr blank) ∈ before -> trim blank = "") as Hrest.
  { intros Hblank (? & ? & before & raw & after & -> & ? & Hbefore)%IH.
    split; [done|]. split; [done|].
    exists (candidate :: before), raw, after. split; [done|]. split; [done|].
    intros blank [Heq | Hin]%elem_of_cons; [by apply Hblank | by apply Hbefore]. }
  destruct candidate as [[| | |raw| |]|]; cbn [firstName]; try (by apply Hrest).
  cbv zeta. destruct (0 <? String.length (trim raw))%nat eqn:Hlen.
  - intros [= <-]. split; [by destruct (trim raw)|]. split; [apply trim_idempotent|].
    exists [], raw, rest. split; [done|]. split; [done|].
    intros blank Hin. by apply elem_of_nil in Hin.
  - apply Hrest. intros blank [= <-]. by destruct (trim raw).
Qed.

Lemma firstName_None candidates :
  firstName candidates = None ↔
  ∀ raw, Some (JStr raw) ∈ candidates -> trim raw = "".
Proof.
  induction candidates as [|candidate rest IH]; cbn [firstName].
  - split; [|done]. intros _ raw Hin. by apply elem_of_nil in Hin.
  - assert ((∀ raw, Some (JStr raw) ∈ rest -> trim raw = "") ->
            (∀ raw, candidate ≠ Some (JStr raw)) ->
            ∀ raw, Some (JStr raw) ∈ candidate :: rest -> trim raw = "") as Hskip.
    { intros H Hne raw [Heq | Hin]%elem_of_cons; [by destruct (Hne raw) | auto]. }
    destruct candidate as [[| | |raw| |]|].
    4:{ cbv zeta. destruct (trim raw) as [|c t] eqn:Hraw; cbn.
        - rewrite IH. split.
          + intros H raw' [[= ->] | Hin]%elem_of_cons; auto.
          + intros H raw' Hin. apply H. by right.
        - split; [done|]. intros H. specialize (H raw). rewrite Hraw in H.
          discriminate H. left. }
    all: rewrite IH; split;
      [intros H; apply Hskip; [exact H | done]
      |intros H raw' Hin; apply H; by right].
Qed.

(** X23. [extractDeviceName] returns the first candidate that is a string
    with something left after trimming, trimmed: a name that is neither
    empty nor padded; it returns [null] only for a falsy [info] or when every
    string candidate is blank.  Handed to [getSnapshot] by the dashboard's
    [load], that name is the name of the seeded printer, and "Impresora
    principal" is used when there is none. *)
Theorem device_name :
  (∀ info,
     match extractDeviceName info with
     | Some name =>
         name ≠ "" ∧ trim name = name ∧
         ∃ before raw after,
           nameCandidates info = (before ++ Some (JStr raw) :: after)%list ∧
           name = trim raw ∧
           ∀ blank, Some (JStr blank) ∈ before -> trim blank = ""
     | None =>
         truthy info = false ∨
         ∀ raw, Some (JStr raw) ∈ nameCandidates info -> trim raw = ""
     end) ∧
  (∀ status,
     seedName (Some (loadDefaults status)) =
     default "Impresora principal" (printerName (loadDefaults status))).
Proof.
  assert (∀ info,
            match extractDeviceName info with
            | Some name =>
                name ≠ "" ∧ trim name = name ∧
                ∃ before raw after,
                  nameCandidates info = (before ++ Some (JStr raw) :: after)%list ∧
                  name = trim raw ∧
                  ∀ blank, Some (JStr blank) ∈ before -> trim blank = ""
            | None =>
                truthy info = false ∨
                ∀ raw, Some (JStr raw) ∈ nameCandidates info -> trim raw = ""
            end) as Hname.
  { intros info. unfold extractDeviceName. destruct (truthy info); cbn [negb]; [|by left].
    destruct (firstName (nameCandidates info)) as [name|] eqn:Hname.
    - by apply firstName_spec.
    - right. by apply firstName_None. }
  split; [exact Hname|]. intros status.
  unfold seedName. cbn [mbind option_bind].
  change (Some (loadDefaults status) ≫= printerName) with (printerName (loadDefaults status)).
  destruct (printerName (loadDefaults status)) as [name|] eqn:Hn; [|reflexivity].
  cbn [default from_option]. unfold id.
  assert (name ≠ "" ∧ trim name = name) as [Hne ->].
  { unfold loadDefaults in Hn. cbn [printerName] in Hn.
    destruct (prop status "ok") as [flag|]; [|done].
    destruct (truthy flag); [|done].
    pose proof (Hname (default JNull (orNull (prop status "data")))) as H.
    rewrite Hn in H. tauto. }
  unfold or_else. by rewrite (proj2 (String.eqb_neq _ _) Hne).
Qed.

Lemma device_name_witness :
  extractDeviceName Cases.deviceInfo = Some "voron-24" ∧ trim "voron-24" = "voron-24".
Proof.
  pose proof (proj1 device_name Cases.deviceInfo) as H.
  assert (extractDeviceName Cases.deviceInfo = Some "voron-24") as Hname
    by (vm_compute; reflexivity).
  rewrite Hname in H. split; [exact Hname | apply H].
Defined.

(** ** normalizeBaseUrl *)

Lemma normalizeBaseUrl_spec value :
  (∃ n, value = normalizeBaseUrl value ++ slashes n) ∧
  ∀ kept, normalizeBaseUrl value ≠ kept ++ "/".
Proof.
  induction value as [|c rest IH]; cbn [normalizeBaseUrl].
  - split; [by exists 0|]. intros [|? ?]; done.
  - destruct IH as [[n Hn] Hend].
    destruct (normalizeBaseUrl rest) as [|c' kept'] eqn:Hrest.
    + rewrite append_nil in Hn. destruct (Ascii.eqb c "/") eqn:Hc.
      * apply Ascii.eqb_eq in Hc as ->. split.
        -- exists (S n). rewrite append_nil. cbn [slashes]. by rewrite Hn.
        -- intros [|? ?]; done.
      * split.
        -- exists n. rewrite append_cons, append_nil. by rewrite Hn.
        -- intros [|c0 [|? ?]]; rewrite ?append_cons, ?append_nil; try done.
           intros [= ->]. by rewrite Ascii.eqb_refl in Hc.
    + split.
      * exists n. rewrite append_cons. f_equal. exact Hn.
      * intros [|c0 kept]; rewrite ?append_cons, ?append_nil; [done|].
        intros [= -> H]. by apply (Hend kept).
Qed.

Lemma normalizeBaseUrl_of_slashes n : normalizeBaseUrl (slashes n) = "".
Proof. induction n as [|n IH]; cbn [slashes normalizeBaseUrl]; [done | by rewrite IH]. Qed.

Lemma normalizeBaseUrl_slashes value n :
  (∀ kept, value ≠ kept ++ "/") -> normalizeBaseUrl (value ++ slashes n) = value.
Proof.
  induction value as [|c rest IH]; intros Hend.
  - rewrite append_nil. apply normalizeBaseUrl_of_slashes.
  - rewrite append_cons. cbn [normalizeBaseUrl]. destruct rest as [|c' rest'].
    + rewrite append_nil, normalizeBaseUrl_of_slashes.
      destruct (Ascii.eqb c "/") eqn:Hc; [|done].
      apply Ascii.eqb_eq in Hc as ->. by destruct (Hend "").
    + rewrite IH; [done|]. intros kept Hk. apply (Hend (String c kept)).
      by rewrite append_cons, Hk.
Qed.


(** X24. [normalizeBaseUrl] removes the slashes at the end of a string and
    nothing else: the string is the result followed by slashes, the result
    does not end with a slash, and a string that does not end with a slash
    is recovered from itself followed by any number of slashes. *)
Theorem normalizeBaseUrl_strips_slashes :
  (∀ value,
     (∃ n, value = normalizeBaseUrl value ++ slashes n) ∧
     ∀ kept, normalizeBaseUrl value ≠ kept ++ "/") ∧
  (∀ value n,
     (∀ kept, value ≠ kept ++ "/") -> normalizeBaseUrl (value ++ slashes n) = value).
Proof. split; [apply normalizeBaseUrl_spec | apply normalizeBaseUrl_slashes]. Qed.

Lemma normalizeBaseUrl_strips_slashes_witness :
  normalizeBaseUrl "http://x//" = "http://x".
Proof.
  apply (proj2 normalizeBaseUrl_strips_slashes "http://x" 2).
  intros kept H.
  repeat (destruct kept as [|? kept]; rewrite ?append_nil, ?append_cons in H;
          [discriminate H | injection H as _ H]).
  destruct kept; discriminate H.
Defined.

End Page_facts.

(** ** What the loader hands on *)

Section Reply_facts.
Import Proxy ProxySpec Page.
Variable newURL : string -> option (string * string).
Variables invalidUrlMessage abortMessage : string.
Variables Number parseInt10 : string -> float.
Variable numberToString : float -> string.
Variable sortEs : list string -> list string.
Variable flatMapMessage : string.
Variable statusMessage : nat -> string.

Let overview := overviewGET newURL invalidUrlMessage abortMessage Number statusMessage.
Let info := InfoProxy.GET newURL invalidUrlMessage abortMessage statusMessage.

Lemma loadEndpoint_ok_first c flag rest :
  takesBody c = true ->
  loadEndpoint <$> responseOf {| code := c; envelope := JObj (("ok", JBool flag) :: rest) |}
  = Some (Store.stored (JObj (("ok", JBool flag) :: rest))).
Proof.
  intros Hc. unfold responseOf. cbn [code envelope]. rewrite Hc.
  cbn [fmap option_fmap option_map]. unfold loadEndpoint. f_equal.
  by destruct (negb _).
Qed.

Lemma overview_envelope param net reply :
  overview param net = Some reply ->
  ∃ flag rest, envelope reply = JObj (("ok", JBool flag) :: rest).
Proof.
  unfold overview, overviewGET.
  destruct (resolveBaseUrl _ _ _ _) as [base|message]; [|intros [= <-]; cbn; eauto].
  destruct (fetch _ _ _) as [[response|message]|]; [| |done].
  - destruct (negb (ok response)).
    { destruct (takesBody (status response)); intros [= <-]; cbn; eauto. }
    destruct (body response); intros [= <-]; cbn; eauto.
  - intros [= <-]. cbn. eauto.
Qed.

Lemma info_envelope param net reply :
  info param net = Some reply ->
  ∃ flag rest, envelope reply = JObj (("ok", JBool flag) :: rest).
Proof.
  unfold info, InfoProxy.GET.
  destruct (resolveBaseUrl _ _ _ _) as [base|message]; [|intros [= <-]; cbn; eauto].
  destruct (fetch _ _ _) as [[response|message]|]; [| |done].
  - destruct (negb (ok response)).
    { destruct (takesBody (status response)); intros [= <-]; cbn; eauto. }
    destruct (body response); intros [= <-]; cbn; eauto.
  - intros [= <-]. cbn. eauto.
Qed.

(** X25. Whatever printer-overview or printer-info replied, success or
    failure, with a status a response with a body can take, the page's
    [loadEndpoint] returns the body of that reply as it was sent: the
    loader's own messages do not replace what the route said. *)
Theorem loadEndpoint_passes_envelopes param net reply :
  overview param net = Some reply ∨ info param net = Some reply ->
  takesBody (code reply) = true ->
  loadEndpoint <$> responseOf reply = Some (Store.stored (envelope reply)).
Proof.
  intros H Hcode.
  assert (∃ flag rest, envelope reply = JObj (("ok", JBool flag) :: rest))
    as (flag & rest & Henv).
  { destruct H as [H | H]; [by eapply overview_envelope | by eapply info_envelope]. }
  destruct reply as [c e]. cbn in Henv, Hcode. subst e. by apply loadEndpoint_ok_first.
Qed.

End Reply_facts.


Lemma loadEndpoint_passes_envelopes_witness :
  Page.loadEndpoint <$>
    Page.responseOf
      {| Proxy.code := 502;
         Proxy.envelope := Proxy.failure "Moonraker request failed: ECONNREFUSED" |}
  = Some (Proxy.failure "Moonraker request failed: ECONNREFUSED").
Proof.
  apply (loadEndpoint_passes_envelopes Cases.parseUrl "Invalid URL"
           "This operation was aborted" (fun _ => PrimFloat.nan) Cases.statusError None
           (fun _ => Proxy.Refuses 0 "ECONNREFUSED")).
  - left. reflexivity.
  - reflexivity.
Defined.
